(** * FuncGenFoil: CST fitting, PARSEC-N15 features and the diffusion sampler

    A shallow embedding of

    - [airfoil_generation/dataset/parsec_direct_n15.py]
      (classes [CSTLayer] and [Fit_airfoil]), and
    - [airfoil_generation/model/discrete_time_diffusion.py]
      (classes [EMA] and [PointDiTDiffusion], and the variance
      schedules).

    The numeric code is written once over an interface [Float64] for the
    scalar type of a numpy [float64] array, and read at two instances:
    the kernel's IEEE binary64 numbers ([PrimFloat.float]), on which the
    arithmetic of the source runs bit for bit, and the real numbers [R],
    the exact arithmetic in which "least squares" and "binomial
    coefficient" have their textbook meaning.  The routines of numpy and
    scipy that the source only calls ([numpy.linalg.lstsq],
    [scipy.optimize.minimize], the C library's [pow], [atan], [cos]) are
    components of the interface, with the documented contract stated as a
    hypothesis wherever a theorem needs it. *)

From Stdlib Require Import String.
From Stdlib Require Import ZArith List Bool Lia.
From Stdlib Require Import Reals Lra Floats Epsilon.
Import ListNotations.
Local Open Scope string_scope.
Local Open Scope list_scope.
Local Open Scope Z_scope.

Set Implicit Arguments.

(** ** Python exceptions and the error monad *)

Inductive exn : Type :=
| IndexError
| ValueError (msg : string)
| TypeError (msg : string)
| ZeroDivisionError
| LinAlgError (msg : string).

Inductive result (A : Type) : Type :=
| OK (a : A)
| Raise (e : exn).

Arguments OK {A} a.
Arguments Raise {A} e.

Definition bind {A B : Type} (m : result A) (k : A -> result B) : result B :=
  match m with
  | OK a => k a
  | Raise e => Raise e
  end.

Notation "x <- m ;; k" := (bind m (fun x => k))
  (at level 61, m at next level, right associativity).
Notation "' p <- m ;; k" := (bind m (fun x => match x with p => k end))
  (at level 61, p pattern, m at next level, right associativity).

Definition raises {A : Type} (m : result A) : Prop :=
  exists e, m = Raise e.

Definition returns {A : Type} (m : result A) : Prop :=
  exists a, m = OK a.

(** ** The scalar interface *)

(** What the source asks of a [float64]: conversion from a Python [int],
    the four operations (numpy's division is total: a zero divisor gives
    an infinity or a NaN and a [RuntimeWarning], never an exception),
    square root, the comparison [<=], rounding up to an integer (how
    [np.arange] counts its points) and the constant [np.pi]. *)
Class Float64 (F : Type) : Type := {
  of_Z : Z -> F;
  fadd : F -> F -> F;
  fsub : F -> F -> F;
  fmul : F -> F -> F;
  fdiv : F -> F -> F;
  fsqrt : F -> F;
  fleb : F -> F -> bool;
  fceil : F -> Z;
  fpi : F
}.

(** The transcendental functions, which numpy and [math] take from the
    C library: [x ** y], [math.atan], [np.cos]. *)
Class Libm (F : Type) : Type := {
  fpow : F -> F -> F;
  fatan : F -> F;
  fcos : F -> F
}.

(** [scipy.optimize.OptimizeResult], the fields a caller can read. *)
Record OptimizeResult (F : Type) : Type := {
  res_x : list F;
  res_fun : F;
  res_success : bool;
  res_nit : nat
}.

(** The two solvers the source calls.  [lstsq A b] is
    [numpy.linalg.lstsq(A, b, rcond=None)[0]] on a system whose shapes
    agree: the solution, or the [LinAlgError] numpy raises "if computation
    does not converge", as it does on a system that holds a NaN or an
    infinity.  [minimize f x0] is
    [scipy.optimize.minimize(f, x0, method="Nelder-Mead")]. *)
Class Solvers (F : Type) : Type := {
  lstsq : list (list F) -> list F -> result (list F);
  minimize : (list F -> result F) -> list F -> OptimizeResult F
}.

(** ** numpy on one- and two-dimensional arrays *)

Section Numpy.

Context {F : Type} `{Float64 F}.

(** A decimal literal of the source, [n/d] with both exactly representable:
    IEEE division rounds correctly, so this is the literal's value. *)
Definition decimal (n d : Z) : F := fdiv (of_Z n) (of_Z d).

Definition isnan (a : F) : bool := negb (fleb a a).

(** [a[:n]] and [a[n:]] for a Python integer [n] (a negative bound counts
    from the end; bounds are clipped to the array). *)
Definition slice_to {A : Type} (n : Z) (a : list A) : list A :=
  if n <? 0 then firstn (Z.to_nat (Z.of_nat (length a) + n)) a
  else firstn (Z.to_nat n) a.

Definition slice_from {A : Type} (n : Z) (a : list A) : list A :=
  if n <? 0 then skipn (Z.to_nat (Z.of_nat (length a) + n)) a
  else skipn (Z.to_nat n) a.

(** [a[i]] for a Python integer [i]: a negative index counts from the
    end, and an index outside the array raises [IndexError]. *)
Definition index {A : Type} (a : list A) (i : Z) : result A :=
  let j := if i <? 0 then Z.of_nat (length a) + i else i in
  if j <? 0 then Raise IndexError
  else match nth_error a (Z.to_nat j) with
       | Some v => OK v
       | None => Raise IndexError
       end.

(** An elementwise operation on two vectors, with numpy's broadcasting:
    equal lengths, or one operand of length one. *)
Fixpoint zip_with {A : Type} (op : A -> A -> A) (a b : list A) : list A :=
  match a, b with
  | u :: a', v :: b' => op u v :: zip_with op a' b'
  | _, _ => []
  end.

Definition broadcast_msg : string := "operands could not be broadcast together".

Definition broadcast (op : F -> F -> F) (a b : list F) : result (list F) :=
  if (length a =? length b)%nat then OK (zip_with op a b)
  else match a, b with
       | [u], _ => OK (map (op u) b)
       | _, [v] => OK (map (fun u => op u v) a)
       | _, _ => Raise (ValueError broadcast_msg)
       end.

(** A vector times a scalar. *)
Definition scale (a : list F) (s : F) : list F := map (fun u => fmul u s) a.

(** A sum, added up from left to right.  numpy adds pairwise and its
    [dot] in blocks, so in binary64 a sum of the program can differ from
    this one in its last bits; in exact arithmetic the order does not
    matter, and no property below gives the value of a binary64 sum. *)
Definition fsum (a : list F) : F := fold_left fadd a (of_Z 0).

Definition fdot (a b : list F) : F := fsum (zip_with fmul a b).

(** [A.dot(v)] for a two-dimensional [A] (a list of rows) and a vector. *)
Definition dot_msg : string := "shapes not aligned".

Definition np_dot (A : list (list F)) (v : list F) : result (list F) :=
  if forallb (fun row => (length row =? length v)%nat) A
  then OK (map (fun row => fdot row v) A)
  else Raise (ValueError dot_msg).

(** [A.T] of an array of [m] rows stored as [rows], each of length [n_x]:
    the transpose has [n_x] rows, also when [m = 0]. *)
Definition transpose (n_x : nat) (rows : list (list F)) : list (list F) :=
  map (fun i => map (fun row => nth i row (of_Z 0)) rows) (seq 0 n_x).

(** [np.arange(start, stop, step)] on floats: [ceil((stop - start)/step)]
    points; the first two are [start] and [start + step], and point [i] is
    [start + i * delta] with [delta] the difference of the first two. *)
Definition arange (start stop step : F) : list F :=
  let len := Z.to_nat (fceil (fdiv (fsub stop start) step)) in
  let next := fadd start step in
  let delta := fsub next start in
  map (fun i => match i with
                | O => start
                | S O => next
                | _ => fadd start (fmul (of_Z (Z.of_nat i)) delta)
                end) (seq 0 len).

(** [a == b] on floats. *)
Definition feqb (a b : F) : bool := fleb a b && fleb b a.

(** [np.linspace(start, stop, num)]: [num] points [i * step + start] with
    [step = (stop - start) / (num - 1)], the last one set to [stop].  When
    the step is zero numpy scales by [i / (num - 1) * (stop - start)]
    instead, and for a single point by [i * (stop - start)]. *)
Definition linspace (start stop : F) (num : nat) : list F :=
  let div := of_Z (Z.of_nat num - 1) in
  let delta := fsub stop start in
  let step := fdiv delta div in
  map (fun i =>
         let y := of_Z (Z.of_nat i) in
         if (1 <? num)%nat && (S i =? num)%nat then stop
         else if (1 <? num)%nat
              then if feqb step (of_Z 0)
                   then fadd (fmul (fdiv y div) delta) start
                   else fadd (fmul y step) start
              else fadd (fmul y delta) start)
      (seq 0 num).

(** [a.max()] and [a.min()]: numpy's [maximum] keeps its left operand when
    it is the larger one or a NaN; an empty array has no maximum. *)
Definition reduce_msg : string := "zero-size array to reduction operation".

Definition fmax2 (m v : F) : F := if fleb v m || isnan m then m else v.
Definition fmin2 (m v : F) : F := if fleb m v || isnan m then m else v.

Definition np_max (a : list F) : result F :=
  match a with
  | [] => Raise (ValueError reduce_msg)
  | u :: a' => OK (fold_left fmax2 a' u)
  end.

Definition np_min (a : list F) : result F :=
  match a with
  | [] => Raise (ValueError reduce_msg)
  | u :: a' => OK (fold_left fmin2 a' u)
  end.

(** [np.argmax(a)] and [np.argmin(a)]: the scan keeps the running best and
    its index, replaces it by an element that is not [<=] (not [>=]) it,
    and stops at a NaN. *)
Fixpoint argscan (better : F -> F -> bool) (a : list F) (i : nat)
    (best : F) (best_i : nat) : nat :=
  match a with
  | [] => best_i
  | v :: a' =>
      if isnan best then best_i
      else if better v best then argscan better a' (S i) v i
      else argscan better a' (S i) best best_i
  end.

Definition argmsg : string := "attempt to get argmax of an empty sequence".

Definition np_argmax (a : list F) : result nat :=
  match a with
  | [] => Raise (ValueError argmsg)
  | u :: a' => OK (argscan (fun v m => negb (fleb v m)) a' 1 u 0)
  end.

Definition np_argmin (a : list F) : result nat :=
  match a with
  | [] => Raise (ValueError argmsg)
  | u :: a' => OK (argscan (fun v m => negb (fleb m v)) a' 1 u 0)
  end.

(** [np.std(a)] over all entries: the root of the mean squared deviation
    from the mean. *)
Definition np_mean (a : list F) : F :=
  fdiv (fsum a) (of_Z (Z.of_nat (length a))).

Definition np_std (a : list F) : F :=
  let m := np_mean a in
  fsqrt (np_mean (map (fun u => fmul (fsub u m) (fsub u m)) a)).

(** [math.degrees(x)] is [x * (180 / pi)]. *)
Definition degrees (x : F) : F := fmul x (fdiv (of_Z 180) fpi).

(** [scipy.special.factorial(n)] of a non-negative integer, as a float. *)
Fixpoint fact_Z (n : nat) : Z :=
  match n with
  | O => 1
  | S k => Z.of_nat n * fact_Z k
  end.

Definition factorial (n : nat) : F := of_Z (fact_Z n).

End Numpy.

(** ** [CSTLayer] *)

Section CST.

Context {F : Type} `{Float64 F} `{Libm F} `{Solvers F}.

Record CSTLayer : Type := {
  n_x : nat;
  x_coords : list F;
  n1 : F;
  n2 : F;
  n_cst : nat;
  A0 : list (list F)
}.

(** [k[r] = factorial(n) / factorial(r) / factorial(n - r)]. *)
Definition binomial_weight (n r : nat) : F :=
  fdiv (fdiv (factorial n) (factorial r)) (factorial (n - r)).

(** One basis function at one station:
    [k[r] * x ** (n1 + r) * (1 - x) ** (n + n2 - r)]. *)
Definition basis_entry (n : nat) (e1 e2 : F) (r : nat) (x : F) : F :=
  fmul (fmul (binomial_weight n r)
             (fpow x (fadd e1 (of_Z (Z.of_nat r)))))
       (fpow (fsub (of_Z 1) x)
             (fsub (fadd (of_Z (Z.of_nat n)) e2) (of_Z (Z.of_nat r)))).

(** [A0_matrix]: row [r] of the [(n + 1) x n_x] array is the [r]-th basis
    function over the stations, and the method returns the transpose.
    Every [CSTLayer] built by [CSTLayer_init] has [n_x = len(x_coords)], so
    the row assignment [A0[r, :] = ...] fits. *)
Definition A0_matrix (self : CSTLayer) : list (list F) :=
  let n := n_cst self in
  let rows :=
    map (fun r => map (basis_entry n (n1 self) (n2 self) r) (x_coords self))
        (seq 0 (n + 1)) in
  transpose (n_x self) rows.

(** [__init__(self, x_coords=None, n_cst=12, n_x=129, n1=0.5, n2=1.0)]:
    without stations, [n_x] of them with cosine spacing
    [(cos(theta) + 1)/2], [theta] from [pi] to [2 pi]. *)
Definition CSTLayer_init (xs : option (list F)) (n : nat) (nx : nat)
    (e1 e2 : F) : CSTLayer :=
  let '(nx', xs') :=
    match xs with
    | None =>
        let theta := linspace fpi (fmul (of_Z 2) fpi) nx in
        (nx, map (fun t => fdiv (fadd (fcos t) (of_Z 1)) (of_Z 2)) theta)
    | Some x => (length x, x)
    end in
  let self :=
    {| n_x := nx'; x_coords := xs'; n1 := e1; n2 := e2; n_cst := n;
       A0 := [] |} in
  {| n_x := nx'; x_coords := xs'; n1 := e1; n2 := e2; n_cst := n;
     A0 := A0_matrix self |}.

(** [numpy.linalg.lstsq(A, b, rcond=None)[0]]: the row counts must agree,
    and then the answer, or the error, is the solver's. *)
Definition lstsq_msg : string := "Incompatible dimensions".

Definition np_lstsq (A : list (list F)) (b : list F) : result (list F) :=
  if (length A =? length b)%nat then lstsq A b
  else Raise (LinAlgError lstsq_msg).

(** [fit_CST(self, y_coords, n_x=129)]. *)
Definition fit_CST (self : CSTLayer) (y_coords : list F) (nx : Z)
    : result (list F * list F * F) :=
  let A := A0_matrix self in
  let yu := rev (slice_to nx y_coords) in
  let yl := slice_from (nx - 1) y_coords in
  yu_te <- index yu (-1) ;;
  yl_te <- index yl (-1) ;;
  let te := fdiv (fsub yu_te yl_te) (of_Z 2) in
  bu <- broadcast fsub yu (scale (x_coords self) yu_te) ;;
  au <- np_lstsq A bu ;;
  bl <- broadcast fsub yl (scale (x_coords self) yl_te) ;;
  al <- np_lstsq A bl ;;
  OK (au, al, te).

(** [fit_CST_up(self, y_coords, n_x=129)]: the lower fit is commented out. *)
Definition fit_CST_up (self : CSTLayer) (y_coords : list F) (nx : Z)
    : result (list F * F) :=
  let A := A0_matrix self in
  let yu := rev (slice_to nx y_coords) in
  let yl := slice_from (nx - 1) y_coords in
  yu_te <- index yu (-1) ;;
  yl_te <- index yl (-1) ;;
  let te := fdiv (fsub yu_te yl_te) (of_Z 2) in
  bu <- broadcast fsub yu (scale (x_coords self) yu_te) ;;
  au <- np_lstsq A bu ;;
  OK (au, te).

(** [fit_CST_low(self, y_coords, n_x=129)]: the upper fit is commented out. *)
Definition fit_CST_low (self : CSTLayer) (y_coords : list F) (nx : Z)
    : result (list F * F) :=
  let A := A0_matrix self in
  let yu := rev (slice_to nx y_coords) in
  let yl := slice_from (nx - 1) y_coords in
  yu_te <- index yu (-1) ;;
  yl_te <- index yl (-1) ;;
  let te := fdiv (fsub yu_te yl_te) (of_Z 2) in
  bl <- broadcast fsub yl (scale (x_coords self) yl_te) ;;
  al <- np_lstsq A bl ;;
  OK (al, te).

(** The spec's wording of the two single-surface modes: one fitting
    routine, fewer outputs. *)
Definition fit_up_of_joint (self : CSTLayer) (y_coords : list F) (nx : Z)
    : result (list F * F) :=
  '(au, _, te) <- fit_CST self y_coords nx ;; OK (au, te).

Definition fit_low_of_joint (self : CSTLayer) (y_coords : list F) (nx : Z)
    : result (list F * F) :=
  '(_, al, te) <- fit_CST self y_coords nx ;; OK (al, te).

(** The residual of [A . a = b], squared 2-norm, and what it means for
    [a] to be a least-squares solution: of the right length, with a
    residual no larger than that of any other coefficient vector. *)
Definition ncols (A : list (list F)) : nat := length (hd [] A).

Definition residual2 (A : list (list F)) (b a : list F) : F :=
  fsum (zip_with (fun u v => fmul (fsub u v) (fsub u v))
                 (map (fun row => fdot row a) A) b).

Definition least_squares (A : list (list F)) (b a : list F) : Prop :=
  length a = ncols A /\
  forall a', length a' = ncols A ->
             fleb (residual2 A b a) (residual2 A b a') = true.

(** A rectangular system: every row of [A] as long as the first, and as
    many rows as [b] has entries. *)
Definition rectangular (A : list (list F)) (b : list F) : Prop :=
  length A = length b /\ Forall (fun row => length row = ncols A) A.

(** The contract of [numpy.linalg.lstsq]: it "computes the vector x that
    approximately solves a @ x = b", minimizing the Euclidean 2-norm of
    [b - a x]; what it returns is such a vector. *)
Definition lstsq_contract : Prop :=
  forall A b a, rectangular A b -> lstsq A b = OK a -> least_squares A b a.

(** What every caller relies on of a solver's answer: its shape.  A
    solution returned by [lstsq] has one entry per column, and [minimize]
    returns a point of the dimension of its starting point. *)
Definition lstsq_shape : Prop :=
  forall A b a, rectangular A b -> lstsq A b = OK a -> length a = ncols A.

(** A solver that returns on every rectangular system, as one does whose
    entries are all finite. *)
Definition lstsq_returns : Prop :=
  forall A b, rectangular A b -> returns (lstsq A b).

Definition minimize_shape : Prop :=
  forall f x0, length (res_x (minimize f x0)) = length x0.

(** The dense grid reaches the last index read from it, 6000. *)
Definition grid_covers (x2 : list F) : Prop := 6000 < Z.of_nat (length x2).

(** ** [Fit_airfoil] *)

(** Unpacking a sequence into three names. *)
Definition unpack3 (v : list F) : result (F * F * F) :=
  match v with
  | [a; b; c] => OK (a, b, c)
  | _ => Raise (ValueError
           (if (length v <? 3)%nat then "not enough values to unpack"
            else "too many values to unpack"))
  end.

Definition square (u : F) : F := fmul u u.

(** [objective(params, x, y)]:
    [np.sum((np.sqrt((x - xc)**2 + (y - yc)**2) - r)**2)]. *)
Definition objective (params x y : list F) : result F :=
  '(xc, yc, r) <- unpack3 params ;;
  d2 <- broadcast fadd (map (fun u => square (fsub u xc)) x)
                       (map (fun v => square (fsub v yc)) y) ;;
  OK (fsum (map (fun d => square (fsub (fsqrt d) r)) d2)).

(** Line 121: the slope between the first two points,
    [(data[0,1] - data[1,1]) / (data[0,0] - data[1,0])]. *)
Definition leading_edge_slope (data : list (F * F)) : result F :=
  p0 <- index data 0 ;;
  p1 <- index data 1 ;;
  OK (fdiv (fsub (snd p0) (snd p1)) (fsub (fst p0) (fst p1))).

(** Lines 121-124: [angle = math.degrees(math.atan(a))]. *)
Definition leading_edge_angle (data : list (F * F)) : result F :=
  a <- leading_edge_slope data ;;
  let theta_radians := fatan a in
  let theta_degrees := degrees theta_radians in
  OK theta_degrees.

(** Line 128: [x2 = np.arange(0, 1.001, 0.0001)]. *)
Definition dense_grid : list F :=
  arange (of_Z 0) (decimal 1001 1000) (decimal 1 10000).

(** The constructor call [CSTLayer(n_cst=12, x_coords=x)] with the other
    arguments at their defaults [n_x=129, n1=0.5, n2=1.0]. *)
Definition CSTLayer_12 (x : list F) : CSTLayer :=
  CSTLayer_init (Some x) 12 129 (decimal 5 10) (of_Z 1).

(** Lines 129-131: [yu = cst2.A0.dot(au) + cst2.x_coords * te] and
    [yl = cst2.A0.dot(al) - cst2.x_coords * te]. *)
Definition reconstruct (x2 au al : list F) (te : F)
    : result (list F * list F) :=
  let cst2 := CSTLayer_12 x2 in
  du <- np_dot (A0 cst2) au ;;
  yu <- broadcast fadd du (scale (x_coords cst2) te) ;;
  dl <- np_dot (A0 cst2) al ;;
  yl <- broadcast fsub dl (scale (x_coords cst2) te) ;;
  OK (yu, yl).

(** Lines 147-156: the circle fit through [data[126:131, :]], started at
    [(0.0025, 0, np.std([xdata, ydata]))]. *)
Definition leading_edge_circle (data : list (F * F)) : OptimizeResult F :=
  let points := slice_from 126 (slice_to 131 data) in
  let xdata := map fst points in
  let ydata := map snd points in
  let initial_guess :=
    [decimal 25 10000; of_Z 0; np_std (xdata ++ ydata)] in
  minimize (fun params => objective params xdata ydata) initial_guess.

(** [get_parsec_n15(self)] on [self.data = data], an array of shape
    [(npoints, 2)]. *)
Definition get_parsec_n15 (data : list (F * F)) : result (list F) :=
  let x := map fst data in
  let y := map snd data in
  angle <- leading_edge_angle data ;;
  let cst := CSTLayer_12 (rev (slice_to 129 x)) in
  '(au, al, te) <- fit_CST cst y 129 ;;
  let x2 := dense_grid in
  '(yu, yl) <- reconstruct x2 au al te ;;
  t4u <- index yu 400 ;;
  t25u <- index yu 2500 ;;
  t60u <- index yu 6000 ;;
  t4l <- index yl 400 ;;
  t25l <- index yl 2500 ;;
  t60l <- index yl 6000 ;;
  let te1 := te in
  yumax <- np_max yu ;;
  ylmax <- np_min yl ;;
  iu <- np_argmax yu ;;
  xumax <- index x2 (Z.of_nat iu) ;;
  il <- np_argmin yl ;;
  xlmax <- index x2 (Z.of_nat il) ;;
  yr <- np_max yl ;;
  ir <- np_argmax yl ;;
  xr <- index x2 (Z.of_nat ir) ;;
  let result := leading_edge_circle data in
  '(xc, yc, r) <- unpack3 (res_x result) ;;
  let rf := r in
  OK [rf; t4u; t4l; xumax; yumax; xlmax; ylmax; t25u; t25l; angle; te1;
      xr; yr; t60u; t60l].

(** [Fit_airfoil.__init__(self, data)] stores the data and the features
    extracted from them. *)
Record Fit_airfoil : Type := {
  data : list (F * F);
  parsec_features : list F
}.

Definition Fit_airfoil_init (points : list (F * F)) : result Fit_airfoil :=
  features <- get_parsec_n15 points ;;
  OK {| data := points; parsec_features := features |}.

End CST.

Arguments CSTLayer : clear implicits.
Arguments Fit_airfoil : clear implicits.

(** ** [CSTLayer.derivative_matrix] *)

Section CSTDerivatives.

Context {F : Type} `{Float64 F} `{Libm F}.

(** Unary minus. *)
Definition fneg (u : F) : F := fmul (of_Z (-1)) u.

(** One entry of [A1]:
    [k[r] * (-(x ** (n1 + r - 1)) * (1 - x) ** (n + n2 - r - 1)
             * (x * (n + n2 - r) + (n1 + r) * (x - 1)))]. *)
Definition slope_entry (n : nat) (e1 e2 : F) (r : nat) (x : F) : F :=
  let nz := of_Z (Z.of_nat n) in
  let rz := of_Z (Z.of_nat r) in
  let one := of_Z 1 in
  fmul (binomial_weight n r)
       (fmul (fmul (fneg (fpow x (fsub (fadd e1 rz) one)))
                   (fpow (fsub one x)
                         (fsub (fsub (fadd nz e2) rz) one)))
             (fadd (fmul x (fsub (fadd nz e2) rz))
                   (fmul (fadd e1 rz) (fsub x one)))).

(** One entry of [A2]:
    [k[r] * (x ** (n1 + r - 2) * (1 - x) ** (n + n2 - r - 2)
             * (x**2 * (-n + n2**2 + 2*n2*(n - r) - n2 + r + (n - r)**2)
                + 2*x*(x - 1) * (n1*n2 + n1*(n - r) + n2*r + r*(n - r))
                + (x - 1)**2 * (n1**2 + 2*n1*r - n1 + r**2 - r)))].
    The degree [n] and the index [r] are Python integers, so [n - r],
    [(n - r)**2], [r*(n - r)], [r**2] and [-n] are computed on integers;
    [n2**2] and [n1**2] are powers of Python floats and [x**2],
    [(x - 1)**2] squares of arrays. *)
Definition curvature_entry (n : nat) (e1 e2 : F) (r : nat) (x : F) : F :=
  let nz := Z.of_nat n in
  let rz := Z.of_nat r in
  let one := of_Z 1 in
  let two := of_Z 2 in
  let c2 :=
    fadd (fadd (fsub (fadd (fadd (of_Z (- nz)) (fpow e2 two))
                           (fmul (fmul two e2) (of_Z (nz - rz))))
                     e2)
               (of_Z rz))
         (of_Z ((nz - rz) ^ 2)) in
  let c1 :=
    fadd (fadd (fadd (fmul e1 e2) (fmul e1 (of_Z (nz - rz))))
               (fmul e2 (of_Z rz)))
         (of_Z (rz * (nz - rz))) in
  let c0 :=
    fsub (fadd (fsub (fadd (fpow e1 two) (fmul (fmul two e1) (of_Z rz)))
                     e1)
               (of_Z (rz ^ 2)))
         (of_Z rz) in
  fmul (binomial_weight n r)
       (fmul (fmul (fpow x (fsub (fadd e1 (of_Z rz)) two))
                   (fpow (fsub one x)
                         (fsub (fsub (fadd (of_Z nz) e2) (of_Z rz)) two)))
             (fadd (fadd (fmul (fmul x x) c2)
                         (fmul (fmul (fmul two x) (fsub x one)) c1))
                   (fmul (fmul (fsub x one) (fsub x one)) c0))).

Definition negative_msg : string := "negative dimensions are not allowed".

(** [derivative_matrix(self)]: the interior stations [x_coords[1:-1]],
    [n_x - 2] of them; [np.zeros([n + 1, n_x - 2])] refuses a negative
    count.  Row [r] of each array is filled over the interior stations and
    the method returns the two transposes. *)
Definition derivative_matrix (self : CSTLayer F)
    : result (list (list F) * list (list F)) :=
  let n := n_cst self in
  let interior := Z.of_nat (n_x self) - 2 in
  let x := slice_from 1 (slice_to (-1) (x_coords self)) in
  if interior <? 0 then Raise (ValueError negative_msg)
  else
    let rows1 :=
      map (fun r => map (slope_entry n (n1 self) (n2 self) r) x)
          (seq 0 (n + 1)) in
    let rows2 :=
      map (fun r => map (curvature_entry n (n1 self) (n2 self) r) x)
          (seq 0 (n + 1)) in
    OK (transpose (Z.to_nat interior) rows1,
        transpose (Z.to_nat interior) rows2).

End CSTDerivatives.

(** ** [PointDiTDiffusion] *)

Module Diffusion.

(** The sampler draws noise from torch's generator and calls the
    denoising network; both are effects.  The world threads the generator
    state and logs every draw and every network call, so "before any
    computation" is a statement about the log. *)
Inductive event : Type :=
| Drawn (shape : list Z)
| DrawnLike
| Forward (use_ema : bool) (t : Z).

Record world (G : Type) : Type := {
  gen : G;
  log : list event
}.

Definition M (G A : Type) : Type := world G -> result A * world G.

Definition ret {G A : Type} (a : A) : M G A := fun w => (OK a, w).

Definition throw {G A : Type} (e : exn) : M G A := fun w => (Raise e, w).

Definition bindM {G A B : Type} (m : M G A) (k : A -> M G B) : M G B :=
  fun w => match m w with
           | (OK a, w') => k a w'
           | (Raise e, w') => (Raise e, w')
           end.

Definition lift {G A : Type} (r : result A) : M G A := fun w => (r, w).

Notation "x <~ m ;; k" := (bindM m (fun x => k))
  (at level 61, m at next level, right associativity).

(** A tensor of dtype long filled with one value:
    [torch.full((batch_size,), value)], [torch.tensor([t]).repeat(batch_size)]. *)
Record long_tensor : Type := {
  lt_batch : Z;
  lt_value : Z
}.

(** The operations of torch the class uses, on an abstract tensor type
    [T]; [Y] is the type of a condition [y], [Net] that of a network and
    [G] the state of the random generator.  They are taken to return:
    [gather] in particular is read on indices within the buffer (torch
    raises on the others), and a property that says a sampler returns is
    stated where every index it gathers is. *)
Class Torch (F T Y Net G : Type) : Type := {
  to_torch : list F -> T;
  randn : list Z -> G -> T * G;
  randn_like : T -> G -> T * G;
  apply_net : Net -> T -> long_tensor -> option Y -> T;
  len_y : Y -> Z;
  gather : T -> long_tensor -> T -> T;
  tadd : T -> T -> T;
  tsub : T -> T -> T;
  tmul : T -> T -> T;
  tdiv : T -> T -> T;
  tsqrt : T -> T;
  tsquare : T -> T;
  tclamp : F -> F -> T -> T;
  trsub : F -> T -> T;
  tscale : F -> T -> T;
  tassign : T -> list Z -> T -> T;
  detach_cpu : T -> T
}.

Section Model.

Context {F T Y Net G : Type} `{Float64 F} `{Torch F T Y Net G}.

Record PointDiTDiffusion : Type := {
  model : Net;
  ema_model : Net;
  ema_decay : F;
  ema_start : Z;
  ema_update_rate : Z;
  step : Z;
  latent_size : Z;
  channels : Z;
  loss_type : string;
  num_timesteps : Z;
  ddim_timesteps : Z;
  ddim_eta : F;
  betas : T;
  alphas : T;
  alphas_cumprod : T;
  sqrt_alphas_cumprod : T;
  sqrt_one_minus_alphas_cumprod : T;
  reciprocal_sqrt_alphas : T;
  remove_noise_coeff : T;
  sigma : T
}.

(** [np.cumprod]. *)
Fixpoint cumprod_from (acc : F) (a : list F) : list F :=
  match a with
  | [] => []
  | u :: a' => let p := fmul acc u in p :: cumprod_from p a'
  end.

Definition cumprod (a : list F) : list F :=
  match a with
  | [] => []
  | u :: a' => u :: cumprod_from u a'
  end.

Definition loss_msg : string := "__init__() got unknown loss type".

(** [__init__]: the loss type is checked after the networks and the EMA
    settings are stored and before the schedule buffers are built. *)
Definition init (net : Net) (latent channels_ : Z) (betas_ : list F)
    (loss : string) (decay : F) (start rate : Z)
    : result PointDiTDiffusion :=
  if negb (existsb (String.eqb loss) ["l1"; "l2"])
  then Raise (ValueError loss_msg)
  else
    let one := of_Z 1 in
    let alphas_ := map (fsub one) betas_ in
    let acp := cumprod alphas_ in
    OK {| model := net;
          ema_model := net;
          ema_decay := decay;
          ema_start := start;
          ema_update_rate := rate;
          step := 0;
          latent_size := latent;
          channels := channels_;
          loss_type := loss;
          num_timesteps := Z.of_nat (length betas_);
          ddim_timesteps := 50;
          ddim_eta := of_Z 0;
          betas := to_torch betas_;
          alphas := to_torch alphas_;
          alphas_cumprod := to_torch acp;
          sqrt_alphas_cumprod := to_torch (map fsqrt acp);
          sqrt_one_minus_alphas_cumprod :=
            to_torch (map (fun a => fsqrt (fsub one a)) acp);
          reciprocal_sqrt_alphas :=
            to_torch (map (fun a => fsqrt (fdiv one a)) alphas_);
          remove_noise_coeff :=
            to_torch (zip_with fdiv betas_
                        (map (fun a => fsqrt (fsub one a)) acp));
          sigma := to_torch (map fsqrt betas_) |}.

(** The effects. *)
Definition draw (shape : list Z) : M G T :=
  fun w => let '(x, g) := randn shape (gen w) in
           (OK x, {| gen := g; log := log w ++ [Drawn shape] |}).

Definition draw_like (x : T) : M G T :=
  fun w => let '(z, g) := randn_like x (gen w) in
           (OK z, {| gen := g; log := log w ++ [DrawnLike] |}).

Definition predict (self : PointDiTDiffusion) (use_ema : bool) (x : T)
    (t : long_tensor) (y : option Y) : M G T :=
  fun w => (OK (apply_net (if use_ema then ema_model self else model self)
                          x t y),
            {| gen := gen w;
               log := log w ++ [Forward use_ema (lt_value t)] |}).

(** [extract(a, t, x_shape)]. *)
Definition extract (a : T) (t : long_tensor) (x : T) : T := gather a t x.

(** [remove_noise(self, x, t, y, use_ema)]. *)
Definition remove_noise (self : PointDiTDiffusion) (x : T) (t : long_tensor)
    (y : option Y) (use_ema : bool) : M G T :=
  eps <~ predict self use_ema x t y ;;
  ret (tmul (tsub x (tmul (extract (remove_noise_coeff self) t x) eps))
            (extract (reciprocal_sqrt_alphas self) t x)).

(** [perturb_x(self, x, t, noise)]. *)
Definition perturb_x (self : PointDiTDiffusion) (x : T) (t : long_tensor)
    (noise : T) : T :=
  tadd (tmul (extract (sqrt_alphas_cumprod self) t x) x)
       (tmul (extract (sqrt_one_minus_alphas_cumprod self) t x) noise).

Definition mismatch_msg : string :=
  "sample batch size different from length of given y".

(** [y is not None and batch_size != len(y)]. *)
Definition mismatch (batch_size : Z) (y : option Y) : bool :=
  match y with
  | Some c => negb (batch_size =? len_y c)
  | None => false
  end.

(** [range(num_timesteps - 1, -1, -1)]. *)
Definition countdown (n : Z) : list Z :=
  map (fun k => n - 1 - Z.of_nat k) (seq 0 (Z.to_nat n)).

(** One turn of the ancestral loop of [sample]. *)
Definition ancestral_step (self : PointDiTDiffusion) (batch_size : Z)
    (y : option Y) (use_ema : bool) (x : T) (t : Z) : M G T :=
  let t_batch := {| lt_batch := batch_size; lt_value := t |} in
  x1 <~ remove_noise self x t_batch y use_ema ;;
  if 0 <? t
  then z <~ draw_like x1 ;;
       ret (tadd x1 (tmul (extract (sigma self) t_batch x1) z))
  else ret x1.

Fixpoint for_each {A S : Type} (body : S -> A -> M G S) (items : list A)
    (s : S) : M G S :=
  match items with
  | [] => ret s
  | i :: rest => s' <~ body s i ;; for_each body rest s'
  end.

(** [sample(self, batch_size, device, y=None, use_ema=True)], after the
    guard. *)
Definition sample_body (self : PointDiTDiffusion) (batch_size : Z)
    (y : option Y) (use_ema : bool) : M G T :=
  x <~ draw [batch_size; latent_size self; channels self] ;;
  x' <~ for_each (ancestral_step self batch_size y use_ema)
                 (countdown (num_timesteps self)) x ;;
  ret (detach_cpu x').

Definition sample (self : PointDiTDiffusion) (batch_size : Z)
    (y : option Y) (use_ema : bool) : M G T :=
  if mismatch batch_size y then throw (ValueError mismatch_msg)
  else sample_body self batch_size y use_ema.

(** [sample_diffusion_sequence]: the same loop, keeping every state. *)
Definition sample_diffusion_sequence_body (self : PointDiTDiffusion)
    (batch_size : Z) (y : option Y) (use_ema : bool) : M G (list T) :=
  x <~ draw [batch_size; latent_size self; channels self] ;;
  let diffusion_sequence := [detach_cpu x] in
  xs <~ for_each
          (fun '(x0, acc) t =>
             x1 <~ ancestral_step self batch_size y use_ema x0 t ;;
             ret (x1, acc ++ [detach_cpu x1]))
          (countdown (num_timesteps self)) (x, diffusion_sequence) ;;
  ret (snd xs).

Definition sample_diffusion_sequence (self : PointDiTDiffusion)
    (batch_size : Z) (y : option Y) (use_ema : bool) : M G (list T) :=
  if mismatch batch_size y then throw (ValueError mismatch_msg)
  else sample_diffusion_sequence_body self batch_size y use_ema.

(** The strided time steps of DDIM:
    [np.asarray(list(range(0, num_timesteps, c))) + 1] with
    [c = num_timesteps // ddim_timesteps], and the same sequence shifted
    by one with a leading 0. *)
Definition range_msg : string := "range() arg 3 must not be zero".

Definition py_range (stop stride : Z) : result (list Z) :=
  if stride =? 0 then Raise (ValueError range_msg)
  else
    let count :=
      if (0 <? stride) && (0 <? stop) then (stop + stride - 1) / stride
      else if (stride <? 0) && (stop <? 0) then (stop + stride + 1) / stride
      else 0 in
    OK (map (fun k => Z.of_nat k * stride) (seq 0 (Z.to_nat count))).

Definition ddim_schedule (self : PointDiTDiffusion)
    : result (list Z * list Z) :=
  if ddim_timesteps self =? 0 then Raise ZeroDivisionError
  else
    let c := num_timesteps self / ddim_timesteps self in
    r <- py_range (num_timesteps self) c ;;
    let ddim_timestep_seq := map (fun t => t + 1) r in
    let ddim_timestep_prev_seq := 0 :: removelast ddim_timestep_seq in
    OK (ddim_timestep_seq, ddim_timestep_prev_seq).

(** Steps 1 to 6 of one DDIM turn, up to and including [x_prev]. *)
Definition ddim_step (self : PointDiTDiffusion) (batch_size : Z)
    (y : option Y) (use_ema clip_denoised : bool)
    (seqs : list Z * list Z) (x : T) (i : Z) : M G (T * long_tensor) :=
  ti <~ lift (index (fst seqs) i) ;;
  let t := {| lt_batch := batch_size; lt_value := ti |} in
  pi <~ lift (index (snd seqs) i) ;;
  let prev_t := {| lt_batch := batch_size; lt_value := pi |} in
  let alpha_cumprod_t := extract (alphas_cumprod self) t x in
  let alpha_cumprod_t_prev := extract (alphas_cumprod self) prev_t x in
  pred_noise <~ predict self use_ema x t y ;;
  let one := of_Z 1 in
  let pred_x0 :=
    tdiv (tsub x (tmul (tsqrt (trsub one alpha_cumprod_t)) pred_noise))
         (tsqrt alpha_cumprod_t) in
  let pred_x0 :=
    if clip_denoised then tclamp (of_Z (-1)) one pred_x0 else pred_x0 in
  let sigmas_t :=
    tscale (ddim_eta self)
      (tsqrt (tmul (tdiv (trsub one alpha_cumprod_t_prev)
                         (trsub one alpha_cumprod_t))
                   (trsub one (tdiv alpha_cumprod_t alpha_cumprod_t_prev)))) in
  let pred_dir_xt :=
    tmul (tsqrt (tsub (trsub one alpha_cumprod_t_prev) (tsquare sigmas_t)))
         pred_noise in
  z <~ draw_like x ;;
  ret (tadd (tadd (tmul (tsqrt alpha_cumprod_t_prev) pred_x0) pred_dir_xt)
            (tmul sigmas_t z), t).

Definition no_gt_msg : string := "randn_like(): argument must be Tensor".

(** [reversed(range(0, ddim_timesteps))]. *)
Definition ddim_turns (self : PointDiTDiffusion) : list Z :=
  countdown (ddim_timesteps self).

(** [sample_ddim], after the guard: with [fix_indices] the entries at those
    indices are overwritten by the noised ground truth [gt]. *)
Definition sample_ddim_body (self : PointDiTDiffusion) (batch_size : Z)
    (y : option Y) (use_ema clip_denoised : bool) (gt : option T)
    (fix_indices : option (list Z)) : M G T :=
  seqs <~ lift (ddim_schedule self) ;;
  x <~ draw [batch_size; latent_size self; channels self] ;;
  x' <~ for_each
          (fun x0 i =>
             xt <~ ddim_step self batch_size y use_ema clip_denoised
                             seqs x0 i ;;
             let '(x_prev, t) := xt in
             match fix_indices with
             | None => ret x_prev
             | Some idx =>
                 match gt with
                 | None => throw (TypeError no_gt_msg)
                 | Some g =>
                     z <~ draw_like g ;;
                     let t1 := {| lt_batch := lt_batch t;
                                  lt_value := lt_value t - 1 |} in
                     let gt_repaint := perturb_x self g t1 z in
                     ret (tassign x_prev idx gt_repaint)
                 end
             end)
          (ddim_turns self) x ;;
  ret (detach_cpu x').

Definition sample_ddim (self : PointDiTDiffusion) (batch_size : Z)
    (y : option Y) (use_ema clip_denoised : bool) (gt : option T)
    (fix_indices : option (list Z)) : M G T :=
  if mismatch batch_size y then throw (ValueError mismatch_msg)
  else sample_ddim_body self batch_size y use_ema clip_denoised gt
                        fix_indices.

(** [sample_ddim_sequence], after the guard: every state is kept. *)
Definition sample_ddim_sequence_body (self : PointDiTDiffusion)
    (batch_size : Z) (y : option Y) (use_ema clip_denoised : bool)
    : M G (list T) :=
  seqs <~ lift (ddim_schedule self) ;;
  x <~ draw [batch_size; latent_size self; channels self] ;;
  let ans := [x] in
  xs <~ for_each
          (fun '(x0, acc) i =>
             xt <~ ddim_step self batch_size y use_ema clip_denoised
                             seqs x0 i ;;
             ret (fst xt, acc ++ [fst xt]))
          (ddim_turns self) (x, ans) ;;
  ret (snd xs).

Definition sample_ddim_sequence (self : PointDiTDiffusion)
    (batch_size : Z) (y : option Y) (use_ema clip_denoised : bool)
    : M G (list T) :=
  if mismatch batch_size y then throw (ValueError mismatch_msg)
  else sample_ddim_sequence_body self batch_size y use_ema clip_denoised.

End Model.

Arguments PointDiTDiffusion : clear implicits.

End Diffusion.

(** ** Variance schedules *)

Section Schedules.

Context {F : Type} `{Float64 F} `{Libm F}.

(** [a < b] on floats, and Python's [min(a, b)]: the second argument wins
    only when it is smaller. *)
Definition fltb (a b : F) : bool := fleb a b && negb (fleb b a).

Definition py_min (a b : F) : F := if fltb b a then b else a.

(** [generate_linear_schedule(T, low, high)] is [np.linspace(low, high, T)],
    which refuses a negative number of samples. *)
Definition samples_msg : string := "Number of samples must be non-negative".

Definition generate_linear_schedule (T : Z) (low high : F)
    : result (list F) :=
  if T <? 0 then Raise (ValueError samples_msg)
  else OK (linspace low high (Z.to_nat T)).

(** The inner function of [generate_cosine_schedule]:
    [f(t, T) = (np.cos((t / T + s) / (1 + s) * np.pi / 2)) ** 2], with
    [t / T] the true division of two Python integers. *)
Definition cosine_f (s : F) (t T : Z) : F :=
  fpow (fcos (fdiv (fmul (fdiv (fadd (fdiv (of_Z t) (of_Z T)) s)
                               (fadd (of_Z 1) s))
                         fpi)
                   (of_Z 2)))
       (of_Z 2).

(** [generate_cosine_schedule(T, s=0.008)]: [f(0, T)] divides by [T]
    first; then [alphas[t] = f(t, T) / f0] for [t] in [range(T + 1)] and
    [betas[t] = min(1 - alphas[t] / alphas[t - 1], 0.999)] for [t] in
    [range(1, T + 1)]. *)
Definition generate_cosine_schedule (T : Z) (s : F) : result (list F) :=
  if T =? 0 then Raise ZeroDivisionError
  else
    let f0 := cosine_f s 0 T in
    let alphas :=
      map (fun t => fdiv (cosine_f s (Z.of_nat t) T) f0)
          (seq 0 (Z.to_nat (T + 1))) in
    OK (map (fun t =>
               py_min (fsub (of_Z 1)
                            (fdiv (nth t alphas (of_Z 0))
                                  (nth (t - 1) alphas (of_Z 0))))
                      (decimal 999 1000))
            (seq 1 (Z.to_nat T))).

(** The fields of [args] that [generate_schedule] reads; the two bounds
    are Python floats. *)
Record schedule_args : Type := {
  schedule : string;
  args_num_timesteps : Z;
  schedule_low : F;
  schedule_high : F
}.

(** [generate_schedule(args)]: the cosine schedule when asked for by name,
    the linear one otherwise, between
    [schedule_low * 1000 / num_timesteps] and
    [schedule_high * 1000 / num_timesteps]; dividing a Python float by the
    integer 0 raises. *)
Definition generate_schedule (args : schedule_args) : result (list F) :=
  if String.eqb (schedule args) "cosine"
  then generate_cosine_schedule (args_num_timesteps args) (decimal 8 1000)
  else
    if args_num_timesteps args =? 0 then Raise ZeroDivisionError
    else
      let T := of_Z (args_num_timesteps args) in
      generate_linear_schedule
        (args_num_timesteps args)
        (fdiv (fmul (schedule_low args) (of_Z 1000)) T)
        (fdiv (fmul (schedule_high args) (of_Z 1000)) T).

End Schedules.

Arguments schedule_args : clear implicits.

(** ** [EMA] and [update_ema] *)

Section Ema.

Import Diffusion.

(** A network is known by its parameters, a list of tensors. *)
Context {F T Y G : Type} `{Float64 F} `{Torch F T Y (list T) G}.

(** [EMA.update_average(self, old, new)]:
    [old * self.decay + (1 - self.decay) * new], or [new] when there is no
    old value. *)
Definition update_average (decay : F) (old : option T) (new : T) : T :=
  match old with
  | None => new
  | Some o => tadd (tscale decay o) (tscale (fsub (of_Z 1) decay) new)
  end.

(** [EMA.update_model_average(self, ema_model, current_model)]: the
    parameters are walked in pairs, as far as both lists go, and each
    parameter of the EMA model is replaced by its updated average. *)
Fixpoint update_model_average (decay : F) (ema current : list T) : list T :=
  match ema, current with
  | e :: ema', c :: current' =>
      update_average decay (Some e) c
        :: update_model_average decay ema' current'
  | _, _ => ema
  end.

(** The object with two of its attributes reassigned. *)
Definition with_step_and_ema (self : PointDiTDiffusion F T (list T))
    (step_ : Z) (ema_ : list T) : PointDiTDiffusion F T (list T) :=
  {| model := model self;
     ema_model := ema_;
     ema_decay := ema_decay self;
     ema_start := ema_start self;
     ema_update_rate := ema_update_rate self;
     step := step_;
     latent_size := latent_size self;
     channels := channels self;
     loss_type := loss_type self;
     num_timesteps := num_timesteps self;
     ddim_timesteps := ddim_timesteps self;
     ddim_eta := ddim_eta self;
     betas := betas self;
     alphas := alphas self;
     alphas_cumprod := alphas_cumprod self;
     sqrt_alphas_cumprod := sqrt_alphas_cumprod self;
     sqrt_one_minus_alphas_cumprod := sqrt_one_minus_alphas_cumprod self;
     reciprocal_sqrt_alphas := reciprocal_sqrt_alphas self;
     remove_noise_coeff := remove_noise_coeff self;
     sigma := sigma self |}.

(** [update_ema(self)]: the step counter is incremented first; on a step
    that the update rate divides, the EMA model is overwritten by the
    model during warm-up ([load_state_dict] of a network of the same
    architecture) and averaged with it afterwards.  The result is paired
    with the object as the call leaves it, also when the modulo raises. *)
Definition update_ema (self : PointDiTDiffusion F T (list T))
    : result unit * PointDiTDiffusion F T (list T) :=
  let step1 := step self + 1 in
  if ema_update_rate self =? 0
  then (Raise ZeroDivisionError, with_step_and_ema self step1 (ema_model self))
  else if step1 mod ema_update_rate self =? 0
       then if step1 <? ema_start self
            then (OK tt, with_step_and_ema self step1 (model self))
            else (OK tt,
                  with_step_and_ema self step1
                    (update_model_average (ema_decay self) (ema_model self)
                                          (model self)))
       else (OK tt, with_step_and_ema self step1 (ema_model self)).

End Ema.

(** ** The two readings of a [float64] *)

(** *** IEEE binary64 *)

(** A Python [int] as the nearest double (ties to even). *)
Definition float_of_Z (z : Z) : float :=
  SF2Prim (SpecFloat.binary_normalize prec emax z 0 false).

(** The ceiling of a finite double; [np.arange] refuses the others. *)
Definition float_ceil (f : float) : Z :=
  match Prim2SF f with
  | S754_finite s m e =>
      let num := if s then Z.neg m else Z.pos m in
      if 0 <=? e then num * 2 ^ e else - ((- num) / 2 ^ (- e))
  | _ => 0
  end.

#[export] Instance binary64 : Float64 float := {|
  of_Z := float_of_Z;
  fadd := PrimFloat.add;
  fsub := PrimFloat.sub;
  fmul := PrimFloat.mul;
  fdiv := PrimFloat.div;
  fsqrt := PrimFloat.sqrt;
  fleb := PrimFloat.leb;
  fceil := float_ceil;
  fpi := 0x1.921fb54442d18p+1%float
|}.

(** *** Exact arithmetic *)

Definition Rleb (a b : R) : bool := if Rle_dec a b then true else false.

Definition Rceil (x : R) : Z := 1 - up (- x).

(** [x ** y] where it is a real number: a positive base, zero to a
    non-negative power, a negative base to an integral power.  The other
    cases (an infinity or a NaN in numpy) are read as 0, so the basis
    matrix of this reading is the program's for stations within [[0, 1]]
    only; on the others the program's matrix holds a NaN, on which
    [lstsq] raises. *)
Definition Rpow (x y : R) : R :=
  if Rlt_dec 0 x then Rpower x y
  else if Req_dec_T x 0 then (if Req_dec_T y 0 then 1%R else 0%R)
  else if Req_dec_T y (IZR (Rceil y)) then powerRZ x (Rceil y)
  else 0%R.

(** Exact arithmetic has no value for a quotient by zero, where numpy
    gives an infinity or a NaN: [Rdiv] is total, and what it gives there
    says only that the computation goes on, not what it yields. *)
#[export] Instance exact : Float64 R := {|
  of_Z := IZR;
  fadd := Rplus;
  fsub := Rminus;
  fmul := Rmult;
  fdiv := Rdiv;
  fsqrt := R_sqrt.sqrt;
  fleb := Rleb;
  fceil := Rceil;
  fpi := PI
|}.

#[export] Instance exact_libm : Libm R := {|
  fpow := Rpow;
  fatan := atan;
  fcos := cos
|}.

(** *** Exact solvers *)

(** Over the reals a least-squares solution exists for every system (it
    is proved below), and [lstsq] is one of them. *)
Definition lstsq_real (A : list (list R)) (b : list R) : list R :=
  epsilon (inhabits []) (least_squares A b).

(** A run of the simplex search that stops where it started, as one with
    its iteration budget used up does; [converged] is the flag it
    reports. *)
Definition halted_at_start {F : Type} `{Float64 F} (converged : bool)
    (f : list F -> result F) (x0 : list F) : OptimizeResult F :=
  {| res_x := x0;
     res_fun := match f x0 with OK v => v | Raise _ => of_Z 0 end;
     res_success := converged;
     res_nit := 0 |}.

#[export] Instance exact_solvers : Solvers R := {|
  lstsq := fun A b => OK (lstsq_real A b);
  minimize := halted_at_start false
|}.

(** A solver on which the SVD never converges. *)
Definition svd_msg : string := "SVD did not converge in Linear Least Squares".

Definition diverging : Solvers R :=
  {| lstsq := fun _ _ => Raise (LinAlgError svd_msg);
     minimize := halted_at_start false |}.

(** The same solvers with the convergence flag of every [minimize] result
    overwritten. *)
Definition set_success {F : Type} (flag : bool) (r : OptimizeResult F)
    : OptimizeResult F :=
  {| res_x := res_x r;
     res_fun := res_fun r;
     res_success := flag;
     res_nit := res_nit r |}.

Definition reporting {F : Type} (flag : bool) (S : Solvers F) : Solvers F :=
  {| lstsq := @lstsq F S;
     minimize := fun f x0 => set_success flag (@minimize F S f x0) |}.

(** ** Sample inputs *)

(** A diamond-shaped section of 257 points, upper trailing edge to leading
    edge to lower trailing edge: [x = |i - 128| / 128] and
    [y = -+ x (1 - x) / 5 +- x / 100]. *)
Definition diamond_point (i : nat) : R * R :=
  let j := Z.of_nat i - 128 in
  let x := (IZR (Z.abs j) / 128)%R in
  (x, (IZR (- Z.sgn j) * (x * (1 - x) / 5 + x / 100))%R).

Definition diamond : list (R * R) := map diamond_point (seq 0 257).

(** The diamond with its lower surface sampled at other stations: the
    lower x-grid no longer matches the upper one. *)
Definition skewed_point (i : nat) : R * R :=
  let j := Z.of_nat i - 128 in
  if 2 <? j
  then ((IZR j / 128) * (IZR j / 128), snd (diamond_point i))%R
  else diamond_point i.

Definition skewed_diamond : list (R * R) := map skewed_point (seq 0 257).

(** Only the upper surface: 129 points. *)
Definition upper_only : list (R * R) := firstn 129 diamond.

(** Two points one above the other, in binary64 and in exact
    arithmetic. *)
Definition vertical_pair : list (float * float) :=
  [(1, 0.5); (1, 0.25)]%float.

Definition vertical_pair_real : list (R * R) :=
  [(1, 1 / 2); (1, 1 / 4)]%R.

(** The diamond with its second point moved straight above the first:
    the first two points share their x-coordinate. *)
Definition blunt_diamond : list (R * R) :=
  (1, 1 / 100)%R :: (1, 3 / 100)%R :: skipn 2 diamond.

Definition diamond_layer : CSTLayer R :=
  CSTLayer_12 (rev (slice_to 129 (map fst diamond))).

Definition diamond_ordinates : list R := map snd diamond.

(** A small torch for concrete runs: flat tensors of reals, a generator
    that counts its draws and returns zero noise, and the identity
    network. *)
#[export] Instance flat_torch : Diffusion.Torch R (list R) (list R) unit nat := {|
  Diffusion.to_torch := fun a => a;
  Diffusion.randn := fun shape g =>
    (repeat 0%R (Z.to_nat (fold_right Z.mul 1 shape)), S g);
  Diffusion.randn_like := fun x g => (map (fun _ => 0%R) x, S g);
  Diffusion.apply_net := fun _ x _ _ => x;
  Diffusion.len_y := fun y => Z.of_nat (length y);
  Diffusion.gather := fun a t x =>
    map (fun _ => nth (Z.to_nat (Diffusion.lt_value t)) a 0%R) x;
  Diffusion.tadd := zip_with Rplus;
  Diffusion.tsub := zip_with Rminus;
  Diffusion.tmul := zip_with Rmult;
  Diffusion.tdiv := zip_with Rdiv;
  Diffusion.tsqrt := map R_sqrt.sqrt;
  Diffusion.tsquare := map (fun u => (u * u)%R);
  Diffusion.tclamp := fun lo hi => map (fun u => Rmax lo (Rmin hi u));
  Diffusion.trsub := fun c => map (fun u => (c - u)%R);
  Diffusion.tscale := fun c => map (Rmult c);
  Diffusion.tassign := fun x idx g =>
    map (fun i => if existsb (Z.eqb (Z.of_nat i)) idx
                  then nth i g 0%R else nth i x 0%R)
        (seq 0 (length x));
  Diffusion.detach_cpu := fun x => x
|}.

(** A linear schedule of four steps, and a fresh world. *)
Definition four_betas : list R := [1 / 10; 2 / 10; 3 / 10; 4 / 10]%R.

Definition fresh : Diffusion.world nat :=
  {| Diffusion.gen := O; Diffusion.log := [] |}.

(** Flat tensors of reals again, for a network that is known by its
    parameters: it adds them to its input. *)
Definition param_torch
    : Diffusion.Torch R (list R) (list R) (list (list R)) nat := {|
  Diffusion.to_torch := fun a => a;
  Diffusion.randn := fun shape g =>
    (repeat 0%R (Z.to_nat (fold_right Z.mul 1 shape)), S g);
  Diffusion.randn_like := fun x g => (map (fun _ => 0%R) x, S g);
  Diffusion.apply_net := fun params x _ _ =>
    fold_left (zip_with Rplus) params x;
  Diffusion.len_y := fun y => Z.of_nat (length y);
  Diffusion.gather := fun a t x =>
    map (fun _ => nth (Z.to_nat (Diffusion.lt_value t)) a 0%R) x;
  Diffusion.tadd := zip_with Rplus;
  Diffusion.tsub := zip_with Rminus;
  Diffusion.tmul := zip_with Rmult;
  Diffusion.tdiv := zip_with Rdiv;
  Diffusion.tsqrt := map R_sqrt.sqrt;
  Diffusion.tsquare := map (fun u => (u * u)%R);
  Diffusion.tclamp := fun lo hi => map (fun u => Rmax lo (Rmin hi u));
  Diffusion.trsub := fun c => map (fun u => (c - u)%R);
  Diffusion.tscale := fun c => map (Rmult c);
  Diffusion.tassign := fun x idx g =>
    map (fun i => if existsb (Z.eqb (Z.of_nat i)) idx
                  then nth i g 0%R else nth i x 0%R)
        (seq 0 (length x));
  Diffusion.detach_cpu := fun x => x
|}.

(** A linear schedule of a hundred steps, from 0.0002 to 0.02. *)
Definition hundred_betas : list R :=
  map (fun i => (IZR (Z.of_nat i + 1) / 5000)%R) (seq 0 100).

(** Three stations and six ordinates, one more than a closed loop over
    them has. *)
Definition three_stations : CSTLayer R :=
  CSTLayer_init (Some [0; 1 / 2; 1]%R) 2 129 (1 / 2)%R 1%R.

Definition six_ordinates : list R := [1; 2; 3; 4; 5; 6]%R.

(** * Notions used in the statements and proofs *)

Section Notions.

Context {F : Type} `{Float64 F} `{Libm F} `{Solvers F}.

(** What the constructor establishes: the station count is the number of
    stations. *)
Definition consistent (self : CSTLayer F) : Prop :=
  n_x self = length (x_coords self).

(** The three fit methods share their first lines, the split into the
    two surfaces and the read of the two trailing-edge ordinates; what
    differs is which of the two solves follows. *)
Definition surfaces (y_coords : list F) (nx : Z) : list F * list F :=
  (rev (slice_to nx y_coords), slice_from (nx - 1) y_coords).

Definition trailing_edge (y_coords : list F) (nx : Z) : result (F * F) :=
  yu_te <- index (fst (surfaces y_coords nx)) (-1) ;;
  yl_te <- index (snd (surfaces y_coords nx)) (-1) ;;
  OK (yu_te, yl_te).

Definition solve_surface (self : CSTLayer F) (ys : list F) (y_te : F)
    : result (list F) :=
  b <- broadcast fsub ys (scale (x_coords self) y_te) ;;
  np_lstsq (A0_matrix self) b.

(** The dense curves, in closed form. *)
Definition dense_upper (x2 au : list F) (te : F) : list F :=
  zip_with fadd (map (fun row => fdot row au) (A0_matrix (CSTLayer_12 x2)))
           (scale x2 te).

Definition dense_lower (x2 al : list F) (te : F) : list F :=
  zip_with fsub (map (fun row => fdot row al) (A0_matrix (CSTLayer_12 x2)))
           (scale x2 te).

(** What [get_parsec_n15] returns after a fit [(au, al, te)] and an
    angle: [v] is the list of the 15 features in the order of the source,
    each the result of the computation of that name. *)
Definition layout (data : list (F * F)) (angle : F) (au al : list F)
    (te : F) (v : list F) : Prop :=
  exists yu yl t4u t25u t60u t4l t25l t60l,
  exists yumax ylmax iu xumax il xlmax yr ir xr,
  exists xc yc rf,
    reconstruct dense_grid au al te = OK (yu, yl) /\
    index yu 400 = OK t4u /\ index yu 2500 = OK t25u /\
    index yu 6000 = OK t60u /\
    index yl 400 = OK t4l /\ index yl 2500 = OK t25l /\
    index yl 6000 = OK t60l /\
    np_max yu = OK yumax /\ np_min yl = OK ylmax /\
    np_argmax yu = OK iu /\ index dense_grid (Z.of_nat iu) = OK xumax /\
    np_argmin yl = OK il /\ index dense_grid (Z.of_nat il) = OK xlmax /\
    np_max yl = OK yr /\
    np_argmax yl = OK ir /\ index dense_grid (Z.of_nat ir) = OK xr /\
    res_x (leading_edge_circle data) = [xc; yc; rf] /\
    v = [rf; t4u; t4l; xumax; yumax; xlmax; ylmax; t25u; t25l; angle; te;
         xr; yr; t60u; t60l].

(** The fit that [get_parsec_n15] runs on [data]. *)
Definition fit_of (data : list (F * F))
    : result (list F * list F * F) :=
  fit_CST (CSTLayer_12 (rev (slice_to 129 (map fst data))))
          (map snd data) 129.

(** The first of its two solves, the one for the upper surface (line 83
    of the source). *)
Definition upper_solve (data : list (F * F)) : result (list F) :=
  let x := rev (slice_to 129 (map fst data)) in
  let yu := rev (slice_to 129 (map snd data)) in
  lstsq (A0_matrix (CSTLayer_12 x))
        (zip_with fsub yu (scale x (last yu (of_Z 0)))).

End Notions.

(** The length of an array and its entries at some indices. *)
Definition sample_points {F : Type} `{Float64 F} (g : list F)
    (indices : list Z) : nat * list F :=
  (length g, map (fun i => nth (Z.to_nat i) g (of_Z 0)) indices).

(** Case analysis on the first computation of a chain of binds. *)
Ltac first_bind :=
  match goal with
  | |- context [bind ?m _] =>
      match m with
      | context [bind _ _] => fail 1
      | _ => destruct m as [? | ?]; cbn [bind]; try reflexivity
      end
  end.

(** ** Systems of linear equations over the reals *)

Section RealSystems.

Local Open Scope R_scope.

(** The sum of [f] over a list. *)
Fixpoint sumf {X : Type} (f : X -> R) (l : list X) : R :=
  match l with
  | [] => 0
  | x :: l' => f x + sumf f l'
  end.

(** The squared error of one equation [(row, b)] at the unknowns [a]. *)
Definition sq_error (a : list R) (e : list R * R) : R :=
  (fdot (fst e) a - snd e) * (fdot (fst e) a - snd e).

(** Sum and multiple of vectors. *)
Definition vadd (u v : list R) : list R := zip_with Rplus u v.

Definition vscale (k : R) (u : list R) : list R := map (Rmult k) u.

(** An equation [(row, b)] of a system in [S n] unknowns: the coefficient
    of the first unknown, and what is left of the equation once the other
    unknowns are fixed at [a]. *)
Definition lead (e : list R * R) : R := hd 0 (fst e).

Definition rest (a : list R) (e : list R * R) : R :=
  fdot (tl (fst e)) a - snd e.

(** The combination [sum_e lead(e) * tail(e)] of the tails of the rows. *)
Fixpoint vcomb (n : nat) (E : list (list R * R)) : list R :=
  match E with
  | [] => repeat 0 n
  | e :: E' => vadd (vscale (lead e) (tl (fst e))) (vcomb n E')
  end.

(** A system all of whose equations have [n] coefficients. *)
Definition rows_of (n : nat) (E : list (list R * R)) : Prop :=
  Forall (fun e => length (fst e) = n) E.

(** Eliminating the first unknown: each equation loses its multiple of
    the combined equation. *)
Definition reduce_by (cc B : R) (Rv : list R) (e : list R * R)
    : list R * R :=
  (vadd (tl (fst e)) (vscale (- (lead e / cc)) Rv), snd e - lead e / cc * B).

Definition reduce (n : nat) (E : list (list R * R)) : list (list R * R) :=
  map (reduce_by (sumf (fun e => lead e * lead e) E)
                 (sumf (fun e => lead e * snd e) E)
                 (vcomb n E)) E.

(** The squared 2-norm of the residual of the system [E] at [a]. *)
Definition total_error (E : list (list R * R)) (a : list R) : R :=
  sumf (sq_error a) E.

End RealSystems.

(** ** The effects of a sampling run *)

(** What one turn of the ancestral loop at time [t] logs: a call of the
    network, and a draw of noise unless [t = 0]; and the log of a whole
    run of [sample] over [T] time steps. *)
Definition step_events (use_ema : bool) (t : Z) : list Diffusion.event :=
  Diffusion.Forward use_ema t
    :: (if 0 <? t then [Diffusion.DrawnLike] else []).

Definition sample_events (shape : list Z) (use_ema : bool) (T : Z)
    : list Diffusion.event :=
  Diffusion.Drawn shape
    :: flat_map (step_events use_ema) (Diffusion.countdown T).

(** [n] calls of [update_ema] in a row, the model left alone between
    them and an exception of a call caught by the caller. *)
Fixpoint update_ema_times {F T Y G : Type} `{Float64 F}
    `{Diffusion.Torch F T Y (list T) G} (n : nat)
    (self : Diffusion.PointDiTDiffusion F T (list T))
    : Diffusion.PointDiTDiffusion F T (list T) :=
  match n with
  | O => self
  | S k => update_ema_times k (snd (update_ema self))
  end.

(** What one turn of the DDIM loop at time step [t] logs: a call of the
    network, a draw of noise, and when repainting a second draw, for the
    ground truth; and the log of a whole run of [sample_ddim] with stride
    [c] over [turns] turns. *)
Definition ddim_turn_events (use_ema repaint : bool) (t : Z)
    : list Diffusion.event :=
  Diffusion.Forward use_ema t :: Diffusion.DrawnLike
    :: (if repaint then [Diffusion.DrawnLike] else []).

Definition ddim_events (shape : list Z) (use_ema repaint : bool)
    (c turns : Z) : list Diffusion.event :=
  Diffusion.Drawn shape
    :: flat_map (fun i => ddim_turn_events use_ema repaint (i * c + 1))
                (Diffusion.countdown turns).

(** Whether [sample_ddim] repaints: [fix_indices is not None]. *)
Definition repaints (fix_indices : option (list Z)) : bool :=
  match fix_indices with Some _ => true | None => false end.

(** Parameter lists of the same architecture: as many tensors, each of
    the same size. *)
Definition same_shapes (a b : list (list R)) : Prop :=
  Forall2 (fun u v => length u = length v) a b.

(** * Properties *)

(** ** The error monad *)

Lemma bind_OK {A B : Type} (m : result A) (k : A -> result B) (b : B) :
  bind m k = OK b -> exists a, m = OK a /\ k a = OK b.
Proof. destruct m as [a | e]; [now exists a | discriminate]. Qed.

(** ** Arrays *)

Section ArrayFacts.

Context {A : Type}.

Lemma slice_to_nonneg (n : Z) (a : list A) :
  0 <= n -> slice_to n a = firstn (Z.to_nat n) a.
Proof.
  intros Hn. unfold slice_to.
  destruct (n <? 0) eqn:E; [apply Z.ltb_lt in E; lia | reflexivity].
Qed.

Lemma slice_from_nonneg (n : Z) (a : list A) :
  0 <= n -> slice_from n a = skipn (Z.to_nat n) a.
Proof.
  intros Hn. unfold slice_from.
  destruct (n <? 0) eqn:E; [apply Z.ltb_lt in E; lia | reflexivity].
Qed.

Lemma index_in_range (a : list A) (i : Z) (d : A) :
  0 <= i < Z.of_nat (length a) -> index a i = OK (nth (Z.to_nat i) a d).
Proof.
  intros Hi. unfold index.
  destruct (i <? 0) eqn:E; [apply Z.ltb_lt in E; lia |].
  rewrite E.
  destruct (nth_error a (Z.to_nat i)) eqn:N.
  - f_equal. symmetry. now apply nth_error_nth.
  - apply nth_error_None in N. lia.
Qed.

Lemma index_past_end (a : list A) (i : Z) :
  Z.of_nat (length a) <= i -> index a i = Raise IndexError.
Proof.
  intros Hi. unfold index.
  destruct (i <? 0) eqn:E; [apply Z.ltb_lt in E; lia |].
  rewrite E.
  destruct (nth_error a (Z.to_nat i)) eqn:N; [| reflexivity].
  assert (nth_error a (Z.to_nat i) <> None) as K by congruence.
  apply nth_error_Some in K. lia.
Qed.

Lemma nth_length_pred (a : list A) (d : A) :
  a <> [] -> nth (length a - 1) a d = last a d.
Proof.
  intros Ha. rewrite (app_removelast_last d Ha) at 1 2.
  rewrite length_app. cbn [length].
  replace (length (removelast a) + 1 - 1)%nat
    with (length (removelast a)) by lia.
  rewrite nth_middle.
  rewrite (app_removelast_last d Ha) at 1. now rewrite last_last.
Qed.

Lemma index_last_nonempty (a : list A) (d : A) :
  a <> [] -> index a (-1) = OK (last a d).
Proof.
  intros Ha. unfold index. cbn [Z.ltb Z.compare].
  assert (0 < length a)%nat as L by (destruct a; [congruence | cbn; lia]).
  destruct (Z.of_nat (length a) + -1 <? 0) eqn:E;
    [apply Z.ltb_lt in E; lia |].
  replace (Z.to_nat (Z.of_nat (length a) + -1)) with (length a - 1)%nat
    by lia.
  destruct (nth_error a (length a - 1)) eqn:N.
  - f_equal. apply nth_error_nth with (d := d) in N.
    rewrite <- N. now apply nth_length_pred.
  - apply nth_error_None in N. lia.
Qed.

Lemma index_last_empty : index (@nil A) (-1) = Raise IndexError.
Proof. reflexivity. Qed.

Lemma zip_with_length (op : A -> A -> A) (a b : list A) :
  length a = length b -> length (zip_with op a b) = length a.
Proof.
  revert b. induction a as [| u a IH]; intros [| v b] E; cbn in *;
    try congruence.
  f_equal. apply IH. congruence.
Qed.

End ArrayFacts.

Section NumpyFacts.

Context {F : Type} `{Float64 F}.

Lemma scale_length (a : list F) (s : F) : length (scale a s) = length a.
Proof. unfold scale. apply length_map. Qed.

Lemma broadcast_same (op : F -> F -> F) (a b : list F) :
  length a = length b -> broadcast op a b = OK (zip_with op a b).
Proof.
  intros E. unfold broadcast. rewrite E, Nat.eqb_refl. reflexivity.
Qed.

Lemma broadcast_left_scalar (op : F -> F -> F) (u : F) (b : list F) :
  length b <> 1%nat -> broadcast op [u] b = OK (map (op u) b).
Proof.
  intros E. unfold broadcast.
  destruct (length [u] =? length b)%nat eqn:K; [| reflexivity].
  apply Nat.eqb_eq in K. cbn in K. congruence.
Qed.

Lemma broadcast_mismatch (op : F -> F -> F) (a b : list F) :
  length a <> length b -> (1 < length a)%nat -> (1 < length b)%nat ->
  broadcast op a b = Raise (ValueError broadcast_msg).
Proof.
  intros E La Lb. unfold broadcast.
  destruct (length a =? length b)%nat eqn:K;
    [apply Nat.eqb_eq in K; congruence |].
  destruct a as [| u [| u' a]]; cbn in La; try lia.
  destruct b as [| v [| v' b]]; cbn in Lb; try lia.
  reflexivity.
Qed.

Lemma transpose_length (m : nat) (rows : list (list F)) :
  length (transpose m rows) = m.
Proof. unfold transpose. now rewrite length_map, length_seq. Qed.

Lemma transpose_rows (m : nat) (rows : list (list F)) :
  Forall (fun row => length row = length rows) (transpose m rows).
Proof.
  unfold transpose. apply Forall_forall. intros row Hin.
  apply in_map_iff in Hin. destruct Hin as (i & <- & _).
  apply length_map.
Qed.

Lemma transpose_entry (m : nat) (rows : list (list F)) (i r : nat) :
  (i < m)%nat -> (r < length rows)%nat ->
  nth r (nth i (transpose m rows) []) (of_Z 0) =
  nth i (nth r rows []) (of_Z 0).
Proof.
  intros Hi Hr. unfold transpose.
  rewrite nth_indep with (d' := map (fun row => nth 0 row (of_Z 0)) rows)
    by now rewrite length_map, length_seq.
  rewrite (map_nth (fun i => map (fun row => nth i row (of_Z 0)) rows)
                   (seq 0 m) 0%nat i).
  rewrite seq_nth by assumption. cbn [Nat.add].
  rewrite nth_indep with (d' := (fun row => nth i row (of_Z 0)) [])
    by now rewrite length_map.
  now rewrite (map_nth (fun row => nth i row (of_Z 0)) rows [] r).
Qed.

End NumpyFacts.

(** ** The basis matrix *)

Section BasisFacts.

Context {F : Type} `{Float64 F} `{Libm F}.

Lemma linspace_length (a b : F) (m : nat) : length (linspace a b m) = m.
Proof. unfold linspace. now rewrite length_map, length_seq. Qed.

Lemma CSTLayer_init_consistent (xs : option (list F)) (n nx : nat)
    (e1 e2 : F) :
  consistent (CSTLayer_init xs n nx e1 e2).
Proof.
  unfold consistent. destruct xs as [x |]; cbn; [reflexivity |].
  now rewrite length_map, linspace_length.
Qed.

Lemma CSTLayer_init_A0 (xs : option (list F)) (n nx : nat) (e1 e2 : F) :
  let self := CSTLayer_init xs n nx e1 e2 in A0 self = A0_matrix self.
Proof. destruct xs; reflexivity. Qed.

Lemma A0_matrix_length (self : CSTLayer F) :
  length (A0_matrix self) = n_x self.
Proof. unfold A0_matrix. apply transpose_length. Qed.

Lemma A0_matrix_rows (self : CSTLayer F) :
  Forall (fun row => length row = (n_cst self + 1)%nat) (A0_matrix self).
Proof.
  unfold A0_matrix.
  eapply Forall_impl; [| apply transpose_rows].
  intros row E. cbn beta in E. now rewrite E, length_map, length_seq.
Qed.

Lemma A0_matrix_ncols (self : CSTLayer F) :
  (0 < n_x self)%nat -> ncols (A0_matrix self) = (n_cst self + 1)%nat.
Proof.
  intros Hx. pose proof (A0_matrix_rows self) as R.
  pose proof (A0_matrix_length self) as L.
  unfold ncols. destruct (A0_matrix self) as [| row A]; cbn in *; [lia |].
  now inversion R.
Qed.

Lemma A0_matrix_rectangular (self : CSTLayer F) (b : list F) :
  length b = n_x self -> rectangular (A0_matrix self) b.
Proof.
  intros Hb. split; [now rewrite A0_matrix_length |].
  destruct (n_x self) as [| k] eqn:E.
  - pose proof (A0_matrix_length self) as L. rewrite E in L.
    destruct (A0_matrix self); [constructor | discriminate].
  - rewrite A0_matrix_ncols by lia. apply A0_matrix_rows.
Qed.

Lemma A0_matrix_entry (self : CSTLayer F) (i r : nat) :
  consistent self -> (i < n_x self)%nat -> (r <= n_cst self)%nat ->
  nth r (nth i (A0_matrix self) []) (of_Z 0) =
  basis_entry (n_cst self) (n1 self) (n2 self) r
              (nth i (x_coords self) (of_Z 0)).
Proof.
  intros C Hi Hr. unfold A0_matrix.
  rewrite transpose_entry; [| assumption | rewrite length_map, length_seq; lia].
  set (row := fun r => map (basis_entry (n_cst self) (n1 self) (n2 self) r)
                           (x_coords self)).
  rewrite nth_indep with (d' := row 0%nat)
    by (rewrite length_map, length_seq; lia).
  rewrite (map_nth row (seq 0 (n_cst self + 1)) 0%nat r).
  rewrite seq_nth by lia. cbn [Nat.add]. unfold row.
  rewrite nth_indep
    with (d' := basis_entry (n_cst self) (n1 self) (n2 self) r (of_Z 0))
    by (rewrite length_map; unfold consistent in C; lia).
  apply map_nth.
Qed.

End BasisFacts.

(** In exact arithmetic the factorial ratio of the source is the binomial
    coefficient. *)
Lemma fact_Z_fact (n : nat) : fact_Z n = Z.of_nat (fact n).
Proof.
  induction n as [| n IH]; [reflexivity |].
  change (fact_Z (S n)) with (Z.of_nat (S n) * fact_Z n).
  change (fact (S n)) with (S n * fact n)%nat.
  rewrite IH. now rewrite Nat2Z.inj_mul.
Qed.

Lemma factorial_real (n : nat) : factorial (F := R) n = INR (fact n).
Proof.
  unfold factorial. cbn [of_Z exact].
  now rewrite fact_Z_fact, <- INR_IZR_INZ.
Qed.

Lemma binomial_weight_real (n r : nat) :
  binomial_weight (F := R) n r =
  (INR (fact n) / (INR (fact r) * INR (fact (n - r))))%R.
Proof.
  unfold binomial_weight. rewrite !factorial_real. cbn [fdiv exact].
  field. split; apply INR_fact_neq_0.
Qed.

(** C2. [CSTLayer.A0_matrix]: for every station vector [x], degree [n] and
    shape exponents [n1], [n2], the basis matrix has [len(x)] rows of
    [n + 1] entries, and its entry at row [i], column [r] is
    [k[r] * x_i ** (n1 + r) * (1 - x_i) ** (n + n2 - r)] with the weight
    [k[r] = n! / r! / (n - r)!] computed as a factorial ratio.  In exact
    arithmetic that ratio is the binomial coefficient
    [n! / (r! (n - r)!)]; in binary64 at the degree the program uses, 12,
    it is the binomial coefficient too, with no rounding. *)
Theorem A0_matrix_is_the_weighted_bernstein_basis :
  (forall (F : Type) (HF : Float64 F) (HL : Libm F)
          (x : list F) (n nx : nat) (e1 e2 : F),
      let self := CSTLayer_init (Some x) n nx e1 e2 in
      A0 self = A0_matrix self /\
      length (A0_matrix self) = length x /\
      Forall (fun row => length row = (n + 1)%nat) (A0_matrix self) /\
      forall i r, (i < length x)%nat -> (r <= n)%nat ->
        nth r (nth i (A0_matrix self) []) (of_Z 0) =
        fmul (fmul (fdiv (fdiv (factorial n) (factorial r))
                         (factorial (n - r)))
                   (fpow (nth i x (of_Z 0)) (fadd e1 (of_Z (Z.of_nat r)))))
             (fpow (fsub (of_Z 1) (nth i x (of_Z 0)))
                   (fsub (fadd (of_Z (Z.of_nat n)) e2)
                         (of_Z (Z.of_nat r))))) /\
  (forall n r, (r <= n)%nat ->
      binomial_weight (F := R) n r = Binomial.C n r) /\
  map (binomial_weight (F := float) 12) (seq 0 13) =
  [1; 12; 66; 220; 495; 792; 924; 792; 495; 220; 66; 12; 1]%float.
Proof.
  split; [| split].
  - intros F HF HL x n nx e1 e2 self.
    assert (consistent self) as C by apply CSTLayer_init_consistent.
    split; [apply (CSTLayer_init_A0 (Some x)) |].
    split; [apply A0_matrix_length |].
    split; [apply (A0_matrix_rows self) |].
    intros i r Hi Hr.
    now rewrite A0_matrix_entry by (cbn; assumption).
  - intros n r _. rewrite binomial_weight_real. reflexivity.
  - vm_compute. reflexivity.
Qed.

(** ** The fit *)

Section FitFacts.

Context {F : Type} `{Float64 F} `{Libm F} `{Solvers F}.

Lemma np_lstsq_fits (A : list (list F)) (b : list F) :
  length A = length b -> np_lstsq A b = lstsq A b.
Proof. intros E. unfold np_lstsq. now rewrite E, Nat.eqb_refl. Qed.

Lemma fit_CST_stages (self : CSTLayer F) (y : list F) (nx : Z) :
  fit_CST self y nx =
  ('(yu_te, yl_te) <- trailing_edge y nx ;;
   au <- solve_surface self (fst (surfaces y nx)) yu_te ;;
   al <- solve_surface self (snd (surfaces y nx)) yl_te ;;
   OK (au, al, fdiv (fsub yu_te yl_te) (of_Z 2))).
Proof.
  unfold fit_CST, trailing_edge, solve_surface, surfaces. cbn [fst snd].
  repeat first_bind.
Qed.

Lemma fit_CST_up_stages (self : CSTLayer F) (y : list F) (nx : Z) :
  fit_CST_up self y nx =
  ('(yu_te, yl_te) <- trailing_edge y nx ;;
   au <- solve_surface self (fst (surfaces y nx)) yu_te ;;
   OK (au, fdiv (fsub yu_te yl_te) (of_Z 2))).
Proof.
  unfold fit_CST_up, trailing_edge, solve_surface, surfaces. cbn [fst snd].
  repeat first_bind.
Qed.

Lemma fit_CST_low_stages (self : CSTLayer F) (y : list F) (nx : Z) :
  fit_CST_low self y nx =
  ('(yu_te, yl_te) <- trailing_edge y nx ;;
   al <- solve_surface self (snd (surfaces y nx)) yl_te ;;
   OK (al, fdiv (fsub yu_te yl_te) (of_Z 2))).
Proof.
  unfold fit_CST_low, trailing_edge, solve_surface, surfaces. cbn [fst snd].
  repeat first_bind.
Qed.

(** C9. The three fit modes compute identical math: whenever the joint
    fit [fit_CST] returns [(au, al, te)], [fit_CST_up] returns exactly
    [(au, te)] and [fit_CST_low] returns exactly [(al, te)], which is what
    one fitting routine with fewer outputs would return; and the joint
    fit is the upper fit followed by the lower fit, error for error. *)
Theorem fit_modes_compute_identical_math :
  forall (self : CSTLayer F) (y_coords : list F) (nx : Z),
    (forall au al te,
        fit_CST self y_coords nx = OK (au, al, te) ->
        fit_CST_up self y_coords nx = OK (au, te) /\
        fit_CST_low self y_coords nx = OK (al, te) /\
        fit_CST_up self y_coords nx = fit_up_of_joint self y_coords nx /\
        fit_CST_low self y_coords nx = fit_low_of_joint self y_coords nx) /\
    fit_CST self y_coords nx =
    ('(au, te) <- fit_CST_up self y_coords nx ;;
     '(al, _) <- fit_CST_low self y_coords nx ;;
     OK (au, al, te)).
Proof.
  intros self y nx.
  unfold fit_up_of_joint, fit_low_of_joint.
  rewrite fit_CST_stages, fit_CST_up_stages, fit_CST_low_stages.
  destruct (trailing_edge y nx) as [[yu_te yl_te] |]; cbn [bind].
  - destruct (solve_surface self (fst (surfaces y nx)) yu_te) as [au |];
      cbn [bind].
    + destruct (solve_surface self (snd (surfaces y nx)) yl_te) as [al |];
        cbn [bind].
      * split; [| reflexivity].
        intros au' al' te' E. inversion E; subst. repeat split.
      * split; [| reflexivity]. intros au' al' te' E. discriminate.
    + split; [| reflexivity]. intros au' al' te' E. discriminate.
  - split; [| reflexivity]. intros au' al' te' E. discriminate.
Qed.

(** On a closed loop of [2 n_x - 1] ordinates over [n_x] stations every
    line of [fit_CST] but the two solves succeeds. *)
Lemma surfaces_of_loop (y : list F) (nx : Z) :
  Z.of_nat (length y) = 2 * nx - 1 ->
  surfaces y nx = (rev (firstn (Z.to_nat nx) y),
                   skipn (Z.to_nat nx - 1) y) /\
  length (rev (firstn (Z.to_nat nx) y)) = Z.to_nat nx /\
  length (skipn (Z.to_nat nx - 1) y) = Z.to_nat nx /\
  (0 < Z.to_nat nx)%nat.
Proof.
  intros L. unfold surfaces.
  rewrite slice_to_nonneg, slice_from_nonneg by lia.
  replace (Z.to_nat (nx - 1)) with (Z.to_nat nx - 1)%nat by lia.
  repeat split.
  - rewrite length_rev, length_firstn. lia.
  - rewrite length_skipn. lia.
  - lia.
Qed.

Lemma fit_CST_on_loop (self : CSTLayer F) (y : list F) (nx : Z) :
  consistent self ->
  Z.of_nat (length y) = 2 * nx - 1 ->
  Z.of_nat (n_x self) = nx ->
  let yu := rev (firstn (Z.to_nat nx) y) in
  let yl := skipn (Z.to_nat nx - 1) y in
  let yu_te := last yu (of_Z 0) in
  let yl_te := last yl (of_Z 0) in
  let bu := zip_with fsub yu (scale (x_coords self) yu_te) in
  let bl := zip_with fsub yl (scale (x_coords self) yl_te) in
  index yu (-1) = OK yu_te /\
  index yl (-1) = OK yl_te /\
  length bu = n_x self /\
  length bl = n_x self /\
  fit_CST self y nx =
  (au <- lstsq (A0_matrix self) bu ;;
   al <- lstsq (A0_matrix self) bl ;;
   OK (au, al, fdiv (fsub yu_te yl_te) (of_Z 2))).
Proof.
  intros C L N yu yl yu_te yl_te bu bl.
  destruct (surfaces_of_loop y nx L) as (S & Lu & Ll & Pos).
  fold yu in S, Lu. fold yl in S, Ll.
  assert (index yu (-1) = OK yu_te) as Iu
    by (apply index_last_nonempty; intros E; rewrite E in Lu; cbn in Lu; lia).
  assert (index yl (-1) = OK yl_te) as Il
    by (apply index_last_nonempty; intros E; rewrite E in Ll; cbn in Ll; lia).
  unfold consistent in C.
  assert (length bu = n_x self) as Bu
    by (unfold bu; rewrite zip_with_length; rewrite ?scale_length; lia).
  assert (length bl = n_x self) as Bl
    by (unfold bl; rewrite zip_with_length; rewrite ?scale_length; lia).
  repeat (split; [assumption |]).
  rewrite fit_CST_stages. unfold trailing_edge, solve_surface.
  rewrite S. cbn [fst snd]. rewrite Iu, Il. cbn [bind].
  rewrite !broadcast_same by (rewrite scale_length; lia).
  cbn [bind]. fold bu bl.
  rewrite !np_lstsq_fits by (rewrite A0_matrix_length; lia).
  reflexivity.
Qed.

(** What a chain of two solves returns, when it returns. *)
Lemma two_solves_return (A : list (list F)) (bu bl : list F) (te0 : F)
    (au al : list F) (te : F) :
  (au' <- lstsq A bu ;; al' <- lstsq A bl ;; OK (au', al', te0))
    = OK (au, al, te) ->
  lstsq A bu = OK au /\ lstsq A bl = OK al /\ te = te0.
Proof.
  destruct (lstsq A bu) as [au' |]; [| discriminate].
  destruct (lstsq A bl) as [al' |]; [| discriminate].
  cbn [bind]. intros E. injection E as -> -> ->. repeat split.
Qed.

(** C1. [CSTLayer.fit_CST]: for every [y_coords] of length [2 n_x - 1]
    over a matching station set, the upper half [yu] is the first [n_x]
    values reversed, the lower half [yl] the values from index [n_x - 1]
    on, both have a last entry, and the call is the solve for the upper
    surface, [A0 . a = yu - stations * yu[last]], followed by the solve
    for the lower one, [A0 . a = yl - stations * yl[last]], an error of
    [lstsq] being the error of the call.  Whenever the call returns
    [(au, al, te)], [au] and [al] are what the two solves returned,
    [te = (yu[last] - yl[last]) / 2], and, by the contract of
    [numpy.linalg.lstsq], [au] and [al] are least-squares solutions
    (minimum residual 2-norm) of the two systems. *)
Theorem fit_CST_splits_and_solves_least_squares :
  forall (self : CSTLayer F) (y_coords : list F) (nx : Z),
    consistent self ->
    Z.of_nat (length y_coords) = 2 * nx - 1 ->
    Z.of_nat (n_x self) = nx ->
    let yu := rev (firstn (Z.to_nat nx) y_coords) in
    let yl := skipn (Z.to_nat nx - 1) y_coords in
    exists yu_te yl_te,
      index yu (-1) = OK yu_te /\
      index yl (-1) = OK yl_te /\
      fit_CST self y_coords nx =
        (au <- lstsq (A0_matrix self)
                 (zip_with fsub yu (scale (x_coords self) yu_te)) ;;
         al <- lstsq (A0_matrix self)
                 (zip_with fsub yl (scale (x_coords self) yl_te)) ;;
         OK (au, al, fdiv (fsub yu_te yl_te) (of_Z 2))) /\
      forall au al te,
        fit_CST self y_coords nx = OK (au, al, te) ->
        lstsq (A0_matrix self)
          (zip_with fsub yu (scale (x_coords self) yu_te)) = OK au /\
        lstsq (A0_matrix self)
          (zip_with fsub yl (scale (x_coords self) yl_te)) = OK al /\
        te = fdiv (fsub yu_te yl_te) (of_Z 2) /\
        (lstsq_contract ->
         least_squares (A0_matrix self)
           (zip_with fsub yu (scale (x_coords self) yu_te)) au /\
         least_squares (A0_matrix self)
           (zip_with fsub yl (scale (x_coords self) yl_te)) al).
Proof.
  intros self y nx C L N yu yl.
  destruct (@fit_CST_on_loop self y nx C L N) as (Iu & Il & Bu & Bl & E).
  fold yu yl in Iu, Il, Bu, Bl, E.
  eexists _, _.
  split; [exact Iu |]. split; [exact Il |]. split; [exact E |].
  intros au al te R. rewrite E in R.
  destruct (two_solves_return _ _ _ _ R) as (Su & Sl & Te).
  split; [exact Su |]. split; [exact Sl |]. split; [exact Te |].
  intros K. split.
  - apply K; [now apply A0_matrix_rectangular | exact Su].
  - apply K; [now apply A0_matrix_rectangular | exact Sl].
Qed.

End FitFacts.

(** ** The feature extractor *)

Section FeatureFacts.

Context {F : Type} `{Float64 F} `{Libm F} `{Solvers F}.

Lemma argscan_bound (better : F -> F -> bool) (a : list F) :
  forall i best best_i,
    (best_i < i)%nat ->
    (argscan better a i best best_i < i + length a)%nat.
Proof.
  induction a as [| v a IH]; intros i best best_i Hb; cbn [argscan length].
  - lia.
  - destruct (isnan best); [lia |].
    destruct (better v best).
    + specialize (IH (S i) v i). lia.
    + specialize (IH (S i) best best_i). lia.
Qed.

Lemma np_argmax_in_range (a : list F) :
  a <> [] -> exists i, np_argmax a = OK i /\ (i < length a)%nat.
Proof.
  destruct a as [| u a]; [congruence |]. intros _.
  eexists. split; [reflexivity |].
  pose proof (@argscan_bound (fun v m => negb (fleb v m)) a 1%nat u 0%nat) as K.
  cbn [length]. lia.
Qed.

Lemma np_argmin_in_range (a : list F) :
  a <> [] -> exists i, np_argmin a = OK i /\ (i < length a)%nat.
Proof.
  destruct a as [| u a]; [congruence |]. intros _.
  eexists. split; [reflexivity |].
  pose proof (@argscan_bound (fun v m => negb (fleb m v)) a 1%nat u 0%nat) as K.
  cbn [length]. lia.
Qed.

Lemma np_max_nonempty (a : list F) : a <> [] -> exists m, np_max a = OK m.
Proof. destruct a; [congruence |]. intros _. eexists. reflexivity. Qed.

Lemma np_min_nonempty (a : list F) : a <> [] -> exists m, np_min a = OK m.
Proof. destruct a; [congruence |]. intros _. eexists. reflexivity. Qed.

Lemma unpack3_of_three (v : list F) :
  length v = 3%nat ->
  exists a b c, v = [a; b; c] /\ unpack3 v = OK (a, b, c).
Proof.
  destruct v as [| a [| b [| c [| d v]]]]; cbn; intros L; try discriminate.
  now exists a, b, c.
Qed.

Lemma np_dot_aligned (A : list (list F)) (v : list F) :
  Forall (fun row => length row = length v) A ->
  np_dot A v = OK (map (fun row => fdot row v) A).
Proof.
  intros R. unfold np_dot.
  replace (forallb (fun row => (length row =? length v)%nat) A) with true;
    [reflexivity |].
  symmetry. apply forallb_forall. rewrite Forall_forall in R.
  intros row Hin. apply Nat.eqb_eq. now apply R.
Qed.

Lemma reconstruct_returns (x2 au al : list F) (te : F) :
  length au = 13%nat -> length al = 13%nat ->
  reconstruct x2 au al te = OK (dense_upper x2 au te, dense_lower x2 al te) /\
  length (dense_upper x2 au te) = length x2 /\
  length (dense_lower x2 al te) = length x2.
Proof.
  intros Lu Ll.
  pose proof (A0_matrix_rows (CSTLayer_12 x2)) as R.
  pose proof (A0_matrix_length (CSTLayer_12 x2)) as L.
  change (n_cst (CSTLayer_12 x2) + 1)%nat with 13%nat in R.
  change (n_x (CSTLayer_12 x2)) with (length x2) in L.
  unfold reconstruct, dense_upper, dense_lower.
  change (A0 (CSTLayer_12 x2)) with (A0_matrix (CSTLayer_12 x2)).
  change (x_coords (CSTLayer_12 x2)) with x2.
  rewrite !np_dot_aligned by (now rewrite ?Lu, ?Ll).
  cbn [bind].
  rewrite !broadcast_same by (now rewrite length_map, scale_length).
  cbn [bind].
  split; [reflexivity |].
  split; rewrite zip_with_length; rewrite length_map; try rewrite scale_length;
    congruence.
Qed.

Lemma leading_edge_angle_of_two (p0 p1 : F * F) (rest : list (F * F)) :
  leading_edge_angle (p0 :: p1 :: rest) =
  OK (degrees (fatan (fdiv (fsub (snd p0) (snd p1))
                           (fsub (fst p0) (fst p1))))).
Proof. reflexivity. Qed.

Lemma features_after_fit (data : list (F * F)) (angle : F) (au al : list F)
    (te : F) :
  minimize_shape ->
  grid_covers dense_grid ->
  leading_edge_angle data = OK angle ->
  fit_CST (CSTLayer_12 (rev (slice_to 129 (map fst data))))
          (map snd data) 129 = OK (au, al, te) ->
  length au = 13%nat -> length al = 13%nat ->
  exists v, get_parsec_n15 data = OK v /\ layout data angle au al te v.
Proof.
  intros Mshape G Ea Ef Lu Ll. unfold grid_covers in G.
  destruct (@reconstruct_returns dense_grid au al te Lu Ll) as (Er & Lyu & Lyl).
  set (yu := dense_upper dense_grid au te) in *.
  set (yl := dense_lower dense_grid al te) in *.
  assert (yu <> []) as Nu
    by (intros E; rewrite E in Lyu; cbn [length] in Lyu; lia).
  assert (yl <> []) as Nl
    by (intros E; rewrite E in Lyl; cbn [length] in Lyl; lia).
  destruct (np_max_nonempty Nu) as (yumax & Eyumax).
  destruct (np_min_nonempty Nl) as (ylmax & Eylmax).
  destruct (np_max_nonempty Nl) as (yr & Eyr).
  destruct (np_argmax_in_range Nu) as (iu & Eiu & Biu).
  destruct (np_argmin_in_range Nl) as (il & Eil & Bil).
  destruct (np_argmax_in_range Nl) as (ir & Eir & Bir).
  destruct (unpack3_of_three (res_x (leading_edge_circle data)))
    as (xc & yc & rf & Ex & Eu).
  { unfold leading_edge_circle. now rewrite Mshape. }
  pose (d := of_Z 0).
  assert (forall (a : list F) i, length a = length (dense_grid (F := F)) ->
            0 <= i <= 6000 -> index a i = OK (nth (Z.to_nat i) a d)) as Ix
    by (intros a i La Hi; apply index_in_range; lia).
  assert (forall i, (i < length (dense_grid (F := F)))%nat ->
            index dense_grid (Z.of_nat i) = OK (nth i dense_grid d)) as Ig.
  { intros i Hi. rewrite (index_in_range _ d) by lia.
    now rewrite Nat2Z.id. }
  eexists. split.
  - unfold get_parsec_n15. rewrite Ea. cbn [bind]. rewrite Ef. cbn [bind].
    rewrite Er. cbn [bind]. fold yu yl.
    rewrite !(Ix yu) by (assumption || lia).
    rewrite !(Ix yl) by (assumption || lia).
    cbn [bind].
    rewrite Eyumax, Eylmax. cbn [bind].
    rewrite Eiu. cbn [bind]. rewrite (Ig iu) by lia. cbn [bind].
    rewrite Eil. cbn [bind]. rewrite (Ig il) by lia. cbn [bind].
    rewrite Eyr. cbn [bind].
    rewrite Eir. cbn [bind]. rewrite (Ig ir) by lia. cbn [bind].
    rewrite Eu. cbn [bind]. reflexivity.
  - unfold layout. exists yu, yl.
    do 6 eexists. do 9 eexists. exists xc, yc, rf.
    rewrite !(Ix yu) by (assumption || lia).
    rewrite !(Ix yl) by (assumption || lia).
    rewrite Eyumax, Eylmax, Eiu, Eil, Eyr, Eir.
    rewrite (Ig iu), (Ig il), (Ig ir) by lia.
    repeat (split; [reflexivity || assumption |]).
    reflexivity.
Qed.

End FeatureFacts.

(** ** Least squares over the reals: a minimiser exists *)

Section LeastSquaresExist.

Local Open Scope R_scope.

Lemma fold_left_Rplus (l : list R) (acc : R) :
  fold_left Rplus l acc = acc + sumf (fun x => x) l.
Proof.
  revert acc. induction l as [| x l IH]; intros acc; cbn.
  - lra.
  - rewrite IH. lra.
Qed.

Lemma fsum_real (l : list R) : fsum l = sumf (fun x => x) l.
Proof. unfold fsum. cbn [fadd of_Z exact]. rewrite fold_left_Rplus. lra. Qed.

Lemma fsum_real_cons (x : R) (l : list R) : fsum (x :: l) = x + fsum l.
Proof. rewrite !fsum_real. reflexivity. Qed.

Lemma fsum_real_nil : fsum (@nil R) = 0.
Proof. reflexivity. Qed.

Lemma fdot_real_cons (u v : R) (a b : list R) :
  fdot (u :: a) (v :: b) = u * v + fdot a b.
Proof. unfold fdot. cbn [zip_with]. now rewrite fsum_real_cons. Qed.

Lemma fdot_real_nil_r (a : list R) : fdot a [] = 0.
Proof. destruct a; reflexivity. Qed.

Lemma residual2_real (A : list (list R)) (b a : list R) :
  residual2 A b a = sumf (sq_error a) (combine A b).
Proof.
  unfold residual2. revert b.
  induction A as [| row A IH]; intros [| v b]; try reflexivity.
  cbn [map zip_with combine sumf]. rewrite fsum_real_cons, IH. reflexivity.
Qed.

Lemma sumf_ext {X} (f g : X -> R) l :
  (forall x, In x l -> f x = g x) -> sumf f l = sumf g l.
Proof.
  induction l as [| x l IH]; intros E; cbn; [reflexivity |].
  rewrite E by now left. rewrite IH; [reflexivity |].
  intros y Hy. apply E. now right.
Qed.

Lemma sumf_map {X Y} (f : Y -> R) (g : X -> Y) l :
  sumf f (map g l) = sumf (fun x => f (g x)) l.
Proof. induction l as [| x l IH]; cbn; [reflexivity | now rewrite IH]. Qed.

Lemma sumf_plus {X} (f g : X -> R) l :
  sumf (fun x => f x + g x) l = sumf f l + sumf g l.
Proof. induction l as [| x l IH]; cbn; [lra | rewrite IH; lra]. Qed.

Lemma sumf_scal {X} (k : R) (f : X -> R) l :
  sumf (fun x => k * f x) l = k * sumf f l.
Proof. induction l as [| x l IH]; cbn; [lra | rewrite IH; lra]. Qed.

Lemma sumf_sq_nonneg {X} (f : X -> R) l : 0 <= sumf (fun x => f x * f x) l.
Proof.
  induction l as [| x l IH]; cbn; [lra |].
  pose proof (Rle_0_sqr (f x)) as K. unfold Rsqr in K. lra.
Qed.

Lemma sumf_sq_zero {X} (f : X -> R) l :
  sumf (fun x => f x * f x) l = 0 -> forall x, In x l -> f x = 0.
Proof.
  induction l as [| y l IH]; cbn; intros E x Hx; [contradiction |].
  pose proof (Rle_0_sqr (f y)) as K. unfold Rsqr in K.
  pose proof (sumf_sq_nonneg f l) as K'.
  destruct Hx as [<- | Hx].
  - apply Rsqr_0_uniq. unfold Rsqr. lra.
  - apply IH; [lra | assumption].
Qed.

Lemma fdot_vadd (u v a : list R) :
  length u = length v ->
  fdot (vadd u v) a = fdot u a + fdot v a.
Proof.
  revert v a. induction u as [| x u IH]; intros [| y v] a E; cbn in E;
    try discriminate.
  - cbn. lra.
  - destruct a as [| z a].
    + rewrite !fdot_real_nil_r. lra.
    + unfold vadd. cbn [zip_with]. rewrite !fdot_real_cons.
      fold (vadd u v). rewrite IH by congruence. lra.
Qed.

Lemma fdot_vscale (k : R) (u a : list R) :
  fdot (vscale k u) a = k * fdot u a.
Proof.
  revert a. induction u as [| x u IH]; intros a.
  - cbn. lra.
  - destruct a as [| z a].
    + rewrite !fdot_real_nil_r. lra.
    + unfold vscale. cbn [map]. rewrite !fdot_real_cons.
      fold (vscale k u). rewrite IH. lra.
Qed.

Lemma vadd_length u v : length u = length v -> length (vadd u v) = length u.
Proof. apply zip_with_length. Qed.

Lemma vscale_length k u : length (vscale k u) = length u.
Proof. apply length_map. Qed.

Lemma fdot_zero n a : fdot (repeat 0 n) a = 0.
Proof.
  revert a. induction n as [| n IH]; intros a; [reflexivity |].
  destruct a as [| z a]; [apply fdot_real_nil_r |].
  cbn [repeat]. rewrite fdot_real_cons, IH. lra.
Qed.

Lemma tl_length {X} (l : list X) n : length l = S n -> length (tl l) = n.
Proof. destruct l; cbn; [discriminate | congruence]. Qed.

Lemma vcomb_length n E : rows_of (S n) E -> length (vcomb n E) = n.
Proof.
  induction 1 as [| e E He _ IH]; cbn [vcomb].
  - apply repeat_length.
  - apply tl_length in He.
    rewrite vadd_length; rewrite vscale_length; congruence.
Qed.

Lemma fdot_vcomb n E a :
  rows_of (S n) E ->
  fdot (vcomb n E) a = sumf (fun e => lead e * fdot (tl (fst e)) a) E.
Proof.
  induction 1 as [| e E He HE IH]; cbn [vcomb sumf].
  - apply fdot_zero.
  - rewrite fdot_vadd, fdot_vscale, IH; [reflexivity |].
    rewrite vscale_length, (vcomb_length HE). now apply tl_length.
Qed.

Lemma sq_error_cons a0 a e :
  sq_error (a0 :: a) e = (lead e * a0 + rest a e) * (lead e * a0 + rest a e).
Proof.
  unfold sq_error, lead, rest. destruct (fst e) as [| c r]; cbn [hd tl].
  - replace (fdot [] (a0 :: a)) with 0 by reflexivity.
    replace (fdot [] a) with 0 by reflexivity. lra.
  - rewrite fdot_real_cons. lra.
Qed.

Lemma total_error_split n E a0 a :
  rows_of (S n) E -> length a = n ->
  let cc := sumf (fun e => lead e * lead e) E in
  let s := sumf (fun e => lead e * rest a e) E in
  cc <> 0 ->
  total_error E (a0 :: a) =
  cc * ((a0 + s / cc) * (a0 + s / cc)) + total_error (reduce n E) a.
Proof.
  intros HE La cc s HS.
  assert (total_error E (a0 :: a) =
          a0 * a0 * cc + 2 * a0 * s + sumf (fun e => rest a e * rest a e) E)
    as L1.
  { unfold total_error.
    rewrite (sumf_ext (sq_error (a0 :: a))
               (fun e => a0 * a0 * (lead e * lead e) +
                         (2 * a0 * (lead e * rest a e) +
                          rest a e * rest a e))).
    - rewrite sumf_plus, sumf_plus, !sumf_scal. fold cc s. lra.
    - intros e _. rewrite sq_error_cons. lra. }
  assert (fdot (vcomb n E) a - sumf (fun e => lead e * snd e) E = s) as Hs.
  { rewrite (fdot_vcomb a HE). unfold s.
    rewrite (sumf_ext (fun e => lead e * rest a e)
               (fun e => lead e * fdot (tl (fst e)) a +
                         (-1) * (lead e * snd e)))
      by (intros; unfold rest; lra).
    rewrite sumf_plus, sumf_scal. lra. }
  assert (total_error (reduce n E) a =
          sumf (fun e => rest a e * rest a e) E - s * s / cc) as L2.
  { unfold total_error, reduce. rewrite sumf_map. fold cc.
    rewrite (sumf_ext _
               (fun e => rest a e * rest a e +
                         ((- 2 * s / cc) * (lead e * rest a e) +
                          (s * s / (cc * cc)) * (lead e * lead e)))).
    - rewrite sumf_plus, sumf_plus, !sumf_scal. fold cc s.
      field. assumption.
    - intros e He. unfold sq_error, reduce_by. cbn [fst snd].
      rewrite fdot_vadd, fdot_vscale.
      + rewrite <- Hs. unfold rest. field. assumption.
      + rewrite vscale_length, (vcomb_length HE).
        apply tl_length. unfold rows_of in HE.
        rewrite Forall_forall in HE. now apply HE. }
  rewrite L1, L2. field. assumption.
Qed.

Lemma total_error_lead_zero n E a0 a :
  rows_of (S n) E ->
  sumf (fun e => lead e * lead e) E = 0 ->
  total_error E (a0 :: a) =
  total_error (map (fun e => (tl (fst e), snd e)) E) a.
Proof.
  intros HE Z. unfold total_error. rewrite sumf_map.
  apply sumf_ext. intros e He.
  rewrite sq_error_cons.
  rewrite (sumf_sq_zero lead E Z e He).
  unfold sq_error, rest. cbn [fst snd]. lra.
Qed.

Lemma rows_of_tails n E :
  rows_of (S n) E -> rows_of n (map (fun e => (tl (fst e), snd e)) E).
Proof.
  unfold rows_of. rewrite !Forall_forall. intros HE e He.
  apply in_map_iff in He. destruct He as (e0 & <- & He0).
  cbn [fst]. apply tl_length. now apply HE.
Qed.

Lemma rows_of_reduce n E : rows_of (S n) E -> rows_of n (reduce n E).
Proof.
  intros HE. pose proof (vcomb_length HE) as LV.
  unfold rows_of in *. rewrite Forall_forall in *. intros e He.
  unfold reduce in He. apply in_map_iff in He.
  destruct He as (e0 & <- & He0). unfold reduce_by. cbn [fst].
  pose proof (tl_length _ (HE e0 He0)) as LT.
  rewrite vadd_length; rewrite ?vscale_length; congruence.
Qed.

(** A system of equations in [n] unknowns has a least-squares solution. *)
Theorem least_squares_exists (n : nat) :
  forall E, rows_of n E ->
  exists a, length a = n /\
            forall a', length a' = n -> total_error E a <= total_error E a'.
Proof.
  induction n as [| n IH]; intros E HE.
  - exists []. split; [reflexivity |].
    intros a' La. destruct a'; [lra | discriminate].
  - destruct (Req_dec_T (sumf (fun e => lead e * lead e) E) 0) as [Z | NZ].
    + destruct (IH _ (rows_of_tails HE)) as (a & La & Min).
      exists (0 :: a). split; [cbn; congruence |].
      intros [| a0' a'] La'; [discriminate |].
      rewrite (@total_error_lead_zero n E 0 a HE Z), (@total_error_lead_zero n E a0' a' HE Z).
      apply Min. cbn in La'. congruence.
    + destruct (IH _ (rows_of_reduce HE)) as (a & La & Min).
      set (cc := sumf (fun e => lead e * lead e) E) in *.
      set (s := sumf (fun e => lead e * rest a e) E).
      exists (- (s / cc) :: a). split; [cbn; congruence |].
      intros [| a0' a'] La'; [discriminate |].
      assert (length a' = n) as La'' by (cbn in La'; congruence).
      rewrite (@total_error_split n E (- (s / cc)) a HE La NZ).
      rewrite (@total_error_split n E a0' a' HE La'' NZ).
      fold cc s.
      assert (0 < cc) as PS.
      { pose proof (sumf_sq_nonneg lead E) as K. fold cc in K.
        destruct K as [K | K]; [assumption | congruence]. }
      specialize (Min a' La'').
      set (u := a0' + _ / cc).
      pose proof (Rle_0_sqr u) as K. unfold Rsqr in K.
      replace (- (s / cc) + s / cc) with 0 by lra.
      nra.
Qed.

End LeastSquaresExist.

(** ** The exact solvers meet the contracts *)

Lemma Rleb_true (a b : R) : Rleb a b = true <-> (a <= b)%R.
Proof. unfold Rleb. destruct (Rle_dec a b); split; congruence || tauto. Qed.

Lemma least_squares_real_exists (A : list (list R)) (b : list R) :
  rectangular A b -> exists a, least_squares A b a.
Proof.
  intros [_ Rows].
  assert (rows_of (ncols A) (combine A b)) as HE.
  { unfold rows_of. apply Forall_forall. intros [row v] Hin.
    apply in_combine_l in Hin. rewrite Forall_forall in Rows.
    now apply Rows. }
  destruct (least_squares_exists HE) as (a & La & Min).
  exists a. split; [assumption |].
  intros a' La'. cbn [fleb exact]. apply Rleb_true.
  rewrite !residual2_real. now apply Min.
Qed.

Lemma lstsq_real_contract (S : Solvers R) :
  @lstsq R S = (fun A b => OK (lstsq_real A b)) -> @lstsq_contract R exact S.
Proof.
  intros E A b a Rect. rewrite E. intros Ea. injection Ea as <-.
  unfold lstsq_real.
  apply epsilon_spec. now apply least_squares_real_exists.
Qed.

Lemma lstsq_contract_shape {F : Type} `{Float64 F} `{Solvers F} :
  lstsq_contract -> lstsq_shape.
Proof. intros K A b a Rect E. now destruct (K A b a Rect E). Qed.

Lemma exact_lstsq_returns : @lstsq_returns R exact_solvers.
Proof. intros A b _. now eexists. Qed.

Lemma reporting_lstsq_returns (flag : bool) :
  @lstsq_returns R (reporting flag exact_solvers).
Proof. intros A b _. now eexists. Qed.

Lemma exact_lstsq_contract : @lstsq_contract R exact exact_solvers.
Proof. now apply lstsq_real_contract. Qed.

Lemma reporting_lstsq_contract (flag : bool) :
  @lstsq_contract R exact (reporting flag exact_solvers).
Proof. now apply lstsq_real_contract. Qed.

Lemma halted_minimize_shape : @minimize_shape R exact_solvers.
Proof. intros f x0. reflexivity. Qed.

Lemma reporting_minimize_shape (flag : bool) :
  @minimize_shape R (reporting flag exact_solvers).
Proof. intros f x0. reflexivity. Qed.

(** The dense grid in exact arithmetic: [(1.001 - 0) / 0.0001 = 10010]. *)
Lemma Rceil_IZR (z : Z) : Rceil (IZR z) = z.
Proof.
  unfold Rceil.
  assert (up (- IZR z) = 1 - z)%Z as U.
  { symmetry. apply tech_up; rewrite minus_IZR; lra. }
  rewrite U. lia.
Qed.

Lemma dense_grid_real_length :
  length (dense_grid (F := R)) = Z.to_nat 10010.
Proof.
  unfold dense_grid, arange. rewrite length_map, length_seq.
  unfold decimal. cbn [of_Z fdiv fsub exact].
  replace ((1001 / 1000 - 0) / (1 / 10000))%R with (IZR 10010) by field.
  now rewrite Rceil_IZR.
Qed.

Lemma dense_grid_real_covers : grid_covers (dense_grid (F := R)).
Proof. unfold grid_covers. rewrite dense_grid_real_length. lia. Qed.

(** ** The extractor by input length *)

Section ExtractorCases.

Context {F : Type} `{Float64 F} `{Libm F} `{Solvers F}.

Lemma stations_length (data : list (F * F)) :
  length (rev (slice_to 129 (map fst data))) = Nat.min 129 (length data).
Proof.
  rewrite length_rev, slice_to_nonneg by lia.
  now rewrite length_firstn, length_map.
Qed.

Lemma CSTLayer_12_n_x (x : list F) : n_x (CSTLayer_12 x) = length x.
Proof. reflexivity. Qed.

Lemma solution_length (x b a : list F) :
  lstsq_shape -> length b = length x -> (0 < length x)%nat ->
  lstsq (A0_matrix (CSTLayer_12 x)) b = OK a -> length a = 13%nat.
Proof.
  intros K Lb Px E.
  rewrite (K _ _ _ (@A0_matrix_rectangular F _ _ (CSTLayer_12 x) b Lb) E).
  now rewrite A0_matrix_ncols.
Qed.

(** With 129 or 257 points the fit is a chain of two solves over the 129
    stations. *)
Lemma fit_of_chain (data : list (F * F)) :
  length data = 129%nat \/ length data = 257%nat ->
  exists bu bl te0,
    length bu = 129%nat /\ length bl = 129%nat /\
    length (rev (slice_to 129 (map fst data))) = 129%nat /\
    fit_of data =
    (au <- lstsq (A0_matrix (CSTLayer_12 (rev (slice_to 129 (map fst data)))))
             bu ;;
     al <- lstsq (A0_matrix (CSTLayer_12 (rev (slice_to 129 (map fst data)))))
             bl ;;
     OK (au, al, te0)).
Proof.
  intros L. unfold fit_of.
  set (x := rev (slice_to 129 (map fst data))).
  assert (length x = 129%nat) as Lx
    by (unfold x; rewrite stations_length; lia).
  destruct L as [L | L].
  - set (y := map snd data).
    assert (length y = 129%nat) as Ly by (unfold y; now rewrite length_map).
    unfold fit_CST.
    change (x_coords (CSTLayer_12 x)) with x.
    rewrite slice_to_nonneg, slice_from_nonneg by lia.
    change (Z.to_nat (129 - 1)) with 128%nat.
    change (Z.to_nat 129) with 129%nat.
    set (yu := rev (firstn 129 y)).
    assert (length yu = 129%nat) as Lyu
      by (unfold yu; rewrite length_rev, length_firstn; lia).
    assert (exists v, skipn 128 y = [v]) as (v & Eyl).
    { pose proof (length_skipn 128 y) as Ls.
      destruct (skipn 128 y) as [| v [| v' t]]; cbn [length] in Ls; try lia.
      now exists v. }
    rewrite Eyl.
    rewrite (@index_last_nonempty F _ (of_Z 0))
      by (intros E; rewrite E in Lyu; discriminate).
    cbn [bind].
    change (index [v] (-1)) with (OK v). cbn [bind].
    rewrite broadcast_same by (rewrite scale_length; lia).
    cbn [bind].
    rewrite np_lstsq_fits
      by (rewrite A0_matrix_length, CSTLayer_12_n_x, zip_with_length;
          rewrite ?scale_length; lia).
    rewrite broadcast_left_scalar by (rewrite scale_length; lia).
    exists (zip_with fsub yu (scale x (last yu (of_Z 0)))),
           (map (fsub v) (scale x v)),
           (fdiv (fsub (last yu (of_Z 0)) v) (of_Z 2)).
    split; [| split; [| split; [exact Lx |]]].
    + rewrite zip_with_length; rewrite ?scale_length; lia.
    + now rewrite length_map, scale_length.
    + destruct (lstsq (A0_matrix (CSTLayer_12 x))
                  (zip_with fsub yu (scale x (last yu (of_Z 0)))))
        as [au |]; cbn [bind]; [| reflexivity].
      rewrite np_lstsq_fits
        by (rewrite A0_matrix_length, CSTLayer_12_n_x, length_map,
              scale_length; lia).
      reflexivity.
  - destruct (@fit_CST_on_loop F _ _ _ (CSTLayer_12 x) (map snd data) 129)
      as (_ & _ & Bu & Bl & E).
    + apply CSTLayer_init_consistent.
    + rewrite length_map. lia.
    + change (n_x (CSTLayer_12 x)) with (length x). lia.
    + change (n_x (CSTLayer_12 x)) with (length x) in Bu, Bl.
      eexists _, _, _. split; [| split; [| split; [exact Lx | exact E]]];
        lia.
Qed.

Lemma fit_of_lengths (data : list (F * F)) (au al : list F) (te : F) :
  lstsq_shape ->
  length data = 129%nat \/ length data = 257%nat ->
  fit_of data = OK (au, al, te) ->
  length au = 13%nat /\ length al = 13%nat.
Proof.
  intros K L E.
  destruct (fit_of_chain data L) as (bu & bl & te0 & Lu & Ll & Lx & C).
  rewrite C in E. destruct (two_solves_return _ _ _ _ E) as (Su & Sl & _).
  split; eapply solution_length; try eassumption; lia.
Qed.

Lemma fit_of_returns (data : list (F * F)) :
  lstsq_returns ->
  length data = 129%nat \/ length data = 257%nat ->
  exists au al te, fit_of data = OK (au, al, te).
Proof.
  intros K L.
  destruct (fit_of_chain data L) as (bu & bl & te0 & Lu & Ll & Lx & C).
  destruct (K (A0_matrix (CSTLayer_12 (rev (slice_to 129 (map fst data)))))
              bu) as (au & Su);
    [apply A0_matrix_rectangular; rewrite CSTLayer_12_n_x; lia |].
  destruct (K (A0_matrix (CSTLayer_12 (rev (slice_to 129 (map fst data)))))
              bl) as (al & Sl);
    [apply A0_matrix_rectangular; rewrite CSTLayer_12_n_x; lia |].
  exists au, al, te0. rewrite C, Su, Sl. reflexivity.
Qed.

Lemma fit_of_short (data : list (F * F)) :
  (0 < length data < 129)%nat -> fit_of data = Raise IndexError.
Proof.
  intros L. unfold fit_of, fit_CST.
  rewrite slice_from_nonneg by lia.
  change (Z.to_nat (129 - 1)) with 128%nat.
  rewrite skipn_all2 by (rewrite length_map; lia).
  rewrite (@index_last_nonempty F _ (of_Z 0)).
  - reflexivity.
  - intros E. apply (f_equal (@length F)) in E.
    rewrite length_rev, slice_to_nonneg, length_firstn, length_map in E
      by lia.
    cbn in E. lia.
Qed.

Lemma fit_of_other (data : list (F * F)) :
  (129 < length data)%nat -> length data <> 257%nat ->
  fit_of data = (au <- upper_solve data ;; Raise (ValueError broadcast_msg)).
Proof.
  intros L N. unfold fit_of, upper_solve.
  set (x := rev (slice_to 129 (map fst data))).
  assert (length x = 129%nat) as Lx
    by (unfold x; rewrite stations_length; lia).
  set (y := map snd data).
  assert (length y = length data) as Ly by (unfold y; now rewrite length_map).
  unfold fit_CST.
  change (x_coords (CSTLayer_12 x)) with x.
  rewrite !slice_to_nonneg, slice_from_nonneg by lia.
  change (Z.to_nat (129 - 1)) with 128%nat.
  change (Z.to_nat 129) with 129%nat.
  set (yu := rev (firstn 129 y)).
  set (yl := skipn 128 y).
  assert (length yu = 129%nat) as Lyu
    by (unfold yu; rewrite length_rev, length_firstn; lia).
  assert (length yl = (length data - 128)%nat) as Lyl
    by (unfold yl; rewrite length_skipn; lia).
  rewrite (@index_last_nonempty F _ (of_Z 0))
    by (intros E; rewrite E in Lyu; discriminate).
  cbn [bind].
  rewrite (@index_last_nonempty F _ (of_Z 0))
    by (intros E; rewrite E in Lyl; cbn [length] in Lyl; lia).
  cbn [bind].
  rewrite broadcast_same by (rewrite scale_length; lia).
  cbn [bind].
  rewrite np_lstsq_fits
    by (rewrite A0_matrix_length, CSTLayer_12_n_x, zip_with_length;
        rewrite ?scale_length; lia).
  destruct (lstsq _ _) as [au |]; cbn [bind]; [| reflexivity].
  rewrite broadcast_mismatch by (rewrite ?scale_length; lia).
  reflexivity.
Qed.

Lemma leading_edge_angle_returns (data : list (F * F)) :
  (2 <= length data)%nat -> exists angle, leading_edge_angle data = OK angle.
Proof.
  destruct data as [| p0 [| p1 rest]]; cbn [length]; try lia.
  intros _. eexists. apply leading_edge_angle_of_two.
Qed.

Lemma get_parsec_n15_rejects (data : list (F * F)) (e : exn) :
  (2 <= length data)%nat -> fit_of data = Raise e ->
  get_parsec_n15 data = Raise e.
Proof.
  intros L Ef. destruct (leading_edge_angle_returns data L) as (angle & Ea).
  unfold get_parsec_n15. rewrite Ea. cbn [bind].
  unfold fit_of in Ef. now rewrite Ef.
Qed.

Lemma get_parsec_n15_too_short (data : list (F * F)) :
  (length data < 129)%nat -> get_parsec_n15 data = Raise IndexError.
Proof.
  intros L. destruct data as [| p0 [| p1 rest]]; try reflexivity.
  apply get_parsec_n15_rejects; [cbn [length]; lia |].
  apply fit_of_short. cbn [length] in *. lia.
Qed.

Lemma get_parsec_n15_other (data : list (F * F)) :
  (129 < length data)%nat -> length data <> 257%nat ->
  get_parsec_n15 data =
  (au <- upper_solve data ;; Raise (ValueError broadcast_msg)).
Proof.
  intros L N. pose proof (fit_of_other data L N) as E.
  destruct (upper_solve data) as [au | e]; cbn [bind] in *;
    apply get_parsec_n15_rejects; (lia || exact E).
Qed.

Lemma get_parsec_n15_accepts (data : list (F * F)) (au al : list F)
    (te : F) :
  lstsq_shape -> minimize_shape -> grid_covers dense_grid ->
  length data = 129%nat \/ length data = 257%nat ->
  fit_of data = OK (au, al, te) ->
  exists angle v,
    leading_edge_angle data = OK angle /\
    get_parsec_n15 data = OK v /\
    layout data angle au al te v.
Proof.
  intros K M G L Ef.
  destruct (leading_edge_angle_returns data) as (angle & Ea); [lia |].
  destruct (fit_of_lengths data K L Ef) as (Lu & Ll).
  destruct (@features_after_fit F _ _ _ data angle au al te M G Ea Ef Lu Ll)
    as (v & Ev & Lay).
  now exists angle, v.
Qed.

(** With a solver that returns, 129 or 257 points give features. *)
Lemma get_parsec_n15_returns (data : list (F * F)) :
  lstsq_returns -> lstsq_shape -> minimize_shape ->
  grid_covers dense_grid ->
  length data = 129%nat \/ length data = 257%nat ->
  exists angle au al te v,
    leading_edge_angle data = OK angle /\
    fit_of data = OK (au, al, te) /\
    get_parsec_n15 data = OK v /\
    layout data angle au al te v.
Proof.
  intros T K M G L.
  destruct (fit_of_returns data T L) as (au & al & te & Ef).
  destruct (get_parsec_n15_accepts data K M G L Ef)
    as (angle & v & Ea & Ev & Lay).
  now exists angle, au, al, te, v.
Qed.

(** What the extraction reads of its input: the ordinates, and the
    points up to index 130. *)
Lemma index_firstn {A : Type} (n : nat) (l : list A) (i : Z) :
  0 <= i < Z.of_nat n -> index (firstn n l) i = index l i.
Proof.
  intros I. unfold index.
  destruct (i <? 0) eqn:E; [lia |]. rewrite E.
  rewrite nth_error_firstn.
  destruct (Nat.ltb_spec (Z.to_nat i) n); [reflexivity | lia].
Qed.

Lemma get_parsec_n15_reads (data data' : list (F * F)) :
  map snd data' = map snd data ->
  firstn 131 data' = firstn 131 data ->
  get_parsec_n15 data' = get_parsec_n15 data.
Proof.
  intros Ey Ex.
  assert (leading_edge_angle data' = leading_edge_angle data) as Ea.
  { unfold leading_edge_angle, leading_edge_slope.
    rewrite <- (@index_firstn _ 131 data' 0), <- (@index_firstn _ 131 data' 1),
      <- (@index_firstn _ 131 data 0), <- (@index_firstn _ 131 data 1) by lia.
    now rewrite Ex. }
  assert (slice_to 129 (map fst data') = slice_to 129 (map fst data)) as Es.
  { rewrite !slice_to_nonneg by lia. change (Z.to_nat 129) with 129%nat.
    rewrite !firstn_map.
    replace (firstn 129 data') with (firstn 129 (firstn 131 data'))
      by (rewrite firstn_firstn; reflexivity).
    replace (firstn 129 data) with (firstn 129 (firstn 131 data))
      by (rewrite firstn_firstn; reflexivity).
    now rewrite Ex. }
  assert (leading_edge_circle data' = leading_edge_circle data) as Ec.
  { unfold leading_edge_circle. rewrite !slice_to_nonneg by lia.
    change (Z.to_nat 131) with 131%nat. now rewrite Ex. }
  unfold get_parsec_n15. now rewrite Ea, Es, Ey, Ec.
Qed.

End ExtractorCases.

(** ** The claims about [get_parsec_n15] *)

Section ExtractorClaims.

Context {F : Type} `{Float64 F} `{Libm F} `{Solvers F}.

Lemma unpack3_OK (v : list F) (a b c : F) :
  unpack3 v = OK (a, b, c) -> v = [a; b; c].
Proof.
  destruct v as [| a' [| b' [| c' [| d v]]]]; cbn; try discriminate.
  intros E. now injection E as -> -> ->.
Qed.

(** C4. [Fit_airfoil.get_parsec_n15] on an input airfoil of 257 points:
    an error of the fit (the [LinAlgError] of [lstsq] on a system that is
    not finite) is the error of the call, and whenever the fit returns
    [(au, al, te)] the method returns a vector of exactly 15 elements in
    the fixed order [rf, t4u, t4l, xumax, yumax, xlmax, ylmax, t25u, t25l,
    angle, te, xr, yr, t60u, t60l], each of them the quantity of that name
    computed by the method. *)
Theorem get_parsec_n15_returns_15_features_in_order :
  forall data : list (F * F),
    lstsq_shape -> minimize_shape -> grid_covers dense_grid ->
    length data = 257%nat ->
    (forall e,
        fit_CST (CSTLayer_12 (rev (slice_to 129 (map fst data))))
                (map snd data) 129 = Raise e ->
        get_parsec_n15 data = Raise e) /\
    forall au al te,
      fit_CST (CSTLayer_12 (rev (slice_to 129 (map fst data))))
              (map snd data) 129 = OK (au, al, te) ->
      exists angle yu yl,
      exists t4u t25u t60u t4l t25l t60l,
      exists yumax ylmax iu xumax il xlmax yr ir xr,
      exists xc yc rf v,
        leading_edge_angle data = OK angle /\
        reconstruct dense_grid au al te = OK (yu, yl) /\
        index yu 400 = OK t4u /\ index yu 2500 = OK t25u /\
        index yu 6000 = OK t60u /\
        index yl 400 = OK t4l /\ index yl 2500 = OK t25l /\
        index yl 6000 = OK t60l /\
        np_max yu = OK yumax /\ np_min yl = OK ylmax /\
        np_argmax yu = OK iu /\ index dense_grid (Z.of_nat iu) = OK xumax /\
        np_argmin yl = OK il /\ index dense_grid (Z.of_nat il) = OK xlmax /\
        np_max yl = OK yr /\
        np_argmax yl = OK ir /\ index dense_grid (Z.of_nat ir) = OK xr /\
        res_x (leading_edge_circle data) = [xc; yc; rf] /\
        get_parsec_n15 data = OK v /\
        v = [rf; t4u; t4l; xumax; yumax; xlmax; ylmax; t25u; t25l; angle;
             te; xr; yr; t60u; t60l] /\
        length v = 15%nat.
Proof.
  intros data K M G L. split.
  - intros e Ef. apply get_parsec_n15_rejects; [lia | exact Ef].
  - intros au al te Ef.
    destruct (@get_parsec_n15_accepts F _ _ _ data au al te K M G
                (or_intror L) Ef) as (angle & v & Ea & Ev & Lay).
    destruct Lay as (yu & yl & t4u & t25u & t60u & t4l & t25l & t60l & Lay).
    destruct Lay as (yumax & ylmax & iu & xumax & il & xlmax & yr & ir & xr
                     & Lay).
    destruct Lay as (xc & yc & rf & Lay).
    exists angle, yu, yl.
    exists t4u, t25u, t60u, t4l, t25l, t60l.
    exists yumax, ylmax, iu, xumax, il, xlmax, yr, ir, xr.
    exists xc, yc, rf, v.
    split; [exact Ea |].
    repeat (destruct Lay as (? & Lay); split; [assumption |]).
    split; [exact Ev |]. split; [exact Lay |].
    rewrite Lay. reflexivity.
Qed.

(** C6, as the code has it.  [get_parsec_n15] validates nothing itself;
    what is raised is raised by the operations it calls.  Fewer than 2
    points raise [IndexError] at the leading-edge slope (line 121), and 2
    to 128 points raise [IndexError] inside [fit_CST], whose lower half is
    empty.  More than 129 points other than 257 raise numpy's
    broadcasting [ValueError] inside [fit_CST] once the solve for the
    upper surface has returned, an error of that solve coming first.  On
    129 or 257 points, whenever the fit returns (with solutions of one
    entry per basis function, [minimize] returning a point of the
    dimension of its start, and the dense grid reaching index 6000),
    features are returned.  And the x-coordinates beyond index 130 are
    never read, so an upper and a lower x-grid that do not match are not
    detected. *)
Theorem get_parsec_n15_rejects_by_length_only :
  forall data : list (F * F),
    ((length data < 2)%nat ->
     leading_edge_angle data = Raise IndexError /\
     get_parsec_n15 data = Raise IndexError) /\
    ((2 <= length data < 129)%nat ->
     returns (leading_edge_angle data) /\
     fit_of data = Raise IndexError /\
     get_parsec_n15 data = Raise IndexError) /\
    ((129 < length data)%nat -> length data <> 257%nat ->
     get_parsec_n15 data =
     (au <- upper_solve data ;; Raise (ValueError broadcast_msg))) /\
    (length data = 129%nat \/ length data = 257%nat ->
     lstsq_shape -> minimize_shape -> grid_covers dense_grid ->
     forall au al te,
       fit_of data = OK (au, al, te) -> returns (get_parsec_n15 data)) /\
    (forall data' : list (F * F),
        map snd data' = map snd data ->
        firstn 131 data' = firstn 131 data ->
        get_parsec_n15 data' = get_parsec_n15 data).
Proof.
  intros data. split; [| split; [| split; [| split]]].
  - intros L. destruct data as [| p0 [| p1 rest]];
      [split; reflexivity | split; reflexivity | cbn in L; lia].
  - intros L. split; [apply leading_edge_angle_returns; lia |].
    split; [apply fit_of_short; lia |].
    apply get_parsec_n15_too_short. lia.
  - apply get_parsec_n15_other.
  - intros L K M G au al te Ef.
    destruct (@get_parsec_n15_accepts F _ _ _ data au al te K M G L Ef)
      as (angle & v & _ & Ev & _).
    now exists v.
  - intros data'. apply get_parsec_n15_reads.
Qed.

Lemma reporting_same_features (flag : bool) (data : list (F * F)) :
  @get_parsec_n15 F _ _ (reporting flag _) data = get_parsec_n15 data.
Proof. reflexivity. Qed.

(** C7, as the code has it.  [get_parsec_n15] never reads the
    minimizer's convergence flag: overwriting the flag of every
    [minimize] result leaves the outcome of the call unchanged, so
    nothing is raised on non-convergence that is not raised otherwise;
    and whenever the call returns, it returns the radius feature [rf],
    the third component of the iterate the minimizer returned, converged
    or not, followed by 14 more features, none of them a flag. *)
Theorem circle_fit_convergence_flag_is_not_read :
  forall (flag : bool) (data : list (F * F)),
    @get_parsec_n15 F _ _ (reporting flag _) data = get_parsec_n15 data /\
    res_success (@leading_edge_circle F _ (reporting flag _) data) = flag /\
    (forall v,
        get_parsec_n15 data = OK v ->
        exists xc yc rf rest,
          res_x (leading_edge_circle data) = [xc; yc; rf] /\
          v = rf :: rest /\
          length rest = 14%nat).
Proof.
  intros flag data. split; [apply reporting_same_features |].
  split; [reflexivity |].
  intros v E. unfold get_parsec_n15 in E.
  apply bind_OK in E. destruct E as (angle & _ & E).
  apply bind_OK in E. destruct E as ([[au al] te] & _ & E).
  apply bind_OK in E. destruct E as ([yu yl] & _ & E).
  do 15 (apply bind_OK in E; destruct E as (? & _ & E)).
  apply bind_OK in E. destruct E as ([[xc yc] r] & Ex & E).
  injection E as <-. apply unpack3_OK in Ex.
  exists xc, yc, r. eexists. split; [exact Ex |]. split; reflexivity.
Qed.

End ExtractorClaims.

(** ** The leading-edge slope *)

(** In binary64 a quotient by zero is an infinity or the NaN. *)
Lemma float_div_by_zero (dy dx : float) :
  PrimFloat.eqb dx 0 = true ->
  (dy / dx = infinity \/ dy / dx = neg_infinity \/ dy / dx = nan)%float.
Proof.
  intros Z. rewrite eqb_spec in Z.
  rewrite <- (SF2Prim_Prim2SF (dy / dx)), div_spec.
  change (Prim2SF 0) with (S754_zero false) in Z.
  destruct (Prim2SF dx) as [sx | sx | | sx mx ex]; cbn in Z;
    try discriminate; try (destruct sx; discriminate).
  destruct (Prim2SF dy) as [sy | sy | | sy my ey]; cbn.
  - right; right; reflexivity.
  - destruct sy, sx; cbn; auto.
  - right; right; reflexivity.
  - destruct sy, sx; cbn; auto.
Qed.

(** C5, as the code has it.  The slope between the first two points is a
    numpy [float64] division, which raises nothing: for every input with
    at least two points the angle is
    [math.degrees(math.atan((y0 - y1) / (x0 - x1)))], and when the two
    points share an x-coordinate the quotient is, in binary64, plus or
    minus infinity or NaN, which is passed on to [atan] and returned as
    the angle like any other value. *)
Theorem leading_edge_angle_divides_without_check :
  (forall (F : Type) (HF : Float64 F) (HL : Libm F)
          (p0 p1 : F * F) (rest : list (F * F)),
      leading_edge_slope (p0 :: p1 :: rest) =
        OK (fdiv (fsub (snd p0) (snd p1)) (fsub (fst p0) (fst p1))) /\
      leading_edge_angle (p0 :: p1 :: rest) =
        OK (degrees (fatan (fdiv (fsub (snd p0) (snd p1))
                                 (fsub (fst p0) (fst p1)))))) /\
  (forall (p0 p1 : float * float) (rest : list (float * float)),
      PrimFloat.eqb (fst p0 - fst p1) 0 = true ->
      exists a, leading_edge_slope (p0 :: p1 :: rest) = OK a /\
                (a = infinity \/ a = neg_infinity \/ a = nan)).
Proof.
  split.
  - intros F HF HL p0 p1 rest. split; reflexivity.
  - intros p0 p1 rest Z. eexists. split; [reflexivity |].
    now apply float_div_by_zero.
Qed.

(** ** The dense grid *)

(** C3, where the code departs from it.  [np.arange(0, 1.001, 0.0001)]
    has 10,010 points, not 10,001, in binary64 and in exact arithmetic
    alike, and its last point lies beyond the trailing edge at 1; the
    points at indices 400, 2500 and 6000 are the doubles nearest 0.04,
    0.25 and 0.6, and index 10000 holds 1. *)
Theorem dense_grid_has_10010_points :
  sample_points (dense_grid (F := float)) [400; 2500; 6000; 10000; 10009] =
  (Z.to_nat 10010,
   [decimal 4 100; decimal 25 100; decimal 6 10; 1%float;
    0x1.003afb7e90ffap+0%float]) /\
  length (dense_grid (F := R)) = Z.to_nat 10010.
Proof.
  split; [vm_compute; reflexivity | apply dense_grid_real_length].
Qed.

(** ** The diffusion model *)

Section DiffusionFacts.

Import Diffusion.

Context {F T Y Net G : Type} `{Float64 F} `{Torch F T Y Net G}.

Lemma mismatch_true (batch_size : Z) (c : Y) :
  batch_size <> len_y c -> mismatch batch_size (Some c) = true.
Proof.
  intros N. unfold mismatch.
  destruct (batch_size =? len_y c) eqn:E; [| reflexivity].
  apply Z.eqb_eq in E. congruence.
Qed.

Lemma mismatch_false (batch_size : Z) (y : option Y) :
  y = None \/ (exists c, y = Some c /\ batch_size = len_y c) ->
  mismatch batch_size y = false.
Proof.
  intros [-> | (c & -> & E)]; [reflexivity |].
  unfold mismatch. now rewrite E, Z.eqb_refl.
Qed.

(** C8. Every sampling call ([sample], [sample_ddim],
    [sample_ddim_sequence], [sample_diffusion_sequence]) given a condition
    [y] that is not [None] and whose length differs from [batch_size]
    raises [ValueError] with the world untouched: no noise has been drawn
    and the network has not been called.  When the lengths match or [y]
    is [None] the check raises nothing and the call is the sampling
    computation itself. *)
Theorem sampling_checks_the_condition_length_first :
  forall (self : PointDiTDiffusion F T Net) (batch_size : Z) (y : option Y)
         (use_ema clip_denoised : bool) (gt : option T)
         (fix_indices : option (list Z)) (w : world G),
    (forall c, y = Some c -> batch_size <> len_y c ->
       sample self batch_size y use_ema w =
         (Raise (ValueError mismatch_msg), w) /\
       sample_ddim self batch_size y use_ema clip_denoised gt fix_indices w =
         (Raise (ValueError mismatch_msg), w) /\
       sample_ddim_sequence self batch_size y use_ema clip_denoised w =
         (Raise (ValueError mismatch_msg), w) /\
       sample_diffusion_sequence self batch_size y use_ema w =
         (Raise (ValueError mismatch_msg), w)) /\
    (y = None \/ (exists c, y = Some c /\ batch_size = len_y c) ->
       sample self batch_size y use_ema =
         sample_body self batch_size y use_ema /\
       sample_ddim self batch_size y use_ema clip_denoised gt fix_indices =
         sample_ddim_body self batch_size y use_ema clip_denoised gt
                          fix_indices /\
       sample_ddim_sequence self batch_size y use_ema clip_denoised =
         sample_ddim_sequence_body self batch_size y use_ema clip_denoised /\
       sample_diffusion_sequence self batch_size y use_ema =
         sample_diffusion_sequence_body self batch_size y use_ema).
Proof.
  intros self batch_size y use_ema clip_denoised gt fix_indices w. split.
  - intros c -> N.
    unfold sample, sample_ddim, sample_ddim_sequence,
      sample_diffusion_sequence.
    rewrite (@mismatch_true batch_size c N). repeat split.
  - intros Hy.
    unfold sample, sample_ddim, sample_ddim_sequence,
      sample_diffusion_sequence.
    rewrite (@mismatch_false batch_size y Hy). repeat split.
Qed.

Lemma loss_type_known (loss : string) :
  existsb (String.eqb loss) ["l1"; "l2"] = true <->
  loss = "l1" \/ loss = "l2".
Proof.
  cbn [existsb]. rewrite orb_false_r, orb_true_iff, !String.eqb_eq.
  tauto.
Qed.

(** C10. Constructing [PointDiTDiffusion] with a [loss_type] other than
    ["l1"] or ["l2"] raises [ValueError]; with ["l1"] or ["l2"] the
    validation raises nothing and the object is built with that loss
    type. *)
Theorem init_validates_the_loss_type :
  forall (net : Net) (latent channels_ : Z) (betas_ : list F)
         (loss : string) (decay : F) (start rate : Z),
    (loss <> "l1" -> loss <> "l2" ->
     init net latent channels_ betas_ loss decay start rate =
       Raise (ValueError loss_msg)) /\
    (loss = "l1" \/ loss = "l2" ->
     exists self,
       init net latent channels_ betas_ loss decay start rate = OK self /\
       loss_type self = loss /\
       num_timesteps self = Z.of_nat (length betas_)).
Proof.
  intros net latent channels_ betas_ loss decay start rate. split.
  - intros N1 N2. unfold init.
    destruct (existsb (String.eqb loss) ["l1"; "l2"]) eqn:E;
      [| reflexivity].
    apply loss_type_known in E. tauto.
  - intros K. apply loss_type_known in K. unfold init. rewrite K.
    cbn [negb]. eexists. split; [reflexivity |]. split; reflexivity.
Qed.

End DiffusionFacts.

(** * Runs on the sample inputs *)

Lemma diamond_length : length diamond = 257%nat.
Proof. reflexivity. Qed.

Lemma diamond_layer_consistent : consistent diamond_layer.
Proof. apply CSTLayer_init_consistent. Qed.

(** The skewed diamond has the ordinates of the diamond, and its points
    up to index 130. *)
Lemma skewed_diamond_ordinates : map snd skewed_diamond = map snd diamond.
Proof.
  unfold skewed_diamond, diamond. rewrite !map_map. apply map_ext.
  intros i. unfold skewed_point. now destruct (2 <? Z.of_nat i - 128).
Qed.

Lemma skewed_diamond_head : firstn 131 skewed_diamond = firstn 131 diamond.
Proof.
  unfold skewed_diamond, diamond. rewrite !firstn_map.
  apply map_ext_in. intros i I.
  assert (In i (seq 0 131)) as I' by exact I.
  apply in_seq in I'. unfold skewed_point.
  destruct (Z.ltb_spec 2 (Z.of_nat i - 128)); [lia | reflexivity].
Qed.

(** C1 on the diamond: 257 ordinates over its 129 upper stations. *)
Lemma fit_CST_on_the_diamond :
  exists yu_te yl_te au al,
    index (rev (firstn 129 diamond_ordinates)) (-1) = OK yu_te /\
    index (skipn 128 diamond_ordinates) (-1) = OK yl_te /\
    fit_CST diamond_layer diamond_ordinates 129 =
      OK (au, al, fdiv (fsub yu_te yl_te) (of_Z 2)) /\
    least_squares (A0_matrix diamond_layer)
      (zip_with fsub (rev (firstn 129 diamond_ordinates))
                (scale (x_coords diamond_layer) yu_te)) au /\
    least_squares (A0_matrix diamond_layer)
      (zip_with fsub (skipn 128 diamond_ordinates)
                (scale (x_coords diamond_layer) yl_te)) al.
Proof.
  destruct (@fit_CST_splits_and_solves_least_squares R exact exact_libm
              exact_solvers diamond_layer diamond_ordinates 129
              diamond_layer_consistent eq_refl eq_refl)
    as (yu_te & yl_te & Iu & Il & E & K).
  exists yu_te, yl_te. eexists _, _.
  split; [exact Iu |]. split; [exact Il |]. split; [exact E |].
  exact (proj2 (proj2 (proj2 (K _ _ _ E))) exact_lstsq_contract).
Defined.

(** C2 at three stations, degree 2: the middle entry of the middle row. *)
Lemma A0_matrix_middle_entry :
  nth 1 (nth 1 (A0_matrix
                  (CSTLayer_init (Some [1 / 4; 1 / 2; 3 / 4]%R) 2 129
                                 (1 / 2)%R 1%R)) []) 0%R =
  (2 / 1 / 1 * Rpow (1 / 2) (1 / 2 + 1) * Rpow (1 - 1 / 2) (2 + 1 - 1))%R.
Proof.
  exact (proj2 (proj2 (proj2
           (proj1 A0_matrix_is_the_weighted_bernstein_basis
                  R exact exact_libm [1 / 4; 1 / 2; 3 / 4]%R 2%nat 129%nat
                  (1 / 2)%R 1%R)))
           1%nat 1%nat (le_n_S _ _ (le_n_S _ _ (le_0_n _)))
           (le_n_S _ _ (le_0_n _))).
Defined.

(** C9 on the diamond. *)
Lemma fit_modes_on_the_diamond :
  exists au al te,
    fit_CST diamond_layer diamond_ordinates 129 = OK (au, al, te) /\
    fit_CST_up diamond_layer diamond_ordinates 129 = OK (au, te) /\
    fit_CST_low diamond_layer diamond_ordinates 129 = OK (al, te).
Proof.
  destruct (@fit_of_returns R exact exact_libm exact_solvers diamond
              exact_lstsq_returns (or_intror diamond_length))
    as (au & al & te & E).
  exists au, al, te. split; [exact E |].
  destruct (proj1 (@fit_modes_compute_identical_math R exact exact_libm
                     exact_solvers diamond_layer diamond_ordinates 129)
                  au al te E) as (U & L & _).
  split; assumption.
Defined.

(** C4 on the diamond. *)
Lemma features_of_the_diamond :
  exists v, get_parsec_n15 diamond = OK v /\ length v = 15%nat.
Proof.
  destruct (@fit_of_returns R exact exact_libm exact_solvers diamond
              exact_lstsq_returns (or_intror diamond_length))
    as (au & al & te & E).
  destruct (proj2 (@get_parsec_n15_returns_15_features_in_order R exact
                     exact_libm exact_solvers diamond
                     (lstsq_contract_shape exact_lstsq_contract)
                     halted_minimize_shape dense_grid_real_covers
                     diamond_length) au al te E)
    as (angle & yu & yl & K).
  destruct K as (t4u & t25u & t60u & t4l & t25l & t60l & K).
  destruct K as (yumax & ylmax & iu & xumax & il & xlmax & yr & ir & xr & K).
  destruct K as (xc & yc & rf & v & K).
  exists v. split; apply K.
Defined.

(** C5: a vertical first segment, in binary64, gives an infinite slope
    and no error. *)
Lemma vertical_pair_slope :
  exists a, leading_edge_slope vertical_pair = OK a /\
            (a = infinity \/ a = neg_infinity \/ a = nan).
Proof.
  exact (proj2 leading_edge_angle_divides_without_check
               (1, 0.5)%float (1, 0.25)%float [] eq_refl).
Defined.

(** C5 fails on the code: the first two points of [vertical_pair] and of
    [blunt_diamond] share their x-coordinate, and yet the slope is
    computed ([inf] in binary64) and the whole extraction returns its 15
    features, the angle among them. *)
Lemma vertical_leading_edge_is_not_an_error :
  leading_edge_slope vertical_pair = OK infinity /\
  fst (nth 0 blunt_diamond (0, 0)%R) = fst (nth 1 blunt_diamond (0, 0)%R) /\
  exists v,
    get_parsec_n15 blunt_diamond = OK v /\
    nth 9 v 0%R =
    degrees (atan ((1 / 100 - 3 / 100) / (1 - 1))).
Proof.
  split; [vm_compute; reflexivity |]. split; [reflexivity |].
  destruct (@get_parsec_n15_returns R exact exact_libm exact_solvers
              blunt_diamond exact_lstsq_returns
              (lstsq_contract_shape exact_lstsq_contract)
              halted_minimize_shape dense_grid_real_covers
              (or_intror eq_refl))
    as (angle & au & al & te & v & Ea & _ & Ev & Lay).
  exists v. split; [exact Ev |].
  destruct Lay as (yu & yl & t4u & t25u & t60u & t4l & t25l & t60l & Lay).
  destruct Lay as (yumax & ylmax & iu & xumax & il & xlmax & yr & ir & xr
                   & Lay).
  destruct Lay as (xc & yc & rf & Lay).
  do 17 (destruct Lay as (_ & Lay)). rewrite Lay. cbn [nth].
  unfold blunt_diamond in Ea. rewrite leading_edge_angle_of_two in Ea.
  now inversion Ea.
Qed.

(** C6 fails on the code: a 129-point input and a 257-point input whose
    lower x-grid does not mirror the upper one are both accepted. *)
Lemma malformed_inputs_are_accepted :
  length upper_only = 129%nat /\
  returns (get_parsec_n15 upper_only) /\
  length skewed_diamond = 257%nat /\
  fst (nth 125 skewed_diamond (0, 0)%R) <>
  fst (nth 131 skewed_diamond (0, 0)%R) /\
  returns (get_parsec_n15 skewed_diamond).
Proof.
  split; [reflexivity |]. split; [| split; [reflexivity | split]].
  - destruct (@get_parsec_n15_returns R exact exact_libm exact_solvers
                upper_only exact_lstsq_returns
                (lstsq_contract_shape exact_lstsq_contract)
                halted_minimize_shape dense_grid_real_covers
                (or_introl eq_refl))
      as (angle & au & al & te & v & _ & _ & Ev & _).
    now exists v.
  - cbn. lra.
  - destruct (@get_parsec_n15_returns R exact exact_libm exact_solvers
                skewed_diamond exact_lstsq_returns
                (lstsq_contract_shape exact_lstsq_contract)
                halted_minimize_shape dense_grid_real_covers
                (or_intror eq_refl))
      as (angle & au & al & te & v & _ & _ & Ev & _).
    now exists v.
Qed.

(** C6 as amended, on inputs cut from the diamond; with a solver that
    gives up, the error of the solve comes before the shape error. *)
Lemma diamond_by_length :
  get_parsec_n15 (firstn 1 diamond) = Raise IndexError /\
  get_parsec_n15 (firstn 100 diamond) = Raise IndexError /\
  get_parsec_n15 (firstn 200 diamond) = Raise (ValueError broadcast_msg) /\
  @get_parsec_n15 R exact exact_libm diverging (firstn 200 diamond) =
    Raise (LinAlgError svd_msg) /\
  returns (get_parsec_n15 upper_only) /\
  returns (get_parsec_n15 diamond) /\
  get_parsec_n15 skewed_diamond = get_parsec_n15 diamond.
Proof.
  pose proof (fun S data =>
    @get_parsec_n15_rejects_by_length_only R exact exact_libm S data) as K.
  split; [| split; [| split; [| split; [| split; [| split]]]]].
  - apply (proj1 (K exact_solvers (firstn 1 diamond))).
    apply (Nat.leb_le 2 2). reflexivity.
  - apply (proj1 (proj2 (K exact_solvers (firstn 100 diamond)))).
    split; [apply (Nat.leb_le 2 100) | apply (Nat.leb_le 101 129)];
      reflexivity.
  - apply (proj1 (proj2 (proj2 (K exact_solvers (firstn 200 diamond))))).
    + apply (Nat.leb_le 130 200). reflexivity.
    + discriminate.
  - apply (proj1 (proj2 (proj2 (K diverging (firstn 200 diamond))))).
    + apply (Nat.leb_le 130 200). reflexivity.
    + discriminate.
  - destruct (@fit_of_returns R exact exact_libm exact_solvers upper_only
                exact_lstsq_returns (or_introl eq_refl))
      as (au & al & te & E).
    exact (proj1 (proj2 (proj2 (proj2 (K exact_solvers upper_only))))
             (or_introl eq_refl)
             (lstsq_contract_shape exact_lstsq_contract)
             halted_minimize_shape dense_grid_real_covers au al te E).
  - destruct (@fit_of_returns R exact exact_libm exact_solvers diamond
                exact_lstsq_returns (or_intror eq_refl))
      as (au & al & te & E).
    exact (proj1 (proj2 (proj2 (proj2 (K exact_solvers diamond))))
             (or_intror eq_refl)
             (lstsq_contract_shape exact_lstsq_contract)
             halted_minimize_shape dense_grid_real_covers au al te E).
  - apply (proj2 (proj2 (proj2 (proj2 (K exact_solvers diamond))))).
    + apply skewed_diamond_ordinates.
    + apply skewed_diamond_head.
Defined.

(** C7 fails on the code: a run of the minimizer that reports failure and
    one that reports success return the same features, so the caller
    cannot tell them apart. *)
Lemma failed_circle_fit_is_indistinguishable :
  res_success
    (@leading_edge_circle R exact (reporting false exact_solvers) diamond)
    = false /\
  res_success
    (@leading_edge_circle R exact (reporting true exact_solvers) diamond)
    = true /\
  @get_parsec_n15 R exact exact_libm (reporting false exact_solvers) diamond
  = @get_parsec_n15 R exact exact_libm (reporting true exact_solvers) diamond
  /\
  returns
    (@get_parsec_n15 R exact exact_libm (reporting false exact_solvers)
                     diamond).
Proof.
  split; [reflexivity |]. split; [reflexivity |]. split.
  - now rewrite !reporting_same_features.
  - destruct (@get_parsec_n15_returns R exact exact_libm
                (reporting false exact_solvers) diamond
                (@reporting_lstsq_returns false)
                (lstsq_contract_shape (@reporting_lstsq_contract false))
                (reporting_minimize_shape false) dense_grid_real_covers
                (or_intror eq_refl))
      as (angle & au & al & te & v & _ & _ & Ev & _).
    now exists v.
Qed.

(** C7 as amended, on the diamond. *)
Lemma diamond_radius_ignores_the_flag :
  @get_parsec_n15 R exact exact_libm (reporting true exact_solvers) diamond
  = get_parsec_n15 diamond /\
  exists xc yc rf rest,
    res_x (leading_edge_circle diamond) = [xc; yc; rf] /\
    get_parsec_n15 diamond = OK (rf :: rest) /\
    length rest = 14%nat.
Proof.
  destruct (@circle_fit_convergence_flag_is_not_read R exact exact_libm
              exact_solvers true diamond) as (E & _ & K).
  split; [exact E |].
  destruct (@get_parsec_n15_returns R exact exact_libm exact_solvers
              diamond exact_lstsq_returns
              (lstsq_contract_shape exact_lstsq_contract)
              halted_minimize_shape dense_grid_real_covers
              (or_intror eq_refl))
    as (angle & au & al & te & v & _ & _ & Ev & _).
  destruct (K v Ev) as (xc & yc & rf & rest & Ex & -> & L).
  now exists xc, yc, rf, rest.
Defined.

(** C10 with the small torch: ["l2"] is accepted, ["huber"] is not. *)
Lemma init_on_two_loss_types :
  (exists self,
     @Diffusion.init R (list R) (list R) unit nat exact flat_torch
       tt 4 1 four_betas "l2" (9999 / 10000)%R 5000 1 = OK self /\
     Diffusion.loss_type self = "l2" /\
     Diffusion.num_timesteps self = 4) /\
  @Diffusion.init R (list R) (list R) unit nat exact flat_torch
    tt 4 1 four_betas "huber" (9999 / 10000)%R 5000 1 =
  Raise (ValueError Diffusion.loss_msg).
Proof.
  pose proof (fun loss =>
    @init_validates_the_loss_type R (list R) (list R) unit nat exact
      flat_torch tt 4 1 four_betas loss (9999 / 10000)%R 5000 1) as K.
  split.
  - apply (proj2 (K "l2")). right. reflexivity.
  - apply (proj1 (K "huber")); discriminate.
Defined.

(** C8 with the small torch: a condition of three entries against a batch
    of two is refused by all four calls in a fresh world, which stays
    fresh; without a condition [sample] is its sampling computation. *)
Lemma sampling_on_a_mismatched_condition :
  exists self,
    @Diffusion.init R (list R) (list R) unit nat exact flat_torch
      tt 4 1 four_betas "l2" (9999 / 10000)%R 5000 1 = OK self /\
    (Diffusion.sample self 2 (Some [1; 2; 3]%R) true fresh =
       (Raise (ValueError Diffusion.mismatch_msg), fresh) /\
     Diffusion.sample_ddim self 2 (Some [1; 2; 3]%R) true true None None
                           fresh =
       (Raise (ValueError Diffusion.mismatch_msg), fresh) /\
     Diffusion.sample_ddim_sequence self 2 (Some [1; 2; 3]%R) true true
                                    fresh =
       (Raise (ValueError Diffusion.mismatch_msg), fresh) /\
     Diffusion.sample_diffusion_sequence self 2 (Some [1; 2; 3]%R) true
                                         fresh =
       (Raise (ValueError Diffusion.mismatch_msg), fresh)) /\
    Diffusion.sample self 2 None true =
    Diffusion.sample_body self 2 None true.
Proof.
  eexists. split; [reflexivity |].
  match goal with
  | |- (Diffusion.sample ?self _ _ _ _ = _ /\ _) /\ _ =>
      pose proof (fun y =>
        @sampling_checks_the_condition_length_first R (list R) (list R)
          unit nat exact flat_torch self 2 y true true None None fresh) as K
  end.
  split.
  - apply (proj1 (K (Some [1; 2; 3]%R)) [1; 2; 3]%R eq_refl). discriminate.
  - apply (proj2 (K None)). left. reflexivity.
Defined.

(** * Further properties *)

(** ** The sampling loops *)

Section SamplingRuns.

Import Diffusion.

Context {F T Y Net G : Type} `{Float64 F} `{Torch F T Y Net G}.

Lemma ancestral_step_runs (self : PointDiTDiffusion F T Net)
    (batch_size : Z) (y : option Y) (use_ema : bool) (x : T) (t : Z)
    (w : world G) :
  exists x' g,
    ancestral_step self batch_size y use_ema x t w =
    (OK x', {| gen := g; log := log w ++ step_events use_ema t |}).
Proof.
  unfold ancestral_step, remove_noise, predict, bindM, ret, step_events.
  cbn [lt_value gen log].
  destruct (0 <? t).
  - unfold draw_like. cbn [gen log].
    destruct (randn_like _ (gen w)) as [z g]. eexists _, g.
    rewrite <- app_assoc. reflexivity.
  - eexists _, _. reflexivity.
Qed.

Lemma ancestral_loop_runs (self : PointDiTDiffusion F T Net)
    (batch_size : Z) (y : option Y) (use_ema : bool) (ts : list Z) :
  forall (x : T) (w : world G),
  exists x' g,
    for_each (ancestral_step self batch_size y use_ema) ts x w =
    (OK x', {| gen := g;
               log := log w ++ flat_map (step_events use_ema) ts |}).
Proof.
  induction ts as [| t ts IH]; intros x w; cbn [for_each flat_map].
  - exists x, (gen w). unfold ret. rewrite app_nil_r. now destruct w.
  - destruct (ancestral_step_runs self batch_size y use_ema x t w)
      as (x1 & g1 & E1).
    unfold bindM at 1. rewrite E1.
    destruct (IH x1 {| gen := g1; log := log w ++ step_events use_ema t |})
      as (x2 & g2 & E2).
    rewrite E2. cbn [log]. rewrite <- app_assoc. now exists x2, g2.
Qed.

(** X1. [sample]: when the condition check passes, the call never raises,
    and its effects are exactly these, in this order: one draw of the
    initial noise of shape [(batch_size, latent_size, channels)], then for
    each time step from [num_timesteps - 1] down to 0 one call of the
    network (the EMA network iff [use_ema]) followed, except at step 0,
    by one draw of noise. *)
Theorem sample_calls_the_network_once_per_step :
  forall (self : PointDiTDiffusion F T Net) (batch_size : Z)
         (y : option Y) (use_ema : bool) (w : world G),
    mismatch batch_size y = false ->
    exists x g,
      sample self batch_size y use_ema w =
      (OK x,
       {| gen := g;
          log := log w ++
                 sample_events [batch_size; latent_size self; channels self]
                               use_ema (num_timesteps self) |}).
Proof.
  intros self batch_size y use_ema w M.
  unfold sample. rewrite M. unfold sample_body, draw.
  unfold bindM at 1.
  destruct (randn [batch_size; latent_size self; channels self] (gen w))
    as [x0 g0].
  destruct (ancestral_loop_runs self batch_size y use_ema
              (countdown (num_timesteps self)) x0
              {| gen := g0;
                 log := log w ++
                        [Drawn [batch_size; latent_size self;
                                channels self]] |})
    as (x1 & g1 & E).
  unfold bindM. rewrite E. unfold ret. cbn [log].
  exists (detach_cpu x1), g1. unfold sample_events.
  rewrite <- app_assoc. reflexivity.
Qed.

Lemma bindM_OK {A B : Type} (m : M G A) (k : A -> M G B) (w w' : world G)
    (a : A) :
  m w = (OK a, w') -> bindM m k w = k a w'.
Proof. intros E. unfold bindM. now rewrite E. Qed.

Lemma bindM_Raise {A B : Type} (m : M G A) (k : A -> M G B)
    (w w' : world G) (e : exn) :
  m w = (Raise e, w') -> bindM m k w = (Raise e, w').
Proof. intros E. unfold bindM. now rewrite E. Qed.

Lemma for_each_ext {A S : Type} (f g : S -> A -> M G S) (items : list A) :
  (forall s i w, f s i w = g s i w) ->
  forall s w, for_each f items s w = for_each g items s w.
Proof.
  intros E. induction items as [| i items IH]; intros s w; cbn [for_each].
  - reflexivity.
  - unfold bindM. rewrite E. destruct (g s i w) as [[s' | e] w'];
      [apply IH | reflexivity].
Qed.

(** A loop that also appends every new state to a list ends like the
    plain loop, with one more entry per turn, the last of them the final
    state. *)
Lemma for_each_collect {A S B : Type} (body : S -> A -> M G S) (d : S -> B)
    (items : list A) :
  forall (s : S) (acc : list B) (w : world G),
    match for_each body items s w with
    | (OK s', w') =>
        exists trail,
          for_each (fun p i => s1 <~ body (fst p) i ;;
                               ret (s1, snd p ++ [d s1]))
                   items (s, acc) w = (OK (s', acc ++ trail), w') /\
          length trail = length items /\
          forall b, last (d s :: trail) b = d s'
    | (Raise e, w') =>
        for_each (fun p i => s1 <~ body (fst p) i ;;
                             ret (s1, snd p ++ [d s1]))
                 items (s, acc) w = (Raise e, w')
    end.
Proof.
  induction items as [| i items IH]; intros s acc w; cbn [for_each].
  - unfold ret. exists []. rewrite app_nil_r. repeat split.
  - cbn [fst snd].
    destruct (body s i w) as [[s1 | e] w1] eqn:E1.
    + rewrite (@bindM_OK _ _ _ _ _ _ _ E1).
      assert ((s2 <~ body s i ;; ret (s2, acc ++ [d s2])) w =
              (OK (s1, acc ++ [d s1]), w1)) as E2
        by (now rewrite (@bindM_OK _ _ _ _ _ _ _ E1)).
      rewrite (@bindM_OK _ _ _ _ _ _ _ E2).
      specialize (IH s1 (acc ++ [d s1]) w1).
      destruct (for_each body items s1 w1) as [[s' | e] w'].
      * destruct IH as (trail & E & L & K).
        exists (d s1 :: trail). rewrite E. split; [| split].
        -- now rewrite <- app_assoc.
        -- cbn [length]. now rewrite L.
        -- intros b. cbn [last]. apply (K b).
      * exact IH.
    + rewrite (@bindM_Raise _ _ _ _ _ _ _ E1).
      assert ((s2 <~ body s i ;; ret (s2, acc ++ [d s2])) w =
              (Raise e, w1)) as E2
        by (now rewrite (@bindM_Raise _ _ _ _ _ _ _ E1)).
      now rewrite (@bindM_Raise _ _ _ _ _ _ _ E2).
Qed.

Lemma ends_with_last {B : Type} (b : B) (trail : list B) (z : B) :
  (forall b0, last (b :: trail) b0 = z) ->
  exists init, b :: trail = init ++ [z] /\ length init = length trail.
Proof.
  intros K. exists (removelast (b :: trail)). split.
  - rewrite <- (K z). apply app_removelast_last. discriminate.
  - assert (b :: trail <> []) as N by discriminate.
    pose proof (app_removelast_last z N) as E.
    apply (f_equal (@length B)) in E. rewrite length_app in E.
    cbn [length] in E. cbn [length]. lia.
Qed.

(** X2. [sample_diffusion_sequence] and [sample] are the same run: from
    the same world they raise the same error or end in the same world,
    the sequence has [num_timesteps + 1] entries (the initial noise and
    one per time step), and its last entry is what [sample] returns. *)
Theorem sample_is_the_last_of_the_diffusion_sequence :
  forall (self : PointDiTDiffusion F T Net) (batch_size : Z)
         (y : option Y) (use_ema : bool) (w : world G),
    match sample_diffusion_sequence self batch_size y use_ema w with
    | (OK xs, w') =>
        exists init x,
          xs = init ++ [x] /\
          length init = Z.to_nat (num_timesteps self) /\
          sample self batch_size y use_ema w = (OK x, w')
    | (Raise e, w') => sample self batch_size y use_ema w = (Raise e, w')
    end.
Proof.
  intros self batch_size y use_ema w.
  unfold sample_diffusion_sequence, sample.
  destruct (mismatch batch_size y); [reflexivity |].
  unfold sample_diffusion_sequence_body, sample_body.
  destruct (draw [batch_size; latent_size self; channels self] w)
    as [[x0 | e] w0] eqn:E0;
    [| now rewrite !(@bindM_Raise _ _ _ _ _ _ _ E0)].
  rewrite !(@bindM_OK _ _ _ _ _ _ _ E0).
  pose proof (for_each_collect
                (ancestral_step self batch_size y use_ema) detach_cpu
                (countdown (num_timesteps self)) x0 [detach_cpu x0] w0) as K.
  rewrite (for_each_ext
             (fun p t =>
                x2 <~ ancestral_step self batch_size y use_ema (fst p) t ;;
                ret (x2, snd p ++ [detach_cpu x2]))
             (fun '(x1, acc) t =>
                x2 <~ ancestral_step self batch_size y use_ema x1 t ;;
                ret (x2, acc ++ [detach_cpu x2])))
    in K by (intros [x1 acc] t w1; reflexivity).
  destruct (for_each (ancestral_step self batch_size y use_ema)
                     (countdown (num_timesteps self)) x0 w0)
    as [[x' | e] w'] eqn:E1.
  - destruct K as (trail & E & L & Last).
    rewrite (@bindM_OK _ _ _ _ _ _ _ E), (@bindM_OK _ _ _ _ _ _ _ E1).
    unfold ret. cbn [snd app].
    destruct (@ends_with_last _ _ _ _ Last) as (init & Ei & Li).
    exists init, (detach_cpu x'). rewrite Ei. split; [reflexivity |].
    split; [| reflexivity].
    rewrite Li, L. unfold countdown. now rewrite length_map, length_seq.
  - now rewrite (@bindM_Raise _ _ _ _ _ _ _ K),
      (@bindM_Raise _ _ _ _ _ _ _ E1).
Qed.

(** The DDIM turn without repainting, keeping only the new state. *)
Lemma ddim_plain_turn (self : PointDiTDiffusion F T Net) (batch_size : Z)
    (y : option Y) (use_ema clip_denoised : bool) (gt : option T)
    (seqs : list Z * list Z) (x0 : T) (i : Z) (w : world G) :
  (xt <~ ddim_step self batch_size y use_ema clip_denoised seqs x0 i ;;
   (let '(x_prev, t) := xt in
    match @None (list Z) with
    | None => ret x_prev
    | Some idx =>
        match gt with
        | None => throw (TypeError no_gt_msg)
        | Some g =>
            z <~ draw_like g ;;
            ret (tassign x_prev idx
                   (perturb_x self g
                      {| lt_batch := lt_batch t;
                         lt_value := lt_value t - 1 |} z))
        end
    end)) w =
  (xt <~ ddim_step self batch_size y use_ema clip_denoised seqs x0 i ;;
   ret (fst xt)) w.
Proof.
  unfold bindM.
  destruct (ddim_step self batch_size y use_ema clip_denoised seqs x0 i w)
    as [[[x_prev t] | e] w']; reflexivity.
Qed.

Lemma ddim_collecting_turn (self : PointDiTDiffusion F T Net)
    (batch_size : Z) (y : option Y) (use_ema clip_denoised : bool)
    (seqs : list Z * list Z) (p : T * list T) (i : Z) (w : world G) :
  (let '(x0, acc) := p in
   xt <~ ddim_step self batch_size y use_ema clip_denoised seqs x0 i ;;
   ret (fst xt, acc ++ [fst xt])) w =
  (s1 <~ (xt <~ ddim_step self batch_size y use_ema clip_denoised seqs
                          (fst p) i ;;
          ret (fst xt)) ;;
   ret (s1, snd p ++ [(fun x : T => x) s1])) w.
Proof.
  destruct p as [x0 acc]. cbn [fst snd]. unfold bindM.
  destruct (ddim_step self batch_size y use_ema clip_denoised seqs x0 i w)
    as [[xt | e] w']; reflexivity.
Qed.

(** X3. [sample_ddim] without repainting and [sample_ddim_sequence] are
    the same run: from the same world they raise the same error or end in
    the same world, the sequence has [ddim_timesteps + 1] entries, and
    [sample_ddim] returns its last entry, detached. *)
Theorem sample_ddim_is_the_last_of_the_ddim_sequence :
  forall (self : PointDiTDiffusion F T Net) (batch_size : Z)
         (y : option Y) (use_ema clip_denoised : bool) (gt : option T)
         (w : world G),
    match sample_ddim_sequence self batch_size y use_ema clip_denoised w with
    | (OK xs, w') =>
        exists init x,
          xs = init ++ [x] /\
          length init = Z.to_nat (ddim_timesteps self) /\
          sample_ddim self batch_size y use_ema clip_denoised gt None w =
            (OK (detach_cpu x), w')
    | (Raise e, w') =>
        sample_ddim self batch_size y use_ema clip_denoised gt None w =
          (Raise e, w')
    end.
Proof.
  intros self batch_size y use_ema clip_denoised gt w.
  unfold sample_ddim_sequence, sample_ddim.
  destruct (mismatch batch_size y); [reflexivity |].
  unfold sample_ddim_sequence_body, sample_ddim_body.
  destruct (lift (G := G) (ddim_schedule self) w) as [[seqs | e] w0] eqn:E0;
    [| now rewrite !(@bindM_Raise _ _ _ _ _ _ _ E0)].
  rewrite !(@bindM_OK _ _ _ _ _ _ _ E0).
  destruct (draw [batch_size; latent_size self; channels self] w0)
    as [[x0 | e] w1] eqn:E1;
    [| now rewrite !(@bindM_Raise _ _ _ _ _ _ _ E1)].
  rewrite !(@bindM_OK _ _ _ _ _ _ _ E1).
  set (turn := fun (x : T) (i : Z) =>
         xt <~ ddim_step self batch_size y use_ema clip_denoised seqs x i ;;
         ret (fst xt)).
  pose proof (for_each_collect turn (fun x : T => x) (ddim_turns self)
                x0 [x0] w1) as K.
  assert (forall w2,
            (x' <~ for_each
                     (fun x1 i =>
                        xt <~ ddim_step self batch_size y use_ema
                                        clip_denoised seqs x1 i ;;
                        (let '(x_prev, t) := xt in
                         match @None (list Z) with
                         | None => ret x_prev
                         | Some idx =>
                             match gt with
                             | None => throw (TypeError no_gt_msg)
                             | Some g =>
                                 z <~ draw_like g ;;
                                 ret (tassign x_prev idx
                                        (perturb_x self g
                                           {| lt_batch := lt_batch t;
                                              lt_value := lt_value t - 1 |}
                                           z))
                             end
                         end))
                     (ddim_turns self) x0 ;;
             ret (detach_cpu x')) w2 =
            (x' <~ for_each turn (ddim_turns self) x0 ;;
             ret (detach_cpu x')) w2) as Plain.
  { intros w2. unfold bindM at 1 3.
    erewrite for_each_ext; [reflexivity |].
    intros x1 i w3. apply ddim_plain_turn with (gt := gt). }
  rewrite Plain. clear Plain.
  assert (forall w2,
            (xs <~ for_each
                     (fun '(x1, acc) i =>
                        xt <~ ddim_step self batch_size y use_ema
                                        clip_denoised seqs x1 i ;;
                        ret (fst xt, acc ++ [fst xt]))
                     (ddim_turns self) (x0, [x0]) ;;
             ret (snd xs)) w2 =
            (xs <~ for_each
                     (fun p i => s1 <~ turn (fst p) i ;;
                                 ret (s1, snd p ++ [(fun x : T => x) s1]))
                     (ddim_turns self) (x0, [x0]) ;;
             ret (snd xs)) w2) as Coll.
  { intros w2. unfold bindM at 1 3.
    erewrite for_each_ext; [reflexivity |].
    intros [x1 acc] i w3. cbn beta iota. cbn [fst snd]. unfold turn.
    apply (ddim_collecting_turn self batch_size y use_ema clip_denoised
             seqs (x1, acc) i w3). }
  rewrite Coll. clear Coll.
  destruct (for_each turn (ddim_turns self) x0 w1) as [[x' | e] w'] eqn:E2.
  - destruct K as (trail & E & L & Last).
    rewrite (@bindM_OK _ _ _ _ _ _ _ E), (@bindM_OK _ _ _ _ _ _ _ E2).
    unfold ret. cbn [snd app].
    destruct (@ends_with_last _ _ _ _ Last) as (init & Ei & Li).
    exists init, x'. rewrite Ei. split; [reflexivity |].
    split; [| reflexivity].
    rewrite Li, L. unfold ddim_turns, countdown.
    now rewrite length_map, length_seq.
  - now rewrite (@bindM_Raise _ _ _ _ _ _ _ K),
      (@bindM_Raise _ _ _ _ _ _ _ E2).
Qed.

Lemma init_fields (net : Net) (latent channels_ : Z) (betas_ : list F)
    (loss : string) (decay : F) (start rate : Z)
    (self : PointDiTDiffusion F T Net) :
  init net latent channels_ betas_ loss decay start rate = OK self ->
  num_timesteps self = Z.of_nat (length betas_) /\
  ddim_timesteps self = 50 /\
  latent_size self = latent /\ channels self = channels_.
Proof.
  unfold init. destruct (negb _); [discriminate |].
  intros E. injection E as <-. cbn. repeat split.
Qed.

Lemma countdown_In (n i : Z) : In i (countdown n) <-> 0 <= i < n.
Proof.
  unfold countdown. rewrite in_map_iff. split.
  - intros (k & <- & K). apply in_seq in K. lia.
  - intros K. exists (Z.to_nat (n - 1 - i)). split; [lia |].
    apply in_seq. lia.
Qed.

Lemma index_map_seq {A : Type} (f : nat -> A) (n : nat) (i : Z) :
  0 <= i < Z.of_nat n ->
  index (map f (seq 0 n)) i = OK (f (Z.to_nat i)).
Proof.
  intros K. unfold index.
  destruct (i <? 0) eqn:E; [lia |]. rewrite E.
  rewrite nth_error_map, nth_error_seq.
  destruct (Nat.ltb_spec (Z.to_nat i) n); [reflexivity | lia].
Qed.

Lemma removelast_map_seq {A : Type} (f : nat -> A) (n : nat) :
  removelast (map f (seq 0 n)) = map f (seq 0 (n - 1)).
Proof.
  destruct n as [| n]; [reflexivity |].
  rewrite seq_S, map_app. cbn [map plus]. rewrite removelast_last.
  now replace (S n - 1)%nat with n by lia.
Qed.

Lemma index_cons_pos {A : Type} (a : A) (l : list A) (i : Z) :
  0 < i -> index (a :: l) i = index l (i - 1).
Proof.
  intros K. unfold index.
  destruct (i <? 0) eqn:E; [lia |].
  destruct (i - 1 <? 0) eqn:E1; [lia |]. rewrite E, E1.
  replace (Z.to_nat i) with (S (Z.to_nat (i - 1))) by lia. reflexivity.
Qed.

(** The stride of the DDIM schedule and the number of strided steps. *)
Lemma ddim_stride (D T0 : Z) :
  0 < D <= T0 -> 1 <= T0 / D /\ D <= (T0 + T0 / D - 1) / (T0 / D).
Proof.
  intros K.
  assert (1 <= T0 / D) as C
    by (apply Z.div_le_lower_bound; lia).
  split; [exact C |].
  apply Z.div_le_lower_bound; [lia |].
  pose proof (Z.mul_div_le T0 D ltac:(lia)). nia.
Qed.

Lemma ddim_schedule_returns (self : PointDiTDiffusion F T Net) :
  0 < ddim_timesteps self <= num_timesteps self ->
  exists seqs,
    ddim_schedule self = OK seqs /\
    forall i, 0 <= i < ddim_timesteps self ->
      index (fst seqs) i =
        OK (i * (num_timesteps self / ddim_timesteps self) + 1) /\
      index (snd seqs) i =
        OK (if i =? 0 then 0
            else (i - 1) * (num_timesteps self / ddim_timesteps self) + 1).
Proof.
  intros K. destruct (ddim_stride K) as (C & N).
  unfold ddim_schedule, py_range.
  set (c := num_timesteps self / ddim_timesteps self) in *.
  destruct (ddim_timesteps self =? 0) eqn:E0; [lia |].
  destruct (c =? 0) eqn:E1; [lia |].
  destruct (0 <? c) eqn:E2; [| lia].
  destruct (0 <? num_timesteps self) eqn:E3; [| lia].
  cbn [andb bind].
  set (count := (num_timesteps self + c - 1) / c) in *.
  eexists. split; [reflexivity |].
  intros i I. cbn [fst snd]. rewrite map_map. split.
  - rewrite index_map_seq by (clearbody count c; lia).
    now rewrite Z2Nat.id by lia.
  - destruct (Z.eqb_spec i 0) as [-> | N0]; [reflexivity |].
    rewrite index_cons_pos by lia.
    rewrite removelast_map_seq, index_map_seq by (clearbody count c; lia).
    now rewrite Z2Nat.id by lia.
Qed.

Lemma for_each_logs {A S : Type} (body : S -> A -> M G S)
    (ev : A -> list event) (items : list A) :
  (forall s i w, In i items ->
     exists s' g, body s i w = (OK s', {| gen := g; log := log w ++ ev i |})) ->
  forall s w,
  exists s' g,
    for_each body items s w =
    (OK s', {| gen := g; log := log w ++ flat_map ev items |}).
Proof.
  induction items as [| i items IH]; intros B s w; cbn [for_each flat_map].
  - exists s, (gen w). unfold ret. rewrite app_nil_r. now destruct w.
  - destruct (B s i w (or_introl eq_refl)) as (s1 & g1 & E1).
    unfold bindM at 1. rewrite E1.
    destruct (IH (fun s0 i0 w0 K => B s0 i0 w0 (or_intror K)) s1
                 {| gen := g1; log := log w ++ ev i |})
      as (s2 & g2 & E2).
    rewrite E2. cbn [log]. rewrite <- app_assoc. now exists s2, g2.
Qed.

Lemma ddim_step_runs (self : PointDiTDiffusion F T Net) (batch_size : Z)
    (y : option Y) (use_ema clip_denoised : bool) (seqs : list Z * list Z)
    (x : T) (i ti pi : Z) (w : world G) :
  index (fst seqs) i = OK ti ->
  index (snd seqs) i = OK pi ->
  exists x' g,
    ddim_step self batch_size y use_ema clip_denoised seqs x i w =
    (OK (x', {| lt_batch := batch_size; lt_value := ti |}),
     {| gen := g; log := log w ++ [Forward use_ema ti; DrawnLike] |}).
Proof.
  intros E1 E2. unfold ddim_step. rewrite E1, E2.
  unfold lift, bindM, predict, draw_like, ret. cbn [gen log lt_value].
  destruct (randn_like x (gen w)) as [z g]. eexists _, g.
  rewrite <- app_assoc. reflexivity.
Qed.

(** X4. The DDIM time steps of a model built by [__init__] from at least
    50 betas: with [c = num_timesteps // 50], turn [i] of the loop (for
    [i] from 49 down to 0) reads time step [i * c + 1] and previous time
    step [(i - 1) * c + 1] (0 at [i = 0]) from the two schedules without
    an [IndexError]; every time step lies between 1 and [num_timesteps],
    below [num_timesteps] when there are more than 50 betas, and with
    exactly 50 betas the first turn reads time step 50, the number of
    entries of the schedule buffers. *)
Theorem ddim_time_steps_are_strided :
  forall (net : Net) (latent channels_ : Z) (betas_ : list F)
         (loss : string) (decay : F) (start rate : Z)
         (self : PointDiTDiffusion F T Net),
    init net latent channels_ betas_ loss decay start rate = OK self ->
    50 <= Z.of_nat (length betas_) ->
    exists seqs,
      ddim_schedule self = OK seqs /\
      (forall i, In i (ddim_turns self) ->
         index (fst seqs) i = OK (i * (Z.of_nat (length betas_) / 50) + 1) /\
         index (snd seqs) i =
           OK (if i =? 0 then 0
               else (i - 1) * (Z.of_nat (length betas_) / 50) + 1) /\
         1 <= i * (Z.of_nat (length betas_) / 50) + 1
           <= Z.of_nat (length betas_) /\
         (50 < Z.of_nat (length betas_) ->
          i * (Z.of_nat (length betas_) / 50) + 1
            < Z.of_nat (length betas_))) /\
      (Z.of_nat (length betas_) = 50 ->
       index (fst seqs) 49 = OK (Z.of_nat (length betas_))).
Proof.
  intros net latent channels_ betas_ loss decay start rate self E L.
  destruct (init_fields _ _ _ _ _ _ _ _ E) as (NT & DT & _ & _).
  destruct (@ddim_schedule_returns self) as (seqs & S & I);
    [rewrite NT, DT; lia |].
  rewrite NT, DT in I.
  exists seqs. split; [exact S |]. split.
  - intros i K. unfold ddim_turns in K. rewrite DT in K.
    apply countdown_In in K.
    destruct (I i K) as (I1 & I2). split; [exact I1 |].
    split; [exact I2 |].
    pose proof (Z.mul_div_le (Z.of_nat (length betas_)) 50 ltac:(lia)) as M.
    assert (1 <= Z.of_nat (length betas_) / 50) as C
      by (apply Z.div_le_lower_bound; lia).
    set (c := Z.of_nat (length betas_) / 50) in *. clearbody c.
    split; [nia |]. intros L1.
    destruct (Z.eq_dec c 1) as [-> | N1]; [lia | nia].
  - intros L1. rewrite L1 in *.
    destruct (I 49 ltac:(lia)) as (I1 & _). rewrite I1. reflexivity.
Qed.

(** X5. A model built from fewer than 50 betas cannot be sampled with
    DDIM: the stride [num_timesteps // 50] is 0, and (once the condition
    check has passed) [sample_ddim] and [sample_ddim_sequence] raise the
    [ValueError] of [range] with a zero step, before any noise is drawn
    and before the network is called. *)
Theorem ddim_needs_fifty_time_steps :
  forall (net : Net) (latent channels_ : Z) (betas_ : list F)
         (loss : string) (decay : F) (start rate : Z)
         (self : PointDiTDiffusion F T Net) (batch_size : Z) (y : option Y)
         (use_ema clip_denoised : bool) (gt : option T)
         (fix_indices : option (list Z)) (w : world G),
    init net latent channels_ betas_ loss decay start rate = OK self ->
    Z.of_nat (length betas_) < 50 ->
    mismatch batch_size y = false ->
    sample_ddim self batch_size y use_ema clip_denoised gt fix_indices w =
      (Raise (ValueError range_msg), w) /\
    sample_ddim_sequence self batch_size y use_ema clip_denoised w =
      (Raise (ValueError range_msg), w).
Proof.
  intros net latent channels_ betas_ loss decay start rate self batch_size
         y use_ema clip_denoised gt fix_indices w E L M.
  destruct (init_fields _ _ _ _ _ _ _ _ E) as (NT & DT & _ & _).
  assert (ddim_schedule self = Raise (ValueError range_msg)) as S.
  { unfold ddim_schedule, py_range. rewrite NT, DT.
    rewrite Z.div_small by lia. reflexivity. }
  unfold sample_ddim, sample_ddim_sequence. rewrite M.
  unfold sample_ddim_body, sample_ddim_sequence_body, bindM, lift.
  rewrite S. split; reflexivity.
Qed.

Lemma ddim_turn_runs (self : PointDiTDiffusion F T Net) (batch_size : Z)
    (y : option Y) (use_ema clip_denoised : bool) (gt : option T)
    (fix_indices : option (list Z)) (seqs : list Z * list Z)
    (x : T) (i ti pi : Z) (w : world G) :
  index (fst seqs) i = OK ti ->
  index (snd seqs) i = OK pi ->
  fix_indices = None \/ gt <> None ->
  exists x' g,
    (xt <~ ddim_step self batch_size y use_ema clip_denoised seqs x i ;;
     (let '(x_prev, t) := xt in
      match fix_indices with
      | None => ret x_prev
      | Some idx =>
          match gt with
          | None => throw (TypeError no_gt_msg)
          | Some g =>
              z <~ draw_like g ;;
              ret (tassign x_prev idx
                     (perturb_x self g
                        {| lt_batch := lt_batch t;
                           lt_value := lt_value t - 1 |} z))
          end
      end)) w =
    (OK x', {| gen := g;
               log := log w ++
                      ddim_turn_events use_ema (repaints fix_indices) ti |}).
Proof.
  intros E1 E2 Given.
  destruct (@ddim_step_runs self batch_size y use_ema clip_denoised seqs x i
              ti pi w E1 E2) as (x1 & g1 & E).
  erewrite bindM_OK by exact E.
  destruct fix_indices as [idx |]; cbn [repaints ddim_turn_events].
  - destruct gt as [g |]; [| destruct Given; [discriminate | congruence]].
    unfold bindM, draw_like, ret. cbn [gen log].
    destruct (randn_like g g1) as [z g2]. eexists _, g2.
    rewrite <- app_assoc. reflexivity.
  - unfold ret. now eexists _, g1.
Qed.

(** X6. [sample_ddim] on a model built from more than 50 betas, with the
    condition check passed and a ground truth given whenever indices are
    to be repainted: the call returns, and its effects are one draw of the
    initial noise of shape [(batch_size, latent_size, channels)] followed,
    for each [i] from 49 down to 0, by one call of the network at time
    step [i * c + 1] (the EMA network iff [use_ema]), one draw of noise,
    and a second draw when repainting: 50 network calls whatever the
    number of training steps.  (The network and the tensor operations are
    taken to return.) *)
Theorem sample_ddim_calls_the_network_fifty_times :
  forall (net : Net) (latent channels_ : Z) (betas_ : list F)
         (loss : string) (decay : F) (start rate : Z)
         (self : PointDiTDiffusion F T Net) (batch_size : Z) (y : option Y)
         (use_ema clip_denoised : bool) (gt : option T)
         (fix_indices : option (list Z)) (w : world G),
    init net latent channels_ betas_ loss decay start rate = OK self ->
    50 < Z.of_nat (length betas_) ->
    mismatch batch_size y = false ->
    fix_indices = None \/ gt <> None ->
    exists x g,
      sample_ddim self batch_size y use_ema clip_denoised gt fix_indices w =
      (OK x,
       {| gen := g;
          log := log w ++
                 ddim_events [batch_size; latent; channels_] use_ema
                             (repaints fix_indices)
                             (Z.of_nat (length betas_) / 50) 50 |}).
Proof.
  intros net latent channels_ betas_ loss decay start rate self batch_size
         y use_ema clip_denoised gt fix_indices w E L M Given.
  destruct (init_fields _ _ _ _ _ _ _ _ E) as (NT & DT & LS & CH).
  destruct (@ddim_schedule_returns self) as (seqs & S & I);
    [rewrite NT, DT; lia |].
  rewrite NT, DT in I.
  unfold sample_ddim. rewrite M. unfold sample_ddim_body.
  unfold bindM at 1, lift. rewrite S.
  unfold bindM at 1, draw. rewrite LS, CH.
  destruct (randn [batch_size; latent; channels_] (gen w)) as [x0 g0].
  match goal with
  | |- context [for_each ?body ?items x0] =>
      destruct (@for_each_logs _ _ body
                  (fun i => ddim_turn_events use_ema (repaints fix_indices)
                              (i * (Z.of_nat (length betas_) / 50) + 1))
                  items) with (s := x0)
        (w := {| gen := g0;
                 log := log w ++ [Drawn [batch_size; latent; channels_]] |})
        as (x1 & g1 & R)
  end.
  - intros s i w1 K. unfold ddim_turns in K. rewrite DT in K.
    apply countdown_In in K. destruct (I i K) as (I1 & I2).
    cbv beta. eapply ddim_turn_runs; [exact I1 | exact I2 | exact Given].
  - erewrite bindM_OK by exact R. unfold ret. cbn [log].
    exists (detach_cpu x1), g1. unfold ddim_events, ddim_turns.
    rewrite DT, <- app_assoc. reflexivity.
Qed.

(** X7. [sample_ddim] with [fix_indices] given but no [gt]: the missing
    ground truth is not detected up front.  On a model built from more
    than 50 betas the call draws the initial noise, calls the network once
    (at time step [49 * c + 1]), draws the noise of the first turn, and
    only then raises [TypeError]. *)
Theorem repainting_without_gt_fails_after_the_first_network_call :
  forall (net : Net) (latent channels_ : Z) (betas_ : list F)
         (loss : string) (decay : F) (start rate : Z)
         (self : PointDiTDiffusion F T Net) (batch_size : Z) (y : option Y)
         (use_ema clip_denoised : bool) (idx : list Z) (w : world G),
    init net latent channels_ betas_ loss decay start rate = OK self ->
    50 < Z.of_nat (length betas_) ->
    mismatch batch_size y = false ->
    exists g,
      sample_ddim self batch_size y use_ema clip_denoised None (Some idx) w =
      (Raise (TypeError no_gt_msg),
       {| gen := g;
          log := log w ++
                 [Drawn [batch_size; latent; channels_];
                  Forward use_ema (49 * (Z.of_nat (length betas_) / 50) + 1);
                  DrawnLike] |}).
Proof.
  intros net latent channels_ betas_ loss decay start rate self batch_size
         y use_ema clip_denoised idx w E L M.
  destruct (init_fields _ _ _ _ _ _ _ _ E) as (NT & DT & LS & CH).
  destruct (@ddim_schedule_returns self) as (seqs & S & I);
    [rewrite NT, DT; lia |].
  rewrite NT, DT in I. destruct (I 49 ltac:(lia)) as (I1 & I2).
  unfold sample_ddim. rewrite M. unfold sample_ddim_body.
  unfold bindM at 1, lift. rewrite S.
  unfold bindM at 1, draw. rewrite LS, CH.
  destruct (randn [batch_size; latent; channels_] (gen w)) as [x0 g0].
  unfold ddim_turns. rewrite DT.
  change (countdown 50) with (49 :: countdown 49). cbn [for_each].
  destruct (@ddim_step_runs self batch_size y use_ema clip_denoised seqs x0
              49 _ _
              {| gen := g0;
                 log := log w ++ [Drawn [batch_size; latent; channels_]] |}
              I1 I2) as (x1 & g1 & R).
  exists g1.
  erewrite bindM_Raise; [reflexivity |].
  erewrite bindM_Raise; [reflexivity |].
  erewrite bindM_OK by exact R.
  unfold throw. cbn [log]. now rewrite <- app_assoc.
Qed.

End SamplingRuns.

(** ** The exponential moving average *)

Section EmaFacts.

Import Diffusion.

Context {F T Y G : Type} `{Float64 F} `{Torch F T Y (list T) G}.

Lemma update_ema_fields (self : PointDiTDiffusion F T (list T)) :
  step (snd (update_ema self)) = step self + 1 /\
  model (snd (update_ema self)) = model self /\
  ema_decay (snd (update_ema self)) = ema_decay self /\
  ema_start (snd (update_ema self)) = ema_start self /\
  ema_update_rate (snd (update_ema self)) = ema_update_rate self.
Proof.
  unfold update_ema.
  destruct (ema_update_rate self =? 0); [cbn; repeat split |].
  destruct (_ mod _ =? 0); [| cbn; repeat split].
  destruct (_ <? ema_start self); cbn; repeat split.
Qed.

Lemma update_ema_times_fields (n : nat) :
  forall self : PointDiTDiffusion F T (list T),
  step (update_ema_times n self) = step self + Z.of_nat n /\
  model (update_ema_times n self) = model self /\
  ema_decay (update_ema_times n self) = ema_decay self /\
  ema_start (update_ema_times n self) = ema_start self /\
  ema_update_rate (update_ema_times n self) = ema_update_rate self.
Proof.
  induction n as [| n IH]; intros self; cbn [update_ema_times].
  - repeat split. lia.
  - destruct (IH (snd (update_ema self))) as (S1 & M1 & D1 & A1 & R1).
    destruct (update_ema_fields self) as (S0 & M0 & D0 & A0 & R0).
    rewrite S1, M1, D1, A1, R1, S0, M0, D0, A0, R0. repeat split. lia.
Qed.

(** One more step crosses a multiple of the rate or it does not. *)
Lemma div_succ (s r : Z) :
  0 < r ->
  (s + 1) / r = s / r + (if (s + 1) mod r =? 0 then 1 else 0).
Proof.
  intros R0. destruct (Z.eqb_spec ((s + 1) mod r) 0) as [E | N];
    Z.div_mod_to_equations; nia.
Qed.

(** X8. [update_ema] during warm-up: over [n] calls that all stay below
    [ema_start], with a positive update rate, the step counter advances by
    [n], the model is untouched, and the EMA model ends as a copy of the
    model if a multiple of the update rate was reached among the steps
    [step + 1 .. step + n], and is unchanged otherwise. *)
Theorem update_ema_copies_the_model_during_warm_up :
  forall (self : PointDiTDiffusion F T (list T)) (n : nat),
    0 < ema_update_rate self ->
    step self + Z.of_nat n < ema_start self ->
    step (update_ema_times n self) = step self + Z.of_nat n /\
    model (update_ema_times n self) = model self /\
    ema_model (update_ema_times n self) =
      (if step self / ema_update_rate self
            <? (step self + Z.of_nat n) / ema_update_rate self
       then model self else ema_model self).
Proof.
  intros self n. revert self.
  induction n as [| n IH]; intros self R0 W.
  - cbn [update_ema_times]. rewrite Z.add_0_r, Z.ltb_irrefl.
    repeat split.
  - destruct (update_ema_times_fields (S n) self) as (S1 & M1 & _).
    split; [exact S1 |]. split; [exact M1 |].
    cbn [update_ema_times].
    destruct (update_ema_fields self) as (S0 & M0 & _ & A0 & R1).
    destruct (IH (snd (update_ema self))) as (_ & _ & E);
      [rewrite R1; exact R0 | rewrite S0, A0; lia |].
    rewrite E, S0, M0, R1. clear E IH S1 M1.
    replace (step self + 1 + Z.of_nat n)
      with (step self + Z.of_nat (S n)) by lia.
    pose proof (div_succ (step self) R0) as D.
    assert ((step self + 1) / ema_update_rate self
            <= (step self + Z.of_nat (S n)) / ema_update_rate self) as Mono
      by (apply Z.div_le_mono; lia).
    unfold update_ema.
    destruct (Z.eqb_spec (ema_update_rate self) 0) as [Z0 | _]; [lia |].
    destruct (Z.ltb_spec (step self + 1) (ema_start self)) as [_ | B];
      [| lia].
    destruct ((step self + 1) mod ema_update_rate self =? 0);
      cbn [snd ema_model with_step_and_ema].
    + destruct (Z.ltb_spec (step self / ema_update_rate self)
                  ((step self + Z.of_nat (S n)) / ema_update_rate self));
        [| lia].
      now destruct (_ <? _).
    + rewrite D, Z.add_0_r. reflexivity.
Qed.

(** X9. [update_ema] with [ema_update_rate = 0]: every call raises
    [ZeroDivisionError] from the modulo, after the step counter has been
    incremented; over repeated (caught) calls the counter keeps advancing
    and the EMA model stays as it was. *)
Theorem update_ema_counts_the_step_before_it_divides :
  forall (self : PointDiTDiffusion F T (list T)) (n : nat),
    ema_update_rate self = 0 ->
    fst (update_ema (update_ema_times n self)) = Raise ZeroDivisionError /\
    step (update_ema_times (S n) self) = step self + Z.of_nat n + 1 /\
    ema_model (update_ema_times (S n) self) = ema_model self.
Proof.
  intros self n R0.
  destruct (update_ema_times_fields n self) as (_ & _ & _ & _ & Rn).
  destruct (update_ema_times_fields (S n) self) as (Sn & _).
  split; [| split].
  - unfold update_ema. now rewrite Rn, R0.
  - rewrite Sn. lia.
  - clear Sn Rn. revert self R0.
    induction (S n) as [| k IH]; intros self R0; [reflexivity |].
    cbn [update_ema_times].
    destruct (update_ema_fields self) as (_ & _ & _ & _ & R1).
    rewrite IH by (now rewrite R1).
    unfold update_ema. now rewrite R0.
Qed.

End EmaFacts.

Section EmaReal.

Import Diffusion.

#[local] Existing Instance param_torch.

Local Open Scope R_scope.

Lemma nth_average (d : R) (e c : list R) (k : nat) :
  length e = length c ->
  nth k (zip_with Rplus (map (Rmult d) e) (map (Rmult (1 - d)) c)) 0 =
  d * nth k e 0 + (1 - d) * nth k c 0.
Proof.
  revert c k. induction e as [| u e IH]; intros [| v c] k L;
    try discriminate L.
  - destruct k; cbn; ring.
  - destruct k as [| k]; [reflexivity |].
    cbn [map zip_with nth]. apply IH. now injection L.
Qed.

Lemma update_model_average_entry (d : R) (ema current : list (list R)) :
  same_shapes ema current ->
  forall j k,
    nth k (nth j (@update_model_average R (list R) (list R) nat exact
                    param_torch d ema current) []) 0 =
    d * nth k (nth j ema []) 0 + (1 - d) * nth k (nth j current []) 0.
Proof.
  induction 1 as [| e c ema current L _ IH]; intros j k.
  - destruct j, k; cbn; ring.
  - destruct j as [| j]; cbn [update_model_average nth].
    + unfold update_average. cbn [tadd tscale param_torch fsub of_Z exact].
      now apply nth_average.
    + apply IH.
Qed.

Lemma update_model_average_shapes (d : R) (ema current : list (list R)) :
  same_shapes ema current ->
  same_shapes (@update_model_average R (list R) (list R) nat exact
                 param_torch d ema current) current.
Proof.
  induction 1 as [| e c ema current L _ IH]; cbn [update_model_average].
  - constructor.
  - constructor; [| exact IH].
    unfold update_average. cbn [tadd tscale param_torch].
    rewrite zip_with_length; rewrite !length_map; [exact L | exact L].
Qed.

(** X10. [update_ema] after warm-up, in exact arithmetic on flat
    tensors, against a model that does not change: each EMA parameter
    approaches the model's geometrically.  After [n] calls, [N] of which
    fell on a multiple of the update rate, every entry of the EMA model is
    [m + decay^N * (e - m)], with [e] its initial value and [m] the
    model's entry. *)
Theorem ema_approaches_the_model_geometrically :
  forall (self : PointDiTDiffusion R (list R) (list (list R)))
         (n j k : nat),
    (0 < ema_update_rate self)%Z ->
    (ema_start self <= step self + 1)%Z ->
    same_shapes (ema_model self) (model self) ->
    nth k (nth j (ema_model
                    (@update_ema_times R (list R) (list R) nat exact
                       param_torch n self)) []) 0 =
    nth k (nth j (model self) []) 0 +
    ema_decay self
      ^ Z.to_nat ((step self + Z.of_nat n) / ema_update_rate self
                  - step self / ema_update_rate self) *
    (nth k (nth j (ema_model self) []) 0 - nth k (nth j (model self) []) 0).
Proof.
  intros self n j k. revert self.
  induction n as [| n IH]; intros self R0 W Sh.
  - cbn [update_ema_times]. rewrite Z.add_0_r, Z.sub_diag.
    cbn [Z.to_nat pow]. ring.
  - cbn [update_ema_times].
    destruct (@update_ema_fields R (list R) (list R) nat exact param_torch
                self) as (S0 & M0 & D0 & A0 & R1).
    pose proof (div_succ (step self) R0) as D.
    assert ((step self + 1) / ema_update_rate self
            <= (step self + Z.of_nat (S n)) / ema_update_rate self)%Z
      as Mono by (apply Z.div_le_mono; lia).
    assert (same_shapes (ema_model (snd (update_ema self))) (model self)
            /\ nth k (nth j (ema_model (snd (update_ema self))) []) 0 =
               if ((step self + 1) mod ema_update_rate self =? 0)%Z
               then ema_decay self * nth k (nth j (ema_model self) []) 0
                    + (1 - ema_decay self) * nth k (nth j (model self) []) 0
               else nth k (nth j (ema_model self) []) 0) as (Sh1 & E1).
    { unfold update_ema.
      destruct (Z.eqb_spec (ema_update_rate self) 0) as [Z0 | _]; [lia |].
      destruct (Z.ltb_spec (step self + 1) (ema_start self)) as [B | _];
        [lia |].
      destruct ((step self + 1) mod ema_update_rate self =? 0)%Z;
        cbn [snd ema_model with_step_and_ema].
      - split; [now apply update_model_average_shapes |].
        now apply update_model_average_entry.
      - split; [exact Sh | reflexivity]. }
    rewrite IH; [| now rewrite R1 | rewrite S0, A0; lia | now rewrite M0].
    rewrite S0, M0, D0, R1, E1.
    replace (step self + 1 + Z.of_nat n)%Z
      with (step self + Z.of_nat (S n))%Z by lia.
    rewrite D in *.
    destruct ((step self + 1) mod ema_update_rate self =? 0)%Z.
    + replace (Z.to_nat ((step self + Z.of_nat (S n)) / ema_update_rate self
                         - step self / ema_update_rate self))
        with (S (Z.to_nat
                   ((step self + Z.of_nat (S n)) / ema_update_rate self
                    - (step self / ema_update_rate self + 1)))) by lia.
      cbn [pow]. ring.
    + rewrite Z.add_0_r. reflexivity.
Qed.

End EmaReal.

(** ** The cosine schedule *)

Section ScheduleFacts.

Local Open Scope R_scope.

Lemma Rpow_square (x : R) : Rpow x 2 = x * x.
Proof.
  unfold Rpow. destruct (Rlt_dec 0 x) as [P | N].
  - replace 2 with (INR 2) by (simpl; lra).
    rewrite Rpower_pow by exact P. simpl. ring.
  - destruct (Req_dec_T x 0) as [-> | NZ].
    + destruct (Req_dec_T 2 0); [lra | ring].
    + rewrite Rceil_IZR.
      destruct (Req_dec_T 2 2) as [_ | B]; [| now contradiction B].
      simpl. ring.
Qed.

Lemma div_le_one (a b : R) : 0 < b -> a <= b -> a / b <= 1.
Proof.
  intros B L. apply (Rmult_le_reg_r b); [exact B |].
  unfold Rdiv. rewrite Rmult_assoc, Rinv_l by lra. lra.
Qed.

Lemma div_lt_one (a b : R) : 0 < b -> a < b -> a / b < 1.
Proof.
  intros B L. apply (Rmult_lt_reg_r b); [exact B |].
  unfold Rdiv. rewrite Rmult_assoc, Rinv_l by lra. lra.
Qed.

Lemma py_min_real (a b : R) : py_min a b = Rmin a b.
Proof.
  unfold py_min, fltb. cbn [fleb exact]. unfold Rleb.
  destruct (Rle_dec b a) as [L | L], (Rle_dec a b) as [L' | L'];
    cbn [andb negb].
  - rewrite Rmin_left by exact L'. reflexivity.
  - rewrite Rmin_right by exact L. reflexivity.
  - rewrite Rmin_left by exact L'. reflexivity.
  - lra.
Qed.

Lemma cosine_f_real (s : R) (t T : Z) :
  cosine_f s t T =
  cos ((IZR t / IZR T + s) / (1 + s) * PI / 2)
  * cos ((IZR t / IZR T + s) / (1 + s) * PI / 2).
Proof. unfold cosine_f. cbn [fpow fcos exact_libm]. apply Rpow_square. Qed.

(** The angle of the cosine schedule runs from above 0 to a right angle. *)
Lemma cosine_angle (s : R) (t T : Z) :
  (1 <= T)%Z -> 0 < s -> (0 <= t <= T)%Z ->
  0 < (IZR t / IZR T + s) / (1 + s) * PI / 2 <= PI / 2 /\
  ((t < T)%Z -> (IZR t / IZR T + s) / (1 + s) * PI / 2 < PI / 2).
Proof.
  intros T1 S0 Rg.
  assert (0 < IZR T) as TP by (apply IZR_lt; lia).
  assert (0 <= IZR t <= IZR T) as (t0 & tT)
    by (split; apply IZR_le; lia).
  pose proof PI_RGT_0 as P.
  assert (0 <= IZR t / IZR T <= 1) as (q0 & q1).
  { split.
    - apply Rmult_le_pos; [exact t0 | left; now apply Rinv_0_lt_compat].
    - apply div_le_one; lra. }
  assert (0 < (IZR t / IZR T + s) / (1 + s) <= 1) as (u0 & u1).
  { split.
    - apply Rdiv_lt_0_compat; lra.
    - apply div_le_one; lra. }
  split; [split |].
  - apply Rdiv_lt_0_compat; [| lra]. apply Rmult_lt_0_compat; lra.
  - nra.
  - intros Lt. assert (IZR t < IZR T) as tlt by (apply IZR_lt; lia).
    assert (IZR t / IZR T < 1) as q1' by (apply div_lt_one; lra).
    assert ((IZR t / IZR T + s) / (1 + s) < 1) as u1'
      by (apply div_lt_one; lra).
    nra.
Qed.

Lemma cosine_f_positive (s : R) (t T : Z) :
  (1 <= T)%Z -> 0 < s -> (0 <= t < T)%Z -> 0 < cosine_f s t T.
Proof.
  intros T1 S0 Rg. rewrite cosine_f_real.
  destruct (@cosine_angle s t T T1 S0 ltac:(lia)) as ((A0 & _) & A1).
  specialize (A1 ltac:(lia)). pose proof PI_RGT_0.
  assert (0 < cos ((IZR t / IZR T + s) / (1 + s) * PI / 2)) as C
    by (apply cos_gt_0; lra).
  now apply Rmult_lt_0_compat.
Qed.

Lemma cosine_f_decreasing (s : R) (t1 t2 T : Z) :
  (1 <= T)%Z -> 0 < s -> (0 <= t1 <= t2)%Z -> (t2 <= T)%Z ->
  0 <= cosine_f s t2 T <= cosine_f s t1 T.
Proof.
  intros T1 S0 Rg1 Rg2. rewrite !cosine_f_real.
  destruct (@cosine_angle s t1 T T1 S0 ltac:(lia)) as ((A0 & A1) & _).
  destruct (@cosine_angle s t2 T T1 S0 ltac:(lia)) as ((B0 & B1) & _).
  pose proof PI_RGT_0 as P.
  assert (0 < IZR T) as TP by (apply IZR_lt; lia).
  assert (IZR t1 <= IZR t2) as L by (apply IZR_le; lia).
  assert ((IZR t1 / IZR T + s) / (1 + s) * PI / 2
          <= (IZR t2 / IZR T + s) / (1 + s) * PI / 2) as Mono.
  { assert (IZR t1 / IZR T <= IZR t2 / IZR T) as Q.
    { apply Rmult_le_compat_r; [| exact L].
      left. now apply Rinv_0_lt_compat. }
    assert ((IZR t1 / IZR T + s) / (1 + s)
            <= (IZR t2 / IZR T + s) / (1 + s)) as U.
    { apply Rmult_le_compat_r; [| lra].
      left. apply Rinv_0_lt_compat. lra. }
    nra. }
  assert (0 <= cos ((IZR t2 / IZR T + s) / (1 + s) * PI / 2)) as C2
    by (apply cos_ge_0; lra).
  assert (cos ((IZR t2 / IZR T + s) / (1 + s) * PI / 2)
          <= cos ((IZR t1 / IZR T + s) / (1 + s) * PI / 2)) as C
    by (apply cos_decr_1; lra).
  split; [now apply Rmult_le_pos |].
  apply Rmult_le_compat; assumption.
Qed.

Lemma cosine_f_end (s : R) (T : Z) :
  (1 <= T)%Z -> 0 < s -> cosine_f s T T = 0.
Proof.
  intros T1 S0. rewrite cosine_f_real.
  assert (0 < IZR T) as TP by (apply IZR_lt; lia).
  replace ((IZR T / IZR T + s) / (1 + s) * PI / 2) with (PI / 2)
    by (field; lra).
  rewrite cos_PI2. ring.
Qed.

Lemma nth_map_seq {A : Type} (f : nat -> A) (n t : nat) (d : A) :
  (t < n)%nat -> nth t (map f (seq 0 n)) d = f t.
Proof.
  intros L. rewrite (nth_indep _ d (f 0%nat)) by
    (now rewrite length_map, length_seq).
  rewrite map_nth, seq_nth by exact L. reflexivity.
Qed.

(** One entry of the cosine schedule. *)
Lemma cosine_beta (s : R) (T : Z) (t : nat) :
  (1 <= T)%Z -> 0 < s -> (1 <= t)%nat -> (Z.of_nat t <= T)%Z ->
  0 <= 1 - cosine_f s (Z.of_nat t) T / cosine_f s 0 T
           / (cosine_f s (Z.of_nat (t - 1)) T / cosine_f s 0 T) <= 1.
Proof.
  intros T1 S0 t1 tT.
  pose proof (@cosine_f_positive s 0 T T1 S0 ltac:(lia)) as F0.
  pose proof (@cosine_f_positive s (Z.of_nat (t - 1)) T T1 S0 ltac:(lia))
    as Fp.
  destruct (@cosine_f_decreasing s (Z.of_nat (t - 1)) (Z.of_nat t) T T1 S0
              ltac:(lia) tT) as (Fn & Fd).
  replace (cosine_f s (Z.of_nat t) T / cosine_f s 0 T
           / (cosine_f s (Z.of_nat (t - 1)) T / cosine_f s 0 T))
    with (cosine_f s (Z.of_nat t) T / cosine_f s (Z.of_nat (t - 1)) T)
    by (field; lra).
  assert (0 <= cosine_f s (Z.of_nat t) T / cosine_f s (Z.of_nat (t - 1)) T)
    by (apply Rmult_le_pos; [exact Fn | left; now apply Rinv_0_lt_compat]).
  assert (cosine_f s (Z.of_nat t) T / cosine_f s (Z.of_nat (t - 1)) T <= 1)
    by (apply div_le_one; lra).
  lra.
Qed.

(** X11. [generate_cosine_schedule(T, s)] in exact arithmetic, for
    [T >= 1] and [s > 0] (the default is 0.008): it returns [T] betas,
    each within [[0, 0.999]], and the last one is exactly the clipping
    value 0.999. *)
Theorem cosine_schedule_is_clipped :
  forall (T : Z) (s : R),
    (1 <= T)%Z -> 0 < s ->
    exists betas_,
      generate_cosine_schedule T s = OK betas_ /\
      length betas_ = Z.to_nat T /\
      Forall (fun b => 0 <= b <= 999 / 1000) betas_ /\
      last betas_ 0 = 999 / 1000.
Proof.
  intros T s T1 S0. unfold generate_cosine_schedule.
  destruct (Z.eqb_spec T 0) as [Z0 | _]; [lia |].
  eexists. split; [reflexivity |].
  assert (forall t, (t <= Z.to_nat T)%nat ->
            nth t (map (fun t0 => fdiv (cosine_f s (Z.of_nat t0) T)
                                       (cosine_f s 0 T))
                       (seq 0 (Z.to_nat (T + 1)))) (of_Z 0) =
            cosine_f s (Z.of_nat t) T / cosine_f s 0 T) as Nth
    by (intros t L; rewrite nth_map_seq by lia; reflexivity).
  split; [now rewrite length_map, length_seq |]. split.
  - apply Forall_forall. intros b I. apply in_map_iff in I.
    destruct I as (t & <- & I). apply in_seq in I.
    rewrite py_min_real, !Nth by lia.
    cbn [fsub fdiv of_Z exact decimal].
    destruct (@cosine_beta s T t T1 S0 ltac:(lia) ltac:(lia)) as (B0 & B1).
    split.
    + apply Rmin_glb; [exact B0 | lra].
    + apply Rmin_r.
  - destruct (Z.to_nat T) as [| N] eqn:EN; [lia |].
    rewrite seq_S, map_app.
    match goal with
    | |- context [map ?f [?x]] => change (map f [x]) with [f x]
    end.
    rewrite last_last.
    rewrite py_min_real, !Nth by lia.
    cbn [fsub fdiv of_Z exact decimal].
    replace (Z.of_nat (1 + N)) with T by lia.
    rewrite cosine_f_end by assumption.
    pose proof (@cosine_f_positive s 0 T T1 S0 ltac:(lia)) as F0.
    pose proof (@cosine_f_positive s (Z.of_nat (1 + N - 1)) T T1 S0
                  ltac:(lia)) as Fp.
    replace (1 - 0 / cosine_f s 0 T
                 / (cosine_f s (Z.of_nat (1 + N - 1)) T
                    / cosine_f s 0 T)) with 1 by (field; lra).
    apply Rmin_right. lra.
Qed.

End ScheduleFacts.

(** ** The class function and its derivatives *)

Section ShapeCalculus.

Local Open Scope R_scope.

Lemma Rpow_positive (x y : R) : 0 < x -> Rpow x y = Rpower x y.
Proof.
  intros P. unfold Rpow. destruct (Rlt_dec 0 x); [reflexivity | lra].
Qed.

Lemma Rpower_shift (x y : R) : 0 < x -> Rpower x y = x * Rpower x (y - 1).
Proof.
  intros P. replace y with (1 + (y - 1)) at 1 by ring.
  now rewrite Rpower_plus, Rpower_1.
Qed.

(** The derivative of [x^p (1 - x)^q] inside the unit interval. *)
Lemma power_product_derivative (p q x : R) :
  0 < x < 1 ->
  derivable_pt_lim (fun z => Rpower z p * Rpower (1 - z) q) x
    (p * Rpower x (p - 1) * Rpower (1 - x) q
     - Rpower x p * (q * Rpower (1 - x) (q - 1))).
Proof.
  intros (X0 & X1).
  pose proof (derivable_pt_lim_power x p X0) as D1.
  assert (derivable_pt_lim (fun z => 1 - z) x (0 - 1)) as D2.
  { apply (derivable_pt_lim_minus (fct_cte 1) id).
    - apply derivable_pt_lim_const.
    - apply derivable_pt_lim_id. }
  assert (derivable_pt_lim (fun z => Rpower (1 - z) q) x
            (q * Rpower (1 - x) (q - 1) * (0 - 1))) as D3.
  { apply (derivable_pt_lim_comp (fun z => 1 - z) (fun z => Rpower z q)).
    - exact D2.
    - apply derivable_pt_lim_power. lra. }
  pose proof (derivable_pt_lim_mult _ _ _ _ _ D1 D3) as D.
  unfold mult_fct in D.
  replace (p * Rpower x (p - 1) * Rpower (1 - x) q
           - Rpower x p * (q * Rpower (1 - x) (q - 1)))
    with (p * Rpower x (p - 1) * Rpower (1 - x) q
          + Rpower x p * (q * Rpower (1 - x) (q - 1) * (0 - 1))) by ring.
  exact D.
Qed.

(** X15. The entries of [A1] are the derivatives of the entries of [A0]:
    in exact arithmetic and at every station strictly inside the unit
    interval, the formula of [derivative_matrix] for [A1[r]] is the
    derivative in [x] of the basis function
    [k[r] * x ** (n1 + r) * (1 - x) ** (n + n2 - r)] of [A0_matrix], for
    all exponents [n1], [n2]. *)
Theorem slope_entry_is_the_derivative_of_the_basis :
  forall (n r : nat) (e1 e2 x : R),
    0 < x < 1 ->
    derivable_pt_lim (basis_entry n e1 e2 r) x (slope_entry n e1 e2 r x).
Proof.
  intros n r e1 e2 x X.
  set (k := binomial_weight (F := R) n r).
  set (a := e1 + IZR (Z.of_nat r)).
  set (b := IZR (Z.of_nat n) + e2 - IZR (Z.of_nat r)).
  apply (derivable_pt_lim_locally_ext
           (fun z => k * (Rpower z a * Rpower (1 - z) b)) _ x 0 1);
    [exact X | |].
  - intros z Z. unfold basis_entry. cbn [fmul fadd fsub fpow of_Z exact
                                          exact_libm].
    rewrite !Rpow_positive by lra. fold k a b. ring.
  - pose proof (derivable_pt_lim_scal _ k _ _
                  (power_product_derivative a b X)) as D.
    unfold mult_real_fct in D.
    replace (slope_entry n e1 e2 r x)
      with (k * (a * Rpower x (a - 1) * Rpower (1 - x) b
                 - Rpower x a * (b * Rpower (1 - x) (b - 1))));
      [exact D |].
    unfold slope_entry, fneg.
    cbn [fmul fadd fsub fpow of_Z exact exact_libm].
    rewrite !Rpow_positive by lra. fold k a b.
    rewrite (@Rpower_shift x a), (@Rpower_shift (1 - x) b) by lra.
    ring.
Qed.

(** X16. The entries of [A2] are the derivatives of the entries of [A1],
    hence the second derivatives of the basis functions: in exact
    arithmetic and at every station strictly inside the unit interval. *)
Theorem curvature_entry_is_the_derivative_of_the_slope :
  forall (n r : nat) (e1 e2 x : R),
    0 < x < 1 ->
    derivable_pt_lim (slope_entry n e1 e2 r) x (curvature_entry n e1 e2 r x).
Proof.
  intros n r e1 e2 x X.
  set (k := binomial_weight (F := R) n r).
  set (a := e1 + IZR (Z.of_nat r)).
  set (b := IZR (Z.of_nat n) + e2 - IZR (Z.of_nat r)).
  apply (derivable_pt_lim_locally_ext
           (fun z => k * (a * (Rpower z (a - 1) * Rpower (1 - z) b)
                          - b * (Rpower z a * Rpower (1 - z) (b - 1))))
           _ x 0 1);
    [exact X | |].
  - intros z Z. unfold slope_entry, fneg.
    cbn [fmul fadd fsub fpow of_Z exact exact_libm].
    rewrite !Rpow_positive by lra. fold k a b.
    rewrite (@Rpower_shift z a), (@Rpower_shift (1 - z) b) by lra.
    ring.
  - pose proof (derivable_pt_lim_scal _ a _ _
                  (power_product_derivative (a - 1) b X)) as D1.
    pose proof (derivable_pt_lim_scal _ b _ _
                  (power_product_derivative a (b - 1) X)) as D2.
    pose proof (derivable_pt_lim_scal _ k _ _
                  (derivable_pt_lim_minus _ _ _ _ _ D1 D2)) as D.
    unfold mult_real_fct, minus_fct in D.
    match type of D with
    | derivable_pt_lim _ _ ?l =>
        replace (curvature_entry n e1 e2 r x) with l; [exact D |]
    end.
    unfold curvature_entry.
    cbn [fmul fadd fsub fpow of_Z exact exact_libm].
    rewrite !Rpow_square, !Rpow_positive by lra.
    rewrite !Z.pow_2_r, !mult_IZR, !minus_IZR, opp_IZR. fold k a b.
    replace (a - 1 - 1) with (a - 2) by ring.
    replace (b - 1 - 1) with (b - 2) by ring.
    rewrite (@Rpower_shift x a), (@Rpower_shift (1 - x) b) by lra.
    rewrite (@Rpower_shift x (a - 1)), (@Rpower_shift (1 - x) (b - 1))
      by lra.
    replace (a - 1 - 1) with (a - 2) by ring.
    replace (b - 1 - 1) with (b - 2) by ring.
    unfold a, b. ring.
Qed.

End ShapeCalculus.

Section DerivativeMatrix.

Context {F : Type} `{Float64 F} `{Libm F}.

Lemma interior_stations (x : list F) (i : nat) :
  (2 <= length x)%nat ->
  length (slice_from 1 (slice_to (-1) x)) = (length x - 2)%nat /\
  ((i < length x - 2)%nat ->
   nth i (slice_from 1 (slice_to (-1) x)) (of_Z 0) = nth (i + 1) x (of_Z 0)).
Proof.
  intros L. unfold slice_from, slice_to. cbn [Z.ltb Z.compare].
  replace (Z.to_nat (Z.of_nat (length x) + -1)) with (length x - 1)%nat
    by lia.
  change (Z.to_nat 1) with 1%nat. split.
  - rewrite length_skipn, length_firstn. lia.
  - intros I. rewrite nth_skipn, nth_firstn.
    destruct (Nat.ltb_spec (1 + i) (length x - 1)); [| lia].
    f_equal. lia.
Qed.

Lemma entry_of_rows (g : nat -> F -> F) (x : list F) (m i r : nat) :
  (i < length x)%nat -> (r < m)%nat ->
  nth r (nth i (transpose (length x)
                  (map (fun r0 => map (g r0) x) (seq 0 m))) []) (of_Z 0) =
  g r (nth i x (of_Z 0)).
Proof.
  intros I R. rewrite transpose_entry;
    [| exact I | now rewrite length_map, length_seq].
  rewrite nth_indep with (d' := map (g 0%nat) x)
    by (now rewrite length_map, length_seq).
  rewrite (map_nth (fun r0 => map (g r0) x) (seq 0 m) 0%nat r).
  rewrite seq_nth by exact R. cbn [Nat.add].
  rewrite nth_indep with (d' := g r (of_Z 0)) by (now rewrite length_map).
  apply map_nth.
Qed.

(** X14. [derivative_matrix] of a [CSTLayer] built by its constructor:
    with fewer than 2 stations it raises the [ValueError] of [np.zeros]
    with a negative dimension; otherwise it returns two arrays of
    [n_x - 2] rows and [n_cst + 1] columns, whose row [i] holds the [A1]
    and [A2] formulas at the interior station [x_coords[i + 1]]: the two
    end stations are left out. *)
Theorem derivative_matrix_covers_the_interior_stations :
  forall (xs : option (list F)) (n nx : nat) (e1 e2 : F),
    (n_x (CSTLayer_init xs n nx e1 e2) < 2)%nat /\
      derivative_matrix (CSTLayer_init xs n nx e1 e2) =
        Raise (ValueError negative_msg)
    \/
    (2 <= n_x (CSTLayer_init xs n nx e1 e2))%nat /\
      exists A1 A2,
        derivative_matrix (CSTLayer_init xs n nx e1 e2) = OK (A1, A2) /\
        length A1 = (n_x (CSTLayer_init xs n nx e1 e2) - 2)%nat /\
        length A2 = (n_x (CSTLayer_init xs n nx e1 e2) - 2)%nat /\
        Forall (fun row => length row = (n + 1)%nat) A1 /\
        Forall (fun row => length row = (n + 1)%nat) A2 /\
        forall i r,
          (i < n_x (CSTLayer_init xs n nx e1 e2) - 2)%nat -> (r <= n)%nat ->
          nth r (nth i A1 []) (of_Z 0) =
            slope_entry n e1 e2 r
              (nth (i + 1) (x_coords (CSTLayer_init xs n nx e1 e2))
                   (of_Z 0)) /\
          nth r (nth i A2 []) (of_Z 0) =
            curvature_entry n e1 e2 r
              (nth (i + 1) (x_coords (CSTLayer_init xs n nx e1 e2))
                   (of_Z 0)).
Proof.
  intros xs n nx e1 e2.
  pose proof (CSTLayer_init_consistent xs n nx e1 e2) as C.
  assert (n_cst (CSTLayer_init xs n nx e1 e2) = n /\
          n1 (CSTLayer_init xs n nx e1 e2) = e1 /\
          n2 (CSTLayer_init xs n nx e1 e2) = e2) as (En & E1 & E2)
    by (destruct xs; repeat split).
  set (self := CSTLayer_init xs n nx e1 e2) in *. unfold consistent in C.
  unfold derivative_matrix. rewrite En, E1, E2.
  destruct (Z.ltb_spec (Z.of_nat (n_x self) - 2) 0) as [Small | Big].
  - left. split; [lia | reflexivity].
  - right. split; [lia |].
    destruct (@interior_stations (x_coords self) 0 ltac:(lia)) as (Len & _).
    replace (Z.to_nat (Z.of_nat (n_x self) - 2))
      with (length (slice_from 1 (slice_to (-1) (x_coords self)))) by lia.
    eexists _, _. split; [reflexivity |].
    rewrite !transpose_length.
    split; [lia |]. split; [lia |]. split; [| split].
    + eapply Forall_impl; [| apply transpose_rows].
      intros row E. cbn beta in E. now rewrite E, length_map, length_seq.
    + eapply Forall_impl; [| apply transpose_rows].
      intros row E. cbn beta in E. now rewrite E, length_map, length_seq.
    + intros i r I R.
      destruct (@interior_stations (x_coords self) i ltac:(lia))
        as (_ & Nth).
      rewrite !entry_of_rows by lia. rewrite Nth by lia. split; reflexivity.
Qed.

End DerivativeMatrix.

Section FitEdges.

Context {F : Type} `{Float64 F} `{Libm F} `{Solvers F}.

Lemma index_last_value {A : Type} (a : list A) (v d : A) :
  index a (-1) = OK v -> a <> [] /\ v = last a d.
Proof.
  intros E. destruct a as [| u a]; [discriminate |].
  split; [discriminate |].
  rewrite (@index_last_nonempty A (u :: a) d) in E by discriminate.
  now injection E.
Qed.

Lemma last_rev_firstn {A : Type} (k : nat) (a : list A) (d : A) :
  rev (firstn k a) <> [] -> last (rev (firstn k a)) d = hd d a.
Proof.
  destruct k as [| k], a as [| u a]; cbn [firstn rev]; try congruence.
  intros _. now rewrite last_last.
Qed.

Lemma last_skipn {A : Type} (k : nat) (a : list A) (d : A) :
  skipn k a <> [] -> last (skipn k a) d = last a d.
Proof.
  revert a. induction k as [| k IH]; intros [| u a];
    cbn [skipn]; try congruence.
  intros N. rewrite IH by exact N.
  destruct a as [| v a]; [now destruct k | reflexivity].
Qed.

Lemma trailing_edge_ends (y : list F) (nx : Z) (yu_te yl_te : F) :
  trailing_edge y nx = OK (yu_te, yl_te) ->
  yu_te = hd (of_Z 0) y /\ yl_te = last y (of_Z 0).
Proof.
  unfold trailing_edge, surfaces. cbn [fst snd].
  destruct (index (rev (slice_to nx y)) (-1)) as [u |] eqn:Eu;
    [| discriminate].
  destruct (index (slice_from (nx - 1) y) (-1)) as [l |] eqn:El;
    [| discriminate].
  cbn [bind]. intros E. injection E as <- <-.
  destruct (index_last_value _ (of_Z 0) Eu) as (Nu & ->).
  destruct (index_last_value _ (of_Z 0) El) as (Nl & ->).
  unfold slice_to, slice_from in *.
  split.
  - destruct (nx <? 0); now apply last_rev_firstn.
  - destruct (nx - 1 <? 0); now apply last_skipn.
Qed.

(** X21. Whenever [fit_CST], [fit_CST_up] or [fit_CST_low] returns, its
    [te] is half the gap between the first and the last ordinate of the
    input, [(y_coords[0] - y_coords[-1]) / 2], whatever [n_x] and the
    stations are. *)
Theorem trailing_edge_gap_is_read_off_the_ends :
  forall (self : CSTLayer F) (y_coords : list F) (nx : Z),
    (forall au al te,
        fit_CST self y_coords nx = OK (au, al, te) ->
        te = fdiv (fsub (hd (of_Z 0) y_coords) (last y_coords (of_Z 0)))
                  (of_Z 2)) /\
    (forall au te,
        fit_CST_up self y_coords nx = OK (au, te) ->
        te = fdiv (fsub (hd (of_Z 0) y_coords) (last y_coords (of_Z 0)))
                  (of_Z 2)) /\
    (forall al te,
        fit_CST_low self y_coords nx = OK (al, te) ->
        te = fdiv (fsub (hd (of_Z 0) y_coords) (last y_coords (of_Z 0)))
                  (of_Z 2)).
Proof.
  intros self y_coords nx.
  rewrite fit_CST_stages, fit_CST_up_stages, fit_CST_low_stages.
  destruct (trailing_edge y_coords nx) as [[yu_te yl_te] |] eqn:E;
    cbn [bind]; [| repeat split; discriminate].
  destruct (trailing_edge_ends _ _ E) as (-> & ->).
  destruct (solve_surface self (fst (surfaces y_coords nx)) _) as [au |];
    destruct (solve_surface self (snd (surfaces y_coords nx)) _) as [al |];
    cbn [bind]; repeat split; intros; congruence.
Qed.

(** X20. Over [n_x >= 2] stations, on an input of more than [n_x]
    ordinates that is not a closed loop of [2 n_x - 1] of them:
    [fit_CST_low] raises numpy's broadcasting [ValueError]; [fit_CST] and
    [fit_CST_up] both start with the solve for the upper surface over the
    first [n_x] ordinates, and an error of [lstsq] there is the error of
    both; once that solve has returned [au], [fit_CST] raises the
    broadcasting [ValueError], while [fit_CST_up] accepts the input and
    returns [au] with the trailing-edge gap of the whole input. *)
Theorem upper_fit_accepts_what_the_joint_fit_rejects :
  forall (self : CSTLayer F) (y_coords : list F) (nx : Z),
    consistent self ->
    Z.of_nat (n_x self) = nx ->
    2 <= nx ->
    nx < Z.of_nat (length y_coords) ->
    Z.of_nat (length y_coords) <> 2 * nx - 1 ->
    fit_CST_low self y_coords nx = Raise (ValueError broadcast_msg) /\
    fit_CST self y_coords nx =
      (au <- lstsq (A0_matrix self)
               (zip_with fsub (rev (firstn (Z.to_nat nx) y_coords))
                  (scale (x_coords self) (hd (of_Z 0) y_coords))) ;;
       Raise (ValueError broadcast_msg)) /\
    fit_CST_up self y_coords nx =
      (au <- lstsq (A0_matrix self)
               (zip_with fsub (rev (firstn (Z.to_nat nx) y_coords))
                  (scale (x_coords self) (hd (of_Z 0) y_coords))) ;;
       OK (au, fdiv (fsub (hd (of_Z 0) y_coords) (last y_coords (of_Z 0)))
                    (of_Z 2))).
Proof.
  intros self y nx C N Two Long Odd. unfold consistent in C.
  assert (surfaces y nx = (rev (firstn (Z.to_nat nx) y),
                           skipn (Z.to_nat nx - 1) y)) as S.
  { unfold surfaces. rewrite slice_to_nonneg, slice_from_nonneg by lia.
    now replace (Z.to_nat (nx - 1)) with (Z.to_nat nx - 1)%nat by lia. }
  assert (length (rev (firstn (Z.to_nat nx) y)) = Z.to_nat nx) as Lu
    by (rewrite length_rev, length_firstn; lia).
  assert (length (skipn (Z.to_nat nx - 1) y)
          = (length y - (Z.to_nat nx - 1))%nat) as Ll
    by (now rewrite length_skipn).
  assert (trailing_edge y nx = OK (hd (of_Z 0) y, last y (of_Z 0))) as Te.
  { destruct (trailing_edge y nx) as [[u l] | e] eqn:E.
    - now destruct (trailing_edge_ends _ _ E) as (-> & ->).
    - exfalso. revert E. unfold trailing_edge. rewrite S. cbn [fst snd].
      rewrite (@index_last_nonempty F _ (of_Z 0))
        by (intros K; rewrite K in Lu; cbn in Lu; lia).
      rewrite (@index_last_nonempty F _ (of_Z 0))
        by (intros K; rewrite K in Ll; cbn in Ll; lia).
      discriminate. }
  assert (solve_surface self (fst (surfaces y nx)) (hd (of_Z 0) y) =
          lstsq (A0_matrix self)
            (zip_with fsub (rev (firstn (Z.to_nat nx) y))
               (scale (x_coords self) (hd (of_Z 0) y)))) as Up.
  { unfold solve_surface. rewrite S. cbn [fst].
    rewrite broadcast_same by (rewrite scale_length; lia). cbn [bind].
    apply np_lstsq_fits. rewrite A0_matrix_length, zip_with_length;
      rewrite ?scale_length; lia. }
  assert (solve_surface self (snd (surfaces y nx)) (last y (of_Z 0)) =
          Raise (ValueError broadcast_msg)) as Low.
  { unfold solve_surface. rewrite S. cbn [snd].
    rewrite broadcast_mismatch; [reflexivity | | |];
      rewrite ?scale_length; lia. }
  rewrite fit_CST_stages, fit_CST_up_stages, fit_CST_low_stages.
  rewrite Te. cbn [bind]. rewrite Up, Low. cbn [bind].
  split; [reflexivity |]. split; [| reflexivity].
  now destruct (lstsq _ _).
Qed.

End FitEdges.

Section RealFeatures.

Local Open Scope R_scope.

Lemma fsum_squares_nonneg {X : Type} (g : X -> R) (l : list X) :
  0 <= fsum (map (fun d => square (g d)) l) /\
  (fsum (map (fun d => square (g d)) l) = 0 <-> Forall (fun d => g d = 0) l).
Proof.
  rewrite fsum_real, (sumf_map (fun x => x)). unfold square.
  cbn [fmul exact]. split; [apply sumf_sq_nonneg |]. split.
  - intros E. apply Forall_forall. now apply sumf_sq_zero.
  - induction 1 as [| d l E _ IH]; cbn [sumf]; [reflexivity |].
    rewrite E, IH. ring.
Qed.

(** X19. [objective] in exact arithmetic, on as many abscissas as
    ordinates: it returns a value that is never negative, and that is 0
    exactly when every point lies at distance [r] from [(xc, yc)]. *)
Theorem objective_vanishes_exactly_on_the_circle :
  forall (xc yc r : R) (x y : list R),
    length x = length y ->
    exists v,
      objective [xc; yc; r] x y = OK v /\
      0 <= v /\
      (v = 0 <->
       Forall (fun p => R_sqrt.sqrt ((fst p - xc) * (fst p - xc)
                                     + (snd p - yc) * (snd p - yc)) = r)
              (combine x y)).
Proof.
  intros xc yc r x y L. unfold objective. cbn [unpack3 bind].
  rewrite broadcast_same by (now rewrite !length_map). cbn [bind].
  eexists. split; [reflexivity |].
  destruct (fsum_squares_nonneg
              (fun d => fsub (fsqrt d) r)
              (zip_with fadd (map (fun u => square (fsub u xc)) x)
                             (map (fun v => square (fsub v yc)) y)))
    as (N & Z).
  split; [exact N |]. rewrite Z. clear N Z.
  revert y L. induction x as [| u x IH]; intros [| v y] L;
    try discriminate L; cbn [map zip_with combine].
  - split; constructor.
  - rewrite !Forall_cons_iff, (IH y) by (now injection L).
    cbn [fst snd]. unfold square. cbn [fsub fsqrt fadd fmul exact].
    split; intros (K1 & K2); (split; [lra | exact K2]).
Qed.

(** X22. The angle feature in exact arithmetic: with fewer than two
    points [leading_edge_angle] raises [IndexError]; on an input whose
    first two points have different x-coordinates, so that the slope
    between them is a real number, it returns the arc tangent of that
    slope in degrees, an angle strictly between -90 and 90. *)
Theorem leading_edge_angle_is_an_acute_angle :
  forall (data : list (R * R)),
    ((length data < 2)%nat -> leading_edge_angle data = Raise IndexError) /\
    (forall p0 p1 rest,
        data = p0 :: p1 :: rest ->
        fst p0 <> fst p1 ->
        exists a,
          leading_edge_angle data = OK a /\
          a = atan ((snd p0 - snd p1) / (fst p0 - fst p1)) * (180 / PI) /\
          -90 < a < 90).
Proof.
  intros data. split.
  - intros L. destruct data as [| p0 [| p1 rest]];
      [reflexivity | reflexivity |]. cbn in L. lia.
  - intros p0 p1 rest -> Distinct.
    rewrite leading_edge_angle_of_two. eexists. split; [reflexivity |].
    unfold degrees. cbn [fmul fdiv fsub of_Z fatan fpi exact exact_libm].
    split; [reflexivity |].
    pose proof (atan_bound ((snd p0 - snd p1) / (fst p0 - fst p1))) as (A & B).
    pose proof PI_RGT_0 as P.
    set (t := atan ((snd p0 - snd p1) / (fst p0 - fst p1))) in *.
    assert (0 < 180 / PI) as K by (apply Rdiv_lt_0_compat; lra).
    assert (- 90 = - PI / 2 * (180 / PI)) as -> by (field; lra).
    assert (90 = PI / 2 * (180 / PI)) as -> by (field; lra).
    split; apply Rmult_lt_compat_r; assumption.
Qed.

End RealFeatures.

Section RealGrids.

Local Open Scope R_scope.

(** [np.linspace] in exact arithmetic: evenly spaced points. *)
Lemma linspace_real (a b : R) (num i : nat) :
  (2 <= num)%nat -> (i < num)%nat ->
  nth i (linspace a b num) 0 =
  a + IZR (Z.of_nat i) * ((b - a) / IZR (Z.of_nat num - 1)).
Proof.
  intros N I. unfold linspace. rewrite nth_map_seq by exact I.
  cbn [fsub fdiv fadd fmul of_Z exact].
  assert (0 < IZR (Z.of_nat num - 1)) as P by (apply IZR_lt; lia).
  destruct (Nat.ltb_spec 1 num) as [_ | B]; [| lia]. cbn [andb].
  destruct (Nat.eqb_spec (S i) num) as [E | _].
  - replace (Z.of_nat i) with (Z.of_nat num - 1)%Z by lia. field. lra.
  - destruct (feqb _ _); field; lra.
Qed.

Lemma nth_map_in_range {A B : Type} (f : A -> B) (l : list A) (i : nat)
    (d : B) (d' : A) :
  (i < length l)%nat -> nth i (map f l) d = f (nth i l d').
Proof.
  intros L. rewrite nth_indep with (d' := f d')
    by (now rewrite length_map).
  apply map_nth.
Qed.

Lemma default_station (n nx : nat) (e1 e2 : R) (i : nat) :
  (2 <= nx)%nat -> (i < nx)%nat ->
  nth i (x_coords (CSTLayer_init None n nx e1 e2)) 0 =
  (cos (PI + IZR (Z.of_nat i) * (PI / IZR (Z.of_nat nx - 1))) + 1) / 2.
Proof.
  intros N I. cbn [CSTLayer_init x_coords].
  rewrite (nth_map_in_range _ _ _ 0) by (now rewrite linspace_length).
  rewrite linspace_real by assumption.
  cbn [fsub fdiv fadd fmul fcos fpi of_Z exact exact_libm].
  assert (0 < IZR (Z.of_nat nx - 1)) as P by (apply IZR_lt; lia).
  assert (forall u v, u = v -> (cos u + 1) / 2 = (cos v + 1) / 2) as K
    by (intros u v ->; reflexivity).
  apply K. field. lra.
Qed.

(** X18. The default stations of [CSTLayer] ([x_coords=None], at least
    two of them), in exact arithmetic: [n_x] stations, the first at 0, the
    last at 1, in non-decreasing order and all within [[0, 1]]. *)
Theorem default_stations_run_from_zero_to_one :
  forall (n nx : nat) (e1 e2 : R),
    (2 <= nx)%nat ->
    n_x (CSTLayer_init None n nx e1 e2) = nx /\
    length (x_coords (CSTLayer_init None n nx e1 e2)) = nx /\
    nth 0 (x_coords (CSTLayer_init None n nx e1 e2)) 0 = 0 /\
    nth (nx - 1) (x_coords (CSTLayer_init None n nx e1 e2)) 0 = 1 /\
    forall i j, (i <= j)%nat -> (j < nx)%nat ->
      0 <= nth i (x_coords (CSTLayer_init None n nx e1 e2)) 0
        <= nth j (x_coords (CSTLayer_init None n nx e1 e2)) 0 /\
      nth j (x_coords (CSTLayer_init None n nx e1 e2)) 0 <= 1.
Proof.
  intros n nx e1 e2 N.
  pose proof (CSTLayer_init_consistent None n nx e1 e2) as C.
  unfold consistent in C.
  assert (n_x (CSTLayer_init None n nx e1 e2) = nx) as Nx by reflexivity.
  assert (0 < IZR (Z.of_nat nx - 1)) as P by (apply IZR_lt; lia).
  pose proof PI_RGT_0 as Pi.
  split; [exact Nx |]. split; [now rewrite <- C |].
  split; [| split].
  - rewrite default_station by lia.
    replace (PI + IZR (Z.of_nat 0) * (PI / IZR (Z.of_nat nx - 1))) with PI
      by (cbn [Z.of_nat]; ring).
    rewrite cos_PI. lra.
  - rewrite default_station by lia.
    replace (PI + IZR (Z.of_nat (nx - 1)) * (PI / IZR (Z.of_nat nx - 1)))
      with (2 * PI)
      by (replace (Z.of_nat (nx - 1)) with (Z.of_nat nx - 1)%Z by lia;
          field; lra).
    rewrite cos_2PI. lra.
  - intros i j Le Lt. rewrite !default_station by lia.
    assert (forall m : nat, (m < nx)%nat ->
              PI <= PI + IZR (Z.of_nat m) * (PI / IZR (Z.of_nat nx - 1))
                 <= 2 * PI) as Rg.
    { intros m M.
      assert (0 <= IZR (Z.of_nat m) <= IZR (Z.of_nat nx - 1)) as (m0 & m1)
        by (split; apply IZR_le; lia).
      assert (0 <= IZR (Z.of_nat m) / IZR (Z.of_nat nx - 1) <= 1)
        as (q0 & q1).
      { split; [| now apply div_le_one].
        apply Rmult_le_pos; [exact m0 |].
        left. now apply Rinv_0_lt_compat. }
      replace (IZR (Z.of_nat m) * (PI / IZR (Z.of_nat nx - 1)))
        with (IZR (Z.of_nat m) / IZR (Z.of_nat nx - 1) * PI)
        by (field; lra).
      nra. }
    assert (cos (PI + IZR (Z.of_nat i) * (PI / IZR (Z.of_nat nx - 1)))
            <= cos (PI + IZR (Z.of_nat j) * (PI / IZR (Z.of_nat nx - 1))))
      as Mono.
    { apply cos_incr_1; try apply Rg; try lia.
      apply Rplus_le_compat_l, Rmult_le_compat_r.
      - left. apply Rdiv_lt_0_compat; lra.
      - apply IZR_le. lia. }
    pose proof (COS_bound (PI + IZR (Z.of_nat i)
                                * (PI / IZR (Z.of_nat nx - 1)))) as (B1 & _).
    pose proof (COS_bound (PI + IZR (Z.of_nat j)
                                * (PI / IZR (Z.of_nat nx - 1)))) as (_ & B2).
    lra.
Qed.

End RealGrids.

Section PinnedEnds.

Local Open Scope R_scope.

Lemma nth_zip_with {A : Type} (op : A -> A -> A) (a b : list A) (i : nat)
    (d : A) :
  (i < length a)%nat -> (i < length b)%nat ->
  nth i (zip_with op a b) d = op (nth i a d) (nth i b d).
Proof.
  revert b i. induction a as [| u a IH]; intros [| v b] [| i] La Lb;
    cbn in La, Lb; try lia; cbn [zip_with nth]; [reflexivity |].
  apply IH; lia.
Qed.

Lemma basis_entry_at_zero (n r : nat) (e1 e2 : R) :
  0 < e1 -> basis_entry n e1 e2 r 0 = 0.
Proof.
  intros E. unfold basis_entry.
  cbn [fmul fadd fsub fpow of_Z exact exact_libm].
  assert (0 <= IZR (Z.of_nat r)) by (apply IZR_le; lia).
  unfold Rpow at 1. destruct (Rlt_dec 0 0) as [B | _]; [lra |].
  destruct (Req_dec_T 0 0) as [_ | B]; [| lra].
  destruct (Req_dec_T (e1 + IZR (Z.of_nat r)) 0); [lra | ring].
Qed.

Lemma basis_entry_at_one (n r : nat) (e1 e2 : R) :
  0 < e2 -> (r <= n)%nat -> basis_entry n e1 e2 r 1 = 0.
Proof.
  intros E L. unfold basis_entry.
  cbn [fmul fadd fsub fpow of_Z exact exact_libm].
  assert (IZR (Z.of_nat r) <= IZR (Z.of_nat n)) by (apply IZR_le; lia).
  unfold Rpow at 2. destruct (Rlt_dec 0 (1 - 1)) as [B | _]; [lra |].
  destruct (Req_dec_T (1 - 1) 0) as [_ | B]; [| lra].
  destruct (Req_dec_T (IZR (Z.of_nat n) + e2 - IZR (Z.of_nat r)) 0);
    [lra | ring].
Qed.

(** A row of the basis matrix at a station where every basis function
    vanishes contributes nothing. *)
Lemma fdot_vanishing_row (self : CSTLayer R) (a : list R) (i : nat) :
  consistent self -> (i < n_x self)%nat ->
  (forall r, (r <= n_cst self)%nat ->
     basis_entry (n_cst self) (n1 self) (n2 self) r
       (nth i (x_coords self) 0) = 0) ->
  fdot (nth i (A0_matrix self) []) a = 0.
Proof.
  intros C I Z.
  assert (nth i (A0_matrix self) [] = repeat 0 (n_cst self + 1)) as ->;
    [| apply fdot_zero].
  assert (length (nth i (A0_matrix self) []) = (n_cst self + 1)%nat) as L.
  { pose proof (A0_matrix_rows self) as Rw.
    rewrite Forall_forall in Rw. apply Rw, nth_In.
    now rewrite A0_matrix_length. }
  apply nth_ext with (d := 0) (d' := 0);
    [now rewrite repeat_length |].
  intros r Lr. rewrite nth_repeat.
  rewrite L in Lr.
  pose proof (@A0_matrix_entry R _ _ self i r C I ltac:(lia)) as E.
  cbn [of_Z exact] in E. rewrite E. apply Z. lia.
Qed.

(** X17. The curves rebuilt by [get_parsec_n15] (lines 129-131) from 13
    coefficients per surface, in exact arithmetic: at a station [x = 0]
    both curves are 0, and at a station [x = 1] the upper curve is [te]
    and the lower curve [-te], whatever the coefficients. *)
Theorem reconstruction_is_pinned_at_both_ends :
  forall (x2 au al : list R) (te : R),
    length au = 13%nat -> length al = 13%nat ->
    exists yu yl,
      reconstruct x2 au al te = OK (yu, yl) /\
      length yu = length x2 /\ length yl = length x2 /\
      forall i, (i < length x2)%nat ->
        (nth i x2 0 = 0 -> nth i yu 0 = 0 /\ nth i yl 0 = 0) /\
        (nth i x2 0 = 1 -> nth i yu 0 = te /\ nth i yl 0 = - te).
Proof.
  intros x2 au al te Lu Ll.
  destruct (@reconstruct_returns R _ _ x2 au al te Lu Ll) as (E & Lyu & Lyl).
  exists (dense_upper x2 au te), (dense_lower x2 al te).
  split; [exact E |]. split; [exact Lyu |]. split; [exact Lyl |].
  intros i I.
  pose proof (CSTLayer_init_consistent (Some x2) 12 129
                (decimal 5 10) (of_Z 1)) as C.
  fold (CSTLayer_12 x2) in C.
  pose proof (A0_matrix_length (CSTLayer_12 x2)) as LA.
  change (n_x (CSTLayer_12 x2)) with (length x2) in LA.
  assert (forall a : list R,
            nth i (map (fun row => fdot row a) (A0_matrix (CSTLayer_12 x2)))
                0 = fdot (nth i (A0_matrix (CSTLayer_12 x2)) []) a) as Row
    by (intros a; rewrite (nth_map_in_range _ _ _ []) by lia; reflexivity).
  assert (nth i (scale x2 te) 0 = nth i x2 0 * te) as Sc
    by (unfold scale; now rewrite (nth_map_in_range _ _ _ 0)).
  unfold dense_upper, dense_lower.
  rewrite !nth_zip_with by (rewrite ?length_map, ?scale_length; lia).
  rewrite !Row, Sc. cbn [fadd fsub exact].
  assert (0 < decimal (F := R) 5 10) as E1
    by (unfold decimal; cbn [fdiv of_Z exact]; lra).
  split; intros X.
  - rewrite !(@fdot_vanishing_row (CSTLayer_12 x2) _ i C I).
    + rewrite X. split; ring.
    + intros r _. change (nth i (x_coords (CSTLayer_12 x2)) 0)
        with (nth i x2 0). rewrite X. now apply basis_entry_at_zero.
    + intros r _. change (nth i (x_coords (CSTLayer_12 x2)) 0)
        with (nth i x2 0). rewrite X. now apply basis_entry_at_zero.
  - rewrite !(@fdot_vanishing_row (CSTLayer_12 x2) _ i C I).
    + rewrite X. split; ring.
    + intros r R12. change (nth i (x_coords (CSTLayer_12 x2)) 0)
        with (nth i x2 0). rewrite X.
      apply basis_entry_at_one; [| exact R12].
      cbn [n2 CSTLayer_12 CSTLayer_init of_Z exact]. lra.
    + intros r R12. change (nth i (x_coords (CSTLayer_12 x2)) 0)
        with (nth i x2 0). rewrite X.
      apply basis_entry_at_one; [| exact R12].
      cbn [n2 CSTLayer_12 CSTLayer_init of_Z exact]. lra.
Qed.

End PinnedEnds.

(** ** The schedules by name *)

Section ScheduleEdges.

Context {F : Type} `{Float64 F} `{Libm F}.

(** X12. [generate_schedule] without time steps: [num_timesteps = 0]
    raises [ZeroDivisionError] whichever schedule is named; a negative
    [num_timesteps] gives an empty cosine schedule without any error,
    and a [ValueError] from [np.linspace] for the linear one. *)
Theorem generate_schedule_without_time_steps :
  forall (args : schedule_args F),
    (args_num_timesteps args = 0 ->
     generate_schedule args = Raise ZeroDivisionError) /\
    (args_num_timesteps args < 0 ->
     generate_schedule args =
       if String.eqb (schedule args) "cosine" then OK []
       else Raise (ValueError samples_msg)).
Proof.
  intros args. unfold generate_schedule, generate_cosine_schedule,
    generate_linear_schedule.
  split; intros T0.
  - rewrite T0. now destruct (String.eqb _ _).
  - destruct (Z.eqb_spec (args_num_timesteps args) 0) as [E | _]; [lia |].
    destruct (Z.ltb_spec (args_num_timesteps args) 0) as [_ | B]; [| lia].
    destruct (String.eqb _ _); [| reflexivity].
    replace (Z.to_nat (args_num_timesteps args)) with 0%nat by lia.
    reflexivity.
Qed.

End ScheduleEdges.

Section LinearSchedule.

Local Open Scope R_scope.

(** X13. [generate_schedule] with any schedule name other than
    ["cosine"], in exact arithmetic and for [num_timesteps = T >= 2]: it
    returns [T] betas evenly spaced from [schedule_low * 1000 / T] to
    [schedule_high * 1000 / T]; entry [i] is
    [1000 / T * (low + i / (T - 1) * (high - low))]. *)
Theorem linear_schedule_is_evenly_spaced :
  forall (args : schedule_args R),
    schedule args <> "cosine" ->
    (2 <= args_num_timesteps args)%Z ->
    exists betas_,
      generate_schedule args = OK betas_ /\
      length betas_ = Z.to_nat (args_num_timesteps args) /\
      forall i, (i < Z.to_nat (args_num_timesteps args))%nat ->
        nth i betas_ 0 =
        1000 / IZR (args_num_timesteps args)
        * (schedule_low args
           + IZR (Z.of_nat i) / IZR (args_num_timesteps args - 1)
             * (schedule_high args - schedule_low args)).
Proof.
  intros args Lin T2. unfold generate_schedule, generate_linear_schedule.
  destruct (String.eqb_spec (schedule args) "cosine") as [E | _];
    [contradiction |].
  destruct (Z.eqb_spec (args_num_timesteps args) 0) as [E | _]; [lia |].
  destruct (Z.ltb_spec (args_num_timesteps args) 0) as [B | _]; [lia |].
  eexists. split; [reflexivity |].
  split; [apply linspace_length |].
  intros i I. rewrite linspace_real by lia.
  cbn [fdiv fmul of_Z exact].
  rewrite Z2Nat.id by lia.
  assert (0 < IZR (args_num_timesteps args)) by (apply IZR_lt; lia).
  assert (0 < IZR (args_num_timesteps args - 1)) by (apply IZR_lt; lia).
  field. lra.
Qed.

End LinearSchedule.

(** ** Features read off the input *)

Section DirectFeatures.

Context {F : Type} `{Float64 F} `{Libm F} `{Solvers F}.

(** X23. Whenever [get_parsec_n15] returns, it returns 15 features, of
    which feature 9 is the leading-edge angle of the first two points and
    feature 10 is half the gap between the first and the last ordinate of
    the input. *)
Theorem angle_and_gap_features_are_read_off_the_input :
  forall (data : list (F * F)) (v : list F),
    get_parsec_n15 data = OK v ->
    length v = 15%nat /\
    leading_edge_angle data = OK (nth 9 v (of_Z 0)) /\
    nth 10 v (of_Z 0) =
      fdiv (fsub (hd (of_Z 0) (map snd data))
                 (last (map snd data) (of_Z 0)))
           (of_Z 2).
Proof.
  intros data v E. unfold get_parsec_n15 in E.
  apply bind_OK in E. destruct E as (angle & Ea & E).
  apply bind_OK in E. destruct E as ([[au al] te] & Ef & E).
  apply bind_OK in E. destruct E as ([yu yl] & _ & E).
  do 15 (apply bind_OK in E; destruct E as (? & _ & E)).
  apply bind_OK in E. destruct E as ([[xc yc] r] & _ & E).
  injection E as <-. cbn [nth length].
  split; [reflexivity |]. split; [exact Ea |].
  rewrite fit_CST_stages in Ef.
  destruct (trailing_edge (map snd data) 129) as [[yu_te yl_te] |] eqn:Et;
    [| discriminate].
  destruct (trailing_edge_ends _ _ Et) as (-> & ->). cbn [bind] in Ef.
  apply bind_OK in Ef. destruct Ef as (au' & _ & Ef).
  apply bind_OK in Ef. destruct Ef as (al' & _ & Ef).
  now injection Ef as _ _ <-.
Qed.

End DirectFeatures.

(** ** The schedule buffers *)

Section InitBuffers.

Import Diffusion.

Local Open Scope R_scope.

Lemma cumprod_from_length (acc : R) (a : list R) :
  length (cumprod_from acc a) = length a.
Proof.
  revert acc. induction a as [| u a IH]; intros acc; cbn; [reflexivity |].
  now rewrite IH.
Qed.

Lemma cumprod_length (a : list R) : length (cumprod a) = length a.
Proof. destruct a; cbn; [reflexivity |]. now rewrite cumprod_from_length. Qed.

Lemma cumprod_from_step (a : list R) :
  forall (acc : R) (t : nat),
    (S t < length a)%nat ->
    nth (S t) (cumprod_from acc a) 0 =
    nth t (cumprod_from acc a) 0 * nth (S t) a 0.
Proof.
  induction a as [| u a IH]; intros acc t L; [cbn in L; lia |].
  cbn [cumprod_from nth]. cbn [fmul exact].
  destruct t as [| t].
  - destruct a as [| v a]; [cbn in L; lia | reflexivity].
  - apply IH. cbn in L. lia.
Qed.

Lemma cumprod_step (a : list R) (t : nat) :
  (S t < length a)%nat ->
  nth (S t) (cumprod a) 0 = nth t (cumprod a) 0 * nth (S t) a 0.
Proof.
  destruct a as [| u a]; intros L; [cbn in L; lia |].
  cbn [cumprod nth]. destruct t as [| t].
  - destruct a as [| v a]; [cbn in L; lia | reflexivity].
  - apply cumprod_from_step. cbn in L. lia.
Qed.

(** X24. The buffer [alphas_cumprod] of a model built by [__init__]
    from betas strictly between 0 and 1, in exact arithmetic on flat
    tensors: it has one entry per beta, every entry lies strictly between
    0 and 1, and the entries strictly decrease. *)
Theorem alphas_cumprod_decreases_within_the_unit_interval :
  forall (net : unit) (latent channels_ : Z) (betas_ : list R)
         (loss : string) (decay : R) (start rate : Z)
         (self : PointDiTDiffusion R (list R) unit),
    @init R (list R) (list R) unit nat exact flat_torch net latent channels_
      betas_ loss decay start rate = OK self ->
    Forall (fun b => 0 < b < 1) betas_ ->
    length (alphas_cumprod self) = length betas_ /\
    forall t, (t < length betas_)%nat ->
      0 < nth t (alphas_cumprod self) 0 < 1 /\
      ((S t < length betas_)%nat ->
       nth (S t) (alphas_cumprod self) 0 < nth t (alphas_cumprod self) 0).
Proof.
  intros net latent channels_ betas_ loss decay start rate self E B.
  unfold init in E. destruct (negb _); [discriminate |].
  injection E as <-. cbn [alphas_cumprod to_torch flat_torch].
  cbn [fsub of_Z exact].
  set (al := map (Rminus 1) betas_).
  assert (length al = length betas_) as La by apply length_map.
  assert (forall t, (t < length betas_)%nat -> 0 < nth t al 0 < 1) as A.
  { intros t L. unfold al. rewrite (nth_map_in_range _ _ _ 0) by exact L.
    rewrite Forall_forall in B.
    pose proof (B _ (nth_In betas_ 0 L)). lra. }
  split; [now rewrite cumprod_length |].
  assert (forall t, (t < length betas_)%nat ->
            0 < nth t (cumprod al) 0 < 1) as P.
  { induction t as [| t IH]; intros L.
    - assert (nth 0 (cumprod al) 0 = nth 0 al 0) as ->
        by (destruct al; reflexivity).
      now apply A.
    - rewrite cumprod_step by lia.
      specialize (IH ltac:(lia)). specialize (A (S t) L). nra. }
  intros t L. split; [now apply P |]. intros L1.
  specialize (P t L). specialize (A (S t) L1).
  rewrite cumprod_step by lia. nra.
Qed.

End InitBuffers.

(** * Runs of the further properties *)

Lemma hundred_betas_length : Z.of_nat (length hundred_betas) = 100.
Proof. unfold hundred_betas. now rewrite length_map, length_seq. Qed.

(** X1 on a model of four steps. *)
Lemma sample_on_four_steps :
  exists self,
    @Diffusion.init R (list R) (list R) unit nat exact flat_torch
      tt 4 1 four_betas "l2" (9999 / 10000)%R 5000 1 = OK self /\
    exists x g,
      Diffusion.sample self 2 None true fresh =
      (OK x,
       {| Diffusion.gen := g;
          Diffusion.log :=
            Diffusion.log fresh ++
            sample_events [2; Diffusion.latent_size self;
                           Diffusion.channels self]
                          true (Diffusion.num_timesteps self) |}).
Proof.
  eexists. split; [reflexivity |].
  apply sample_calls_the_network_once_per_step. reflexivity.
Defined.

(** X4 on a model of a hundred steps: the stride is 2. *)
Lemma ddim_time_steps_of_a_hundred :
  exists self,
    @Diffusion.init R (list R) (list R) unit nat exact flat_torch
      tt 4 1 hundred_betas "l2" (9999 / 10000)%R 5000 1 = OK self /\
    exists seqs,
      Diffusion.ddim_schedule self = OK seqs /\
      index (fst seqs) 49 = OK 99 /\ index (snd seqs) 49 = OK 97 /\
      index (fst seqs) 0 = OK 1 /\ index (snd seqs) 0 = OK 0.
Proof.
  assert (50 <= Z.of_nat (length hundred_betas)) as L
    by (rewrite hundred_betas_length; lia).
  eexists. split; [reflexivity |].
  destruct (@ddim_time_steps_are_strided R (list R) (list R) unit nat
              exact flat_torch tt 4 1 hundred_betas "l2" (9999 / 10000)%R
              5000 1 _ eq_refl L)
    as (seqs & S & K & _).
  rewrite hundred_betas_length in K.
  exists seqs. split; [exact S |].
  destruct (K 49) as (A & B & _);
    [apply countdown_In; cbn; lia |].
  destruct (K 0) as (C & D & _);
    [apply countdown_In; cbn; lia |].
  repeat split; assumption.
Defined.

(** X5 on a model of four steps. *)
Lemma ddim_on_four_steps :
  exists self,
    @Diffusion.init R (list R) (list R) unit nat exact flat_torch
      tt 4 1 four_betas "l2" (9999 / 10000)%R 5000 1 = OK self /\
    Diffusion.sample_ddim self 2 None true true None None fresh =
      (Raise (ValueError Diffusion.range_msg), fresh) /\
    Diffusion.sample_ddim_sequence self 2 None true true fresh =
      (Raise (ValueError Diffusion.range_msg), fresh).
Proof.
  eexists. split; [reflexivity |].
  apply (@ddim_needs_fifty_time_steps R (list R) (list R) unit nat
           exact flat_torch tt 4 1 four_betas "l2" (9999 / 10000)%R
           5000 1 _ 2 None true true None None fresh eq_refl);
    [cbn; lia | reflexivity].
Defined.

(** X6 on a model of a hundred steps. *)
Lemma ddim_on_a_hundred_steps :
  exists self,
    @Diffusion.init R (list R) (list R) unit nat exact flat_torch
      tt 4 1 hundred_betas "l2" (9999 / 10000)%R 5000 1 = OK self /\
    exists x g,
      Diffusion.sample_ddim self 2 None true true None None fresh =
      (OK x,
       {| Diffusion.gen := g;
          Diffusion.log :=
            Diffusion.log fresh ++
            ddim_events [2; 4; 1] true (repaints None)
                        (Z.of_nat (length hundred_betas) / 50) 50 |}).
Proof.
  assert (50 < Z.of_nat (length hundred_betas)) as L
    by (rewrite hundred_betas_length; lia).
  eexists. split; [reflexivity |].
  exact (@sample_ddim_calls_the_network_fifty_times R (list R) (list R)
           unit nat exact flat_torch tt 4 1 hundred_betas "l2"
           (9999 / 10000)%R 5000 1 _ 2 None true true None None fresh
           eq_refl L eq_refl (or_introl eq_refl)).
Defined.

(** X7 on a model of a hundred steps. *)
Lemma repainting_a_hundred_steps_without_gt :
  exists self,
    @Diffusion.init R (list R) (list R) unit nat exact flat_torch
      tt 4 1 hundred_betas "l2" (9999 / 10000)%R 5000 1 = OK self /\
    exists g,
      Diffusion.sample_ddim self 2 None true true None (Some [0; 1]) fresh =
      (Raise (TypeError Diffusion.no_gt_msg),
       {| Diffusion.gen := g;
          Diffusion.log :=
            Diffusion.log fresh ++
            [Diffusion.Drawn [2; 4; 1];
             Diffusion.Forward true
               (49 * (Z.of_nat (length hundred_betas) / 50) + 1);
             Diffusion.DrawnLike] |}).
Proof.
  assert (50 < Z.of_nat (length hundred_betas)) as L
    by (rewrite hundred_betas_length; lia).
  eexists. split; [reflexivity |].
  exact (@repainting_without_gt_fails_after_the_first_network_call
           R (list R) (list R) unit nat exact flat_torch tt 4 1
           hundred_betas "l2" (9999 / 10000)%R 5000 1 _ 2 None true true
           [0; 1] fresh eq_refl L eq_refl).
Defined.

(** X8: two calls during a warm-up of 5000 steps. *)
Lemma two_warm_up_steps :
  exists self,
    @Diffusion.init R (list R) (list R) (list (list R)) nat exact
      param_torch [[1; 2]; [3]]%R 4 1 four_betas "l2" (9 / 10)%R 5000 1
      = OK self /\
    Diffusion.step (@update_ema_times R (list R) (list R) nat exact
                      param_torch 2 self) = 2 /\
    Diffusion.ema_model (@update_ema_times R (list R) (list R) nat exact
                           param_torch 2 self) = [[1; 2]; [3]]%R.
Proof.
  eexists. split; [reflexivity |].
  match goal with
  | |- Diffusion.step (update_ema_times 2 ?self) = _ /\ _ =>
      destruct (@update_ema_copies_the_model_during_warm_up R (list R)
                  (list R) nat exact param_torch self 2)
        as (S & _ & E); [cbn; lia | cbn; lia |]
  end.
  split; [exact S | exact E].
Defined.

(** X9: an update rate of zero. *)
Lemma update_rate_zero :
  exists self,
    @Diffusion.init R (list R) (list R) (list (list R)) nat exact
      param_torch [[1; 2]; [3]]%R 4 1 four_betas "l2" (9 / 10)%R 5000 0
      = OK self /\
    fst (@update_ema R (list R) (list R) nat exact param_torch
           (@update_ema_times R (list R) (list R) nat exact param_torch
              2 self)) = Raise ZeroDivisionError /\
    Diffusion.step (@update_ema_times R (list R) (list R) nat exact
                      param_torch 3 self) = 3.
Proof.
  eexists. split; [reflexivity |].
  match goal with
  | |- fst (update_ema (update_ema_times 2 ?self)) = _ /\ _ =>
      destruct (@update_ema_counts_the_step_before_it_divides R (list R)
                  (list R) nat exact param_torch self 2 eq_refl)
        as (E & S & _)
  end.
  split; [exact E | exact S].
Defined.

(** X10: three calls after the warm-up. *)
Lemma three_updates_after_warm_up :
  exists self,
    @Diffusion.init R (list R) (list R) (list (list R)) nat exact
      param_torch [[1; 2]; [3]]%R 4 1 four_betas "l2" (9 / 10)%R 0 1
      = OK self /\
    nth 1 (nth 0 (Diffusion.ema_model
                    (@update_ema_times R (list R) (list R) nat exact
                       param_torch 3 self)) []) 0%R =
    (2 + (9 / 10) ^ 3 * (2 - 2))%R.
Proof.
  eexists. split; [reflexivity |].
  match goal with
  | |- nth 1 (nth 0 (Diffusion.ema_model (update_ema_times 3 ?self)) []) _
       = _ =>
      apply (@ema_approaches_the_model_geometrically self 3 0 1)
  end.
  - cbn. lia.
  - cbn. lia.
  - repeat constructor.
Defined.

(** X11 for four steps and the default offset. *)
Lemma cosine_schedule_of_four_steps :
  exists betas_,
    generate_cosine_schedule 4 (8 / 1000)%R = OK betas_ /\
    length betas_ = 4%nat /\
    Forall (fun b => 0 <= b <= 999 / 1000)%R betas_ /\
    last betas_ 0%R = (999 / 1000)%R.
Proof.
  apply (@cosine_schedule_is_clipped 4 (8 / 1000)%R); [lia | lra].
Defined.

(** X13 for four steps. *)
Lemma linear_schedule_of_four_steps :
  exists betas_,
    generate_schedule
      {| schedule := "linear"; args_num_timesteps := 4;
         schedule_low := (1 / 10000)%R; schedule_high := (2 / 100)%R |}
      = OK betas_ /\
    length betas_ = 4%nat /\
    forall i, (i < 4)%nat ->
      nth i betas_ 0%R =
      (1000 / 4
       * (1 / 10000 + IZR (Z.of_nat i) / IZR (4 - 1) * (2 / 100 - 1 / 10000)))%R.
Proof.
  apply (@linear_schedule_is_evenly_spaced
           {| schedule := "linear"; args_num_timesteps := 4;
              schedule_low := (1 / 10000)%R;
              schedule_high := (2 / 100)%R |});
    [discriminate | cbn; lia].
Defined.

(** X15 at mid-chord, degree 12. *)
Lemma slope_at_mid_chord :
  derivable_pt_lim (basis_entry 12 (1 / 2)%R 1%R 3) (1 / 2)%R
                   (slope_entry 12 (1 / 2)%R 1%R 3 (1 / 2)%R).
Proof.
  apply slope_entry_is_the_derivative_of_the_basis. lra.
Defined.

(** X16 at mid-chord, degree 12. *)
Lemma curvature_at_mid_chord :
  derivable_pt_lim (slope_entry 12 (1 / 2)%R 1%R 3) (1 / 2)%R
                   (curvature_entry 12 (1 / 2)%R 1%R 3 (1 / 2)%R).
Proof.
  apply curvature_entry_is_the_derivative_of_the_slope. lra.
Defined.

(** X17 over three stations. *)
Lemma reconstruction_over_three_stations :
  exists yu yl,
    reconstruct [0; 1 / 2; 1]%R (repeat 1%R 13) (repeat 1%R 13)
                (1 / 100)%R = OK (yu, yl) /\
    nth 0 yu 0%R = 0%R /\ nth 0 yl 0%R = 0%R /\
    nth 2 yu 0%R = (1 / 100)%R /\ nth 2 yl 0%R = (- (1 / 100))%R.
Proof.
  destruct (@reconstruction_is_pinned_at_both_ends [0; 1 / 2; 1]%R
              (repeat 1%R 13) (repeat 1%R 13) (1 / 100)%R eq_refl eq_refl)
    as (yu & yl & E & _ & _ & K).
  exists yu, yl. split; [exact E |].
  destruct (K 0%nat) as (A & _); [cbn; lia |].
  destruct (K 2%nat) as (_ & B); [cbn; lia |].
  destruct (A eq_refl) as (A1 & A2). destruct (B eq_refl) as (B1 & B2).
  repeat split; assumption.
Defined.

(** X18 for the default 129 stations. *)
Lemma default_stations_of_129 :
  n_x (CSTLayer_init None 12 129 (1 / 2)%R 1%R) = 129%nat /\
  nth 0 (x_coords (CSTLayer_init None 12 129 (1 / 2)%R 1%R)) 0%R = 0%R /\
  nth 128 (x_coords (CSTLayer_init None 12 129 (1 / 2)%R 1%R)) 0%R = 1%R.
Proof.
  destruct (@default_stations_run_from_zero_to_one 12 129 (1 / 2)%R 1%R)
    as (N & _ & A & B & _); [lia |].
  repeat split; assumption.
Defined.

(** X19 on two points of the unit circle. *)
Lemma objective_on_the_unit_circle :
  exists v,
    objective [0; 0; 1]%R [1; 0]%R [0; 1]%R = OK v /\ (0 <= v)%R.
Proof.
  destruct (@objective_vanishes_exactly_on_the_circle 0%R 0%R 1%R
              [1; 0]%R [0; 1]%R eq_refl) as (v & E & N & _).
  exists v. split; assumption.
Defined.

(** X20: six ordinates over three stations. *)
Lemma six_ordinates_over_three_stations :
  fit_CST three_stations six_ordinates 3
    = Raise (ValueError broadcast_msg) /\
  fit_CST_low three_stations six_ordinates 3
    = Raise (ValueError broadcast_msg) /\
  (exists au te, fit_CST_up three_stations six_ordinates 3 = OK (au, te)) /\
  @fit_CST R exact exact_libm diverging three_stations six_ordinates 3
    = Raise (LinAlgError svd_msg) /\
  @fit_CST_up R exact exact_libm diverging three_stations six_ordinates 3
    = Raise (LinAlgError svd_msg).
Proof.
  pose proof (fun S =>
    @upper_fit_accepts_what_the_joint_fit_rejects R exact exact_libm S
      three_stations six_ordinates 3
      (CSTLayer_init_consistent _ _ _ _ _) eq_refl) as K.
  destruct (K exact_solvers) as (B & A & C); [lia | cbn; lia | cbn; lia |].
  destruct (K diverging) as (_ & A' & C'); [lia | cbn; lia | cbn; lia |].
  split; [exact A |]. split; [exact B |].
  split; [eexists _, _; exact C |]. split; [exact A' | exact C'].
Defined.

(** X22 on a segment of slope one: 45 degrees. *)
Lemma angle_of_a_unit_slope :
  exists a,
    leading_edge_angle [(1, 1); (0, 0)]%R = OK a /\
    a = (atan ((1 - 0) / (1 - 0)) * (180 / PI))%R /\
    (-90 < a < 90)%R.
Proof.
  apply (proj2 (leading_edge_angle_is_an_acute_angle [(1, 1); (0, 0)]%R)
               (1, 1)%R (0, 0)%R [] eq_refl).
  cbn. lra.
Defined.

(** X23 on the diamond. *)
Lemma gap_feature_of_the_diamond :
  exists v,
    get_parsec_n15 diamond = OK v /\
    nth 10 v 0%R =
    ((hd 0 (map snd diamond) - last (map snd diamond) 0) / 2)%R.
Proof.
  destruct (@get_parsec_n15_returns R exact exact_libm exact_solvers
              diamond exact_lstsq_returns
              (lstsq_contract_shape exact_lstsq_contract)
              halted_minimize_shape dense_grid_real_covers
              (or_intror eq_refl))
    as (angle & au & al & te & v & _ & _ & E & _).
  exists v. split; [exact E |].
  exact (proj2 (proj2 (@angle_and_gap_features_are_read_off_the_input
                         R exact exact_libm exact_solvers diamond v E))).
Defined.

(** X24 on the schedule of four steps. *)
Lemma cumulative_products_of_four_betas :
  exists self,
    @Diffusion.init R (list R) (list R) unit nat exact flat_torch
      tt 4 1 four_betas "l2" (9999 / 10000)%R 5000 1 = OK self /\
    length (Diffusion.alphas_cumprod self) = 4%nat /\
    (0 < nth 3 (Diffusion.alphas_cumprod self) 0 < 1)%R.
Proof.
  eexists. split; [reflexivity |].
  match goal with
  | |- length (Diffusion.alphas_cumprod ?self) = _ /\ _ =>
      destruct (@alphas_cumprod_decreases_within_the_unit_interval tt 4 1
                  four_betas "l2" (9999 / 10000)%R 5000 1 self eq_refl)
        as (L & K)
  end.
  - unfold four_betas. repeat constructor; lra.
  - split; [exact L |]. apply (K 3%nat). cbn. lia.
Defined.
